(** * Keystroke-dynamics core: [calculateTypingPattern] and [comparePatterns]

    A shallow embedding of the typing-analysis library of the repository
    (the feature extractor and the similarity scorer) and of the two
    boundary handlers that gate it (the [/api/predict] endpoint of
    [src/api/server.ts] and [predictUser] of the React application).

    Numbers.  A JavaScript [number] is embedded as an extended real: a
    finite real, [Infinity], [-Infinity] or [NaN].  The special values
    follow IEEE 754 as JavaScript exposes them ([0/0 = NaN],
    [x/0 = ±Infinity], [Infinity - Infinity = NaN], comparisons with
    [NaN] are false, ...).  Finite arithmetic is exact: rounding, overflow
    of finite values and the sign of zero are not represented.

    Objects used as dictionaries are finite maps with string keys (own
    properties only); arrays are lists; array lengths, counters and
    indices, which the code only ever increments by one or obtains from
    [length], are natural numbers and are injected into [number] where the
    code does arithmetic with them. *)

From Stdlib Require Import Reals Lra Lia ZArith Ascii.
From stdpp Require Import gmap strings list fin_maps sorting.

(** ** JavaScript numbers *)

Inductive number : Type :=
  | Num (r : R)
  | Infinity
  | NegInfinity
  | NaN.

#[global] Instance R_eq_dec : EqDecision R := Req_dec_T.
#[global] Instance Rlt_decision (x y : R) : Decision (x < y)%R := Rlt_dec x y.
#[global] Instance Rle_decision (x y : R) : Decision (x <= y)%R := Rle_dec x y.

Definition of_nat (n : nat) : number := Num (INR n).

Definition num_neg (a : number) : number :=
  match a with
  | Num x => Num (- x)
  | Infinity => NegInfinity
  | NegInfinity => Infinity
  | NaN => NaN
  end.

Definition num_add (a b : number) : number :=
  match a, b with
  | NaN, _ | _, NaN => NaN
  | Num x, Num y => Num (x + y)
  | Infinity, NegInfinity | NegInfinity, Infinity => NaN
  | Infinity, _ | _, Infinity => Infinity
  | NegInfinity, _ | _, NegInfinity => NegInfinity
  end.

Definition num_sub (a b : number) : number := num_add a (num_neg b).

(** An infinity [inf] multiplied by the finite [x]. *)
Definition inf_times (inf : number) (x : R) : number :=
  if decide (x = 0)%R then NaN
  else if decide (0 < x)%R then inf else num_neg inf.

Definition num_mul (a b : number) : number :=
  match a, b with
  | NaN, _ | _, NaN => NaN
  | Num x, Num y => Num (x * y)
  | Num x, inf | inf, Num x => inf_times inf x
  | Infinity, Infinity | NegInfinity, NegInfinity => Infinity
  | Infinity, NegInfinity | NegInfinity, Infinity => NegInfinity
  end.

(** An infinity [inf] divided by the finite [y] (a zero divisor counts as
    [+0]). *)
Definition inf_over (inf : number) (y : R) : number :=
  if decide (y < 0)%R then num_neg inf else inf.

Definition num_div (a b : number) : number :=
  match a, b with
  | NaN, _ | _, NaN => NaN
  | Num x, Num y =>
      if decide (y = 0)%R then
        if decide (x = 0)%R then NaN
        else if decide (0 < x)%R then Infinity else NegInfinity
      else Num (x / y)
  | Num _, _ => Num 0
  | inf, Num y => inf_over inf y
  | _, _ => NaN
  end.

(** [a < b] of JavaScript; [a > b] is [num_lt b a].  False as soon as an
    operand is [NaN]. *)
Definition num_lt (a b : number) : bool :=
  match a, b with
  | NaN, _ | _, NaN => false
  | Num x, Num y => bool_decide (x < y)%R
  | NegInfinity, NegInfinity | Infinity, _ | _, NegInfinity => false
  | NegInfinity, _ | _, Infinity => true
  end.

Definition num_gt (a b : number) : bool := num_lt b a.

Definition Math_abs (a : number) : number :=
  match a with
  | Num x => Num (Rabs x)
  | Infinity | NegInfinity => Infinity
  | NaN => NaN
  end.

Definition Math_sqrt (a : number) : number :=
  match a with
  | Num x => if decide (x < 0)%R then NaN else Num (sqrt x)
  | Infinity => Infinity
  | NegInfinity | NaN => NaN
  end.

Definition Math_exp (a : number) : number :=
  match a with
  | Num x => Num (exp x)
  | Infinity => Infinity
  | NegInfinity => Num 0
  | NaN => NaN
  end.

(** [Math.pow(a, 2)]. *)
Definition Math_pow_2 (a : number) : number :=
  match a with
  | Num x => Num (x * x)
  | Infinity | NegInfinity => Infinity
  | NaN => NaN
  end.

(** [Math.pow(a, 0.5)]: as [Math.sqrt], but [-Infinity] goes to
    [Infinity]. *)
Definition Math_pow_half (a : number) : number :=
  match a with
  | Num x => if decide (x < 0)%R then NaN else Num (sqrt x)
  | Infinity | NegInfinity => Infinity
  | NaN => NaN
  end.

Definition Math_min (a b : number) : number :=
  match a, b with
  | NaN, _ | _, NaN => NaN
  | _, _ => if num_lt b a then b else a
  end.

Definition Math_max (a b : number) : number :=
  match a, b with
  | NaN, _ | _, NaN => NaN
  | _, _ => if num_lt a b then b else a
  end.

(** [Math.max(a, b, c)]. *)
Definition Math_max3 (a b c : number) : number := Math_max (Math_max a b) c.

(** [Math.floor(n * (p/q))] for an array length [n] and the constants
    0.1 = 1/10, 0.2 = 1/5, 0.25 = 1/4 and 0.75 = 3/4 of the source. *)
Definition floor_frac (n p q : nat) : nat := (n * p) `div` q.

(** [v || 0] on an optional number: [undefined], [NaN] and [0] are falsy. *)
Definition or_zero (v : option number) : number :=
  match v with
  | Some (Num x) => if decide (x = 0)%R then Num 0 else Num x
  | Some NaN | None => Num 0
  | Some inf => inf
  end.

(** ** Arrays *)

Section arrays.
Context {A : Type}.

(** The relative index of [Array.prototype.slice]: negative indices
    count from the end, and everything is clamped to [0, len]. *)
Definition rel_index (len : nat) (i : Z) : nat :=
  if decide (i < 0)%Z then Z.to_nat (Z.max (Z.of_nat len + i) 0)
  else Z.to_nat (Z.min i (Z.of_nat len)).

(** [l.slice(start, end)]; [end] is [None] for [undefined]. *)
Definition slice (l : list A) (start : Z) (fin : option Z) : list A :=
  let len := length l in
  let k := rel_index len start in
  let final := match fin with None => len | Some e => rel_index len e end in
  take (final - k) (drop k l).

(** [l.sort(cmp)] for a comparator returning a number: [x] goes after
    [y] exactly when [cmp(x, y) > 0].  The insertion is stable, so on a
    consistent comparator this is the order every conforming engine
    produces; where the comparator returns [NaN] the language leaves the
    order to the engine. *)
Fixpoint sort_insert (cmp : A → A → number) (x : A) (l : list A) : list A :=
  match l with
  | [] => [x]
  | y :: l' =>
      if num_gt (cmp x y) (Num 0) then y :: sort_insert cmp x l'
      else x :: y :: l'
  end.

Definition Array_sort (cmp : A → A → number) (l : list A) : list A :=
  foldr (sort_insert cmp) [] l.
End arrays.

(** [l[i]] used in arithmetic: a missing element is [undefined], which
    arithmetic turns into [NaN]. *)
Definition array_get (l : list number) (i : nat) : number :=
  default NaN (l !! i).

(** [l.reduce((a, b) => a + b, 0)]. *)
Definition array_sum (l : list number) : number :=
  foldl num_add (Num 0) l.

(** [(a, b) => a - b]. *)
Definition by_difference (a b : number) : number := num_sub a b.

(** [sum(l) / l.length]. *)
Definition array_mean (l : list number) : number :=
  num_div (array_sum l) (of_nat (length l)).

(** ** The data model (types.ts) *)

Record Modifiers : Type := {
  ctrl : bool;
  alt : bool;
  shift : bool;
  meta : bool
}.

Record KeyEvent : Type := {
  key : string;
  code : string;
  timestamp : number;
  timeSinceLast : number;
  modifiers : Modifiers
}.

Record TypingPattern : Type := {
  averageSpeed : number;
  keyPressDistribution : gmap string number;
  modifierUsage : gmap string number;
  timingPatterns : list number;
  specialKeyFrequency : gmap string number;
  backspaceFrequency : number;
  averageWordLength : number;
  rhythmConsistency : number;
  modifierFrequency : number;
  capitalFrequency : number;
  punctuationFrequency : number;
  burstSpeed : number;
  pauseFrequency : number;
  speedVariability : number;
  keyPressForce : number;
  errorRate : number
}.

(** The initial value of [pattern] in [calculateTypingPattern]. *)
Definition default_pattern : TypingPattern := {|
  averageSpeed := Num 0;
  keyPressDistribution := ∅;
  modifierUsage := ∅;
  timingPatterns := [];
  specialKeyFrequency := ∅;
  backspaceFrequency := Num 0;
  averageWordLength := Num 0;
  rhythmConsistency := Num 0;
  modifierFrequency := Num 0;
  capitalFrequency := Num 0;
  punctuationFrequency := Num 0;
  burstSpeed := Num 0;
  pauseFrequency := Num 0;
  speedVariability := Num 0;
  keyPressForce := Num 0;
  errorRate := Num 0
|}.

(** ** Feature extraction: [calculateTypingPattern] *)

(** [Object.values(event.modifiers).some(v => v)]. *)
Definition some_modifier (m : Modifiers) : bool :=
  ctrl m || alt m || shift m || meta m.

(** [key.match(/[A-Z]/)] and the match against the punctuation class
    (full stop, comma, exclamation and question mark, semicolon, colon,
    single and double quote): some character of the key lies in the
    class. *)
Definition is_capital (c : ascii) : bool :=
  (65 <=? nat_of_ascii c)%nat && (nat_of_ascii c <=? 90)%nat.

Definition double_quote : ascii := ascii_of_nat 34.

Definition is_punctuation (c : ascii) : bool :=
  bool_decide (c ∈ ["."; ","; "!"; "?"; ";"; ":"; "'"; double_quote]%char).

Definition matches_class (class : ascii → bool) (s : string) : bool :=
  existsb class (String.list_ascii_of_string s).

(** [s.slice(0, -1)] on a string. *)
Definition drop_last (s : string) : string :=
  String.substring 0 (String.length s - 1) s.

(** The local variables of the [events.forEach] loop, together with
    [pattern.modifierUsage], which the loop fills in. *)
Record scan : Type := {
  wordBuffer : string;
  wordLengths : list number;
  modifierCount : nat;
  capitalCount : nat;
  punctuationCount : nat;
  backspaceCount : nat;
  totalChars : nat;
  keyDistribution : gmap string nat;
  usage : gmap string number
}.

Definition scan_init : scan := {|
  wordBuffer := "";
  wordLengths := [];
  modifierCount := 0;
  capitalCount := 0;
  punctuationCount := 0;
  backspaceCount := 0;
  totalChars := 0;
  keyDistribution := ∅;
  usage := ∅
|}.

(** First block of the loop body: modifier usage with timing context. *)
Definition scan_modifier (event : KeyEvent) (s : scan) : scan :=
  if some_modifier (modifiers event) then
    let timing := timeSinceLast event in
    {| wordBuffer := wordBuffer s;
       wordLengths := wordLengths s;
       modifierCount := S (modifierCount s);
       capitalCount := capitalCount s;
       punctuationCount := punctuationCount s;
       backspaceCount := backspaceCount s;
       totalChars := totalChars s;
       keyDistribution := keyDistribution s;
       usage := if num_gt timing (Num 0)
                then <[key event := timing]> (usage s) else usage s |}
  else s.

(** Second block: a key of length one. *)
Definition scan_char (event : KeyEvent) (s : scan) : scan :=
  if decide (String.length (key event) = 1) then
    let flush :=
      bool_decide (key event = " ") || bool_decide (key event = "Enter") in
    {| wordBuffer :=
         if flush then
           (if decide (0 < String.length (wordBuffer s)) then ""
            else wordBuffer s)
         else wordBuffer s +:+ key event;
       wordLengths :=
         if flush && bool_decide (0 < String.length (wordBuffer s)) then
           wordLengths s ++ [of_nat (String.length (wordBuffer s))]
         else wordLengths s;
       modifierCount := modifierCount s;
       capitalCount :=
         if matches_class is_capital (key event) then S (capitalCount s)
         else capitalCount s;
       punctuationCount :=
         if matches_class is_punctuation (key event)
         then S (punctuationCount s) else punctuationCount s;
       backspaceCount := backspaceCount s;
       totalChars := S (totalChars s);
       keyDistribution :=
         <[key event := default 0 (keyDistribution s !! key event) + 1]>
           (keyDistribution s);
       usage := usage s |}
  else s.

(** Third block: the Backspace key. *)
Definition scan_backspace (event : KeyEvent) (s : scan) : scan :=
  if decide (key event = "Backspace") then
    {| wordBuffer :=
         if decide (0 < String.length (wordBuffer s))
         then drop_last (wordBuffer s) else wordBuffer s;
       wordLengths := wordLengths s;
       modifierCount := modifierCount s;
       capitalCount := capitalCount s;
       punctuationCount := punctuationCount s;
       backspaceCount := S (backspaceCount s);
       totalChars := totalChars s;
       keyDistribution := keyDistribution s;
       usage := usage s |}
  else s.

Definition scan_event (s : scan) (event : KeyEvent) : scan :=
  scan_backspace event (scan_char event (scan_modifier event s)).

Definition scan_events (events : list KeyEvent) : scan :=
  foldl scan_event scan_init events.

(** "Finalize word buffer". *)
Definition final_wordLengths (s : scan) : list number :=
  if decide (0 < String.length (wordBuffer s)) then
    wordLengths s ++ [of_nat (String.length (wordBuffer s))]
  else wordLengths s.

(** [events.slice(1).map(event => event.timeSinceLast)]. *)
Definition intervals_of (events : list KeyEvent) : list number :=
  timeSinceLast <$> slice events 1 None.

(** [sortedIntervals.slice(trimAmount, -trimAmount)] with
    [trimAmount = Math.floor(sortedIntervals.length * 0.1)]. *)
Definition trimmed (sortedIntervals : list number) : list number :=
  let trimAmount := floor_frac (length sortedIntervals) 1 10 in
  slice sortedIntervals (Z.of_nat trimAmount) (Some (- Z.of_nat trimAmount)%Z).

Definition variance_of (intervals : list number) (mean : number) : number :=
  num_div
    (foldl (λ acc val, num_add acc (Math_pow_2 (num_sub val mean)))
       (Num 0) intervals)
    (of_nat (length intervals)).

(** The mean of the window starting at [i]. *)
Definition window_avg (intervals : list number) (windowSize i : nat) : number :=
  num_div
    (array_sum (slice intervals (Z.of_nat i) (Some (Z.of_nat (i + windowSize)))))
    (of_nat windowSize).

(** The [for] loop over [i = 0 .. intervals.length - windowSize]; it does
    not run at all when the array is shorter than the window. *)
Definition min_burst (intervals : list number) : number :=
  let windowSize := Nat.max 5 (floor_frac (length intervals) 1 5) in
  foldl (λ minBurst i, Math_min minBurst (window_avg intervals windowSize i))
    Infinity (seq 0 (length intervals + 1 - windowSize)).

(** Smoothing parameter. *)
Definition alpha : number := Num (1 / 10).

(** [Object.values(keyDistribution).reduce((a, b) => a + b, 0)]. *)
Definition totalKeyPresses (keyDistribution : gmap string nat) : nat :=
  foldl Nat.add 0 (map_to_list keyDistribution).*2.

Definition smoothed (keyDistribution : gmap string nat) : gmap string number :=
  let total := totalKeyPresses keyDistribution in
  let vocabSize := size keyDistribution in
  (λ count : nat,
     num_div (num_add (of_nat count) alpha)
       (num_add (of_nat total) (num_mul alpha (of_nat vocabSize))))
    <$> keyDistribution.

(** [wordLengths.slice(trimCount, -trimCount || undefined)] after the
    in-place sort. *)
Definition trimmed_lengths (wordLengths : list number) : list number :=
  let sorted := Array_sort by_difference wordLengths in
  let trimCount := floor_frac (length sorted) 1 10 in
  slice sorted (Z.of_nat trimCount)
    (if decide (trimCount = 0) then None else Some (- Z.of_nat trimCount)%Z).

(** [d > 0 ? n / d : 0]. *)
Definition guarded_ratio (n d : nat) : number :=
  if decide (0 < d) then num_div (of_nat n) (of_nat d) else Num 0.

Definition calculateTypingPattern (events : list KeyEvent) : TypingPattern :=
  if decide (length events < 2) then default_pattern else
  let intervals := intervals_of events in
  let sortedIntervals := Array_sort by_difference intervals in
  let trimmedIntervals := trimmed sortedIntervals in
  let averageSpeed := array_mean trimmedIntervals in
  let mean := averageSpeed in
  let variance := variance_of intervals mean in
  let q1 := array_get sortedIntervals (floor_frac (length sortedIntervals) 1 4) in
  let q3 := array_get sortedIntervals (floor_frac (length sortedIntervals) 3 4) in
  let speedVariability := num_div (num_sub q3 q1) averageSpeed in
  let pauseThreshold := num_mul averageSpeed (Num 2) in
  let s := scan_events events in
  let wordLengths := final_wordLengths s in
  let normalizedBackspaceRate :=
    num_div (of_nat (backspaceCount s))
      (of_nat (totalChars s + backspaceCount s)) in
  {| averageSpeed := averageSpeed;
     keyPressDistribution := smoothed (keyDistribution s);
     modifierUsage := usage s;
     timingPatterns := intervals;
     specialKeyFrequency := ∅;
     backspaceFrequency := guarded_ratio (backspaceCount s) (totalChars s);
     averageWordLength :=
       if decide (0 < length wordLengths)
       then array_mean (trimmed_lengths wordLengths) else Num 0;
     rhythmConsistency := num_div (Math_sqrt variance) mean;
     modifierFrequency := guarded_ratio (modifierCount s) (length events);
     capitalFrequency := guarded_ratio (capitalCount s) (totalChars s);
     punctuationFrequency := guarded_ratio (punctuationCount s) (totalChars s);
     burstSpeed := min_burst intervals;
     pauseFrequency :=
       num_div
         (of_nat (length (List.filter (λ i, num_gt i pauseThreshold) intervals)))
         (of_nat (length intervals));
     speedVariability := speedVariability;
     keyPressForce := Num 0;
     errorRate :=
       num_mul normalizedBackspaceRate (num_add (Num 1) speedVariability) |}.

(** ** Similarity scoring: [comparePatterns] *)

(** Adaptive weights based on pattern stability. *)
Definition getWeight (metric1 metric2 baseWeight : number) : number :=
  let stability :=
    num_sub (Num 1)
      (num_div (Math_abs (num_sub metric1 metric2))
         (Math_max3 metric1 metric2 (Num 1))) in
  num_mul baseWeight
    (num_add (Num (1 / 2)) (num_mul (Num (1 / 2)) stability)).

(** [baseWeights]. *)
Definition base_speed : number := Num (3 / 10).
Definition base_keyDistribution : number := Num (1 / 4).
Definition base_rhythm : number := Num (1 / 5).
Definition base_timing : number := Num (3 / 20).
Definition base_style : number := Num (1 / 10).

(** [1 - Math.abs(a - b)]. *)
Definition closeness (a b : number) : number :=
  num_sub (Num 1) (Math_abs (num_sub a b)).

(** [Math.min(a, b) / Math.max(a, b)]. *)
Definition min_over_max (a b : number) : number :=
  num_div (Math_min a b) (Math_max a b).

(** [Object.keys(d).length]. *)
Definition vocabulary (d : gmap string number) : number := of_nat (size d).

Section scores.
Variables pattern1 pattern2 : TypingPattern.

Definition speedWeight : number :=
  getWeight (averageSpeed pattern1) (averageSpeed pattern2) base_speed.

Definition speedSimilarity : number :=
  Math_pow_half
    (min_over_max (averageSpeed pattern1) (averageSpeed pattern2)).

(** The body of [allKeys.forEach]; the accumulator is the pair
    [(keyDistSimilarity, keyDistTotalWeight)]. *)
Definition key_step (acc : number * number) (k : string) : number * number :=
  let freq1 := or_zero (keyPressDistribution pattern1 !! k) in
  let freq2 := or_zero (keyPressDistribution pattern2 !! k) in
  if num_gt freq1 (Num 0) || num_gt freq2 (Num 0) then
    let keyWeight := Math_max freq1 freq2 in
    let similarity :=
      num_sub (Num 1)
        (num_div (Math_abs (num_sub freq1 freq2))
           (Math_max3 freq1 freq2 (Num (1 / 100)))) in
    (num_add acc.1 (num_mul similarity keyWeight), num_add acc.2 keyWeight)
  else acc.

(** The keys of both distributions, each once ([new Set([...])]). *)
Definition allKeys : list string :=
  elements (dom (keyPressDistribution pattern1)
            ∪ dom (keyPressDistribution pattern2)).

Definition keyDistSimilarity : number :=
  let acc := foldl key_step (Num 0, Num 0) allKeys in
  if num_gt acc.2 (Num 0) then num_div acc.1 acc.2 else Num 0.

Definition keyDistWeight : number :=
  getWeight (vocabulary (keyPressDistribution pattern1))
    (vocabulary (keyPressDistribution pattern2)) base_keyDistribution.

Definition rhythmSimilarity : number :=
  Math_exp
    (num_neg
       (Math_abs
          (num_sub (rhythmConsistency pattern1)
             (rhythmConsistency pattern2)))).

Definition rhythmWeight : number :=
  getWeight (rhythmConsistency pattern1) (rhythmConsistency pattern2)
    base_rhythm.

Definition burstSpeedSimilarity : number :=
  min_over_max (burstSpeed pattern1) (burstSpeed pattern2).

Definition pauseSimilarity : number :=
  closeness (pauseFrequency pattern1) (pauseFrequency pattern2).

Definition timingSimilarity : number :=
  num_add (num_mul burstSpeedSimilarity (Num (6 / 10)))
    (num_mul pauseSimilarity (Num (4 / 10))).

Definition timingWeight : number :=
  getWeight (pauseFrequency pattern1) (pauseFrequency pattern2) base_timing.

Definition styleSimilarity : number :=
  num_add
    (num_add
       (num_mul
          (closeness (modifierFrequency pattern1)
             (modifierFrequency pattern2))
          (Num (4 / 10)))
       (num_mul
          (closeness (capitalFrequency pattern1) (capitalFrequency pattern2))
          (Num (3 / 10))))
    (num_mul
       (closeness (punctuationFrequency pattern1)
          (punctuationFrequency pattern2))
       (Num (3 / 10))).

Definition styleWeight : number :=
  getWeight
    (num_add (modifierFrequency pattern1) (capitalFrequency pattern1))
    (num_add (modifierFrequency pattern2) (capitalFrequency pattern2))
    base_style.

Definition finalTotalWeight : number :=
  num_add
    (num_add (num_add (num_add speedWeight keyDistWeight) rhythmWeight)
       timingWeight)
    styleWeight.

(** The weighted average, before the confidence adjustment. *)
Definition similarity : number :=
  num_div
    (num_add
       (num_add
          (num_add
             (num_add (num_mul speedSimilarity speedWeight)
                (num_mul keyDistSimilarity keyDistWeight))
             (num_mul rhythmSimilarity rhythmWeight))
          (num_mul timingSimilarity timingWeight))
       (num_mul styleSimilarity styleWeight))
    finalTotalWeight.

(** "Apply confidence adjustment based on sample quality". *)
Definition confidenceMultiplier : number :=
  Math_min (Num 1)
    (num_mul
       (num_mul
          (Math_sqrt
             (num_div (vocabulary (keyPressDistribution pattern1)) (Num 20)))
          (Math_sqrt
             (num_div (vocabulary (keyPressDistribution pattern2)) (Num 20))))
       (closeness (errorRate pattern1) (errorRate pattern2))).

Definition comparePatterns : number :=
  num_mul similarity confidenceMultiplier.
End scores.
(** ** The boundary layer

    The two callers of the core: the [/api/predict] route of the HTTP
    service and [predictUser] of the React application.  To speak about
    which core functions a handler invokes, the handlers run in a writer
    monad that logs every call of [calculateTypingPattern] and
    [comparePatterns]. *)

Inductive core_call : Type :=
  | Extract (events : list KeyEvent)
  | Compare (pattern1 pattern2 : TypingPattern).

Definition traced (A : Type) : Type := (A * list core_call)%type.

#[global] Instance traced_ret : MRet traced := λ A x, (x, []).
#[global] Instance traced_bind : MBind traced :=
  λ A B f m, let r := f m.1 in (r.1, m.2 ++ r.2).

Definition call_calculateTypingPattern (events : list KeyEvent)
    : traced TypingPattern :=
  (calculateTypingPattern events, [Extract events]).

Definition call_comparePatterns (pattern1 pattern2 : TypingPattern)
    : traced number :=
  (comparePatterns pattern1 pattern2, [Compare pattern1 pattern2]).

(** [l.forEach] with an accumulator threaded through the callback. *)
Fixpoint forEach {A S : Type} (body : S → A → traced S) (s : S) (l : list A)
    : traced S :=
  match l with
  | [] => mret s
  | x :: l' => s' ← body s x; forEach body s' l'
  end.

(** [a <= b] and [a >= b] of JavaScript. *)
Definition num_le (a b : number) : bool :=
  match a, b with
  | NaN, _ | _, NaN => false
  | Num x, Num y => bool_decide (x <= y)%R
  | NegInfinity, _ | _, Infinity => true
  | Infinity, _ | _, NegInfinity => false
  end.

Definition num_ge (a b : number) : bool := num_le b a.

(** *** server.ts *)

(** [req.body.events]: an array of events, or anything else. *)
Inductive request_events : Type :=
  | NotAnArray
  | EventArray (events : list KeyEvent).

Inductive response : Type :=
  | Status400 (error : string)
  | PatternJson (pattern : TypingPattern)
  | PredictJson (matched : option string) (confidence : number).

(** Both routes start with
    [if (!Array.isArray(events) || events.length < 75)]. *)
Definition api_analyze (body : request_events) : traced response :=
  match body with
  | NotAnArray => mret (Status400 "Invalid or insufficient typing data")
  | EventArray events =>
      if decide (length events < 75)
      then mret (Status400 "Invalid or insufficient typing data")
      else pattern ← call_calculateTypingPattern events;
           mret (PatternJson pattern)
  end.

(** The stored profiles are a [Map] from user id to pattern, visited in
    insertion order. *)
Definition api_predict (profiles : list (string * TypingPattern))
    (body : request_events) : traced response :=
  match body with
  | NotAnArray => mret (Status400 "Invalid or insufficient typing data")
  | EventArray events =>
      if decide (length events < 75)
      then mret (Status400 "Invalid or insufficient typing data")
      else
        currentPattern ← call_calculateTypingPattern events;
        bestMatch ←
          forEach
            (λ (bestMatch : string * number) (entry : string * TypingPattern),
               similarity ← call_comparePatterns currentPattern entry.2;
               mret (if num_gt similarity bestMatch.2
                     then (entry.1, similarity) else bestMatch))
            ("", Num 0) profiles;
        mret (PredictJson
                (if num_gt bestMatch.2 (Num (7 / 10))
                 then Some bestMatch.1 else None)
                bestMatch.2)
  end.

(** *** App.tsx *)

Definition MINIMUM_SAMPLE_SIZE : nat := 75.
Definition HIGH_CONFIDENCE_THRESHOLD : number := Num (85 / 100).
Definition POSSIBLE_MATCH_THRESHOLD : number := Num (75 / 100).
Definition NO_MATCH_THRESHOLD : number := Num (6 / 10).

Record ProfileStats : Type := {
  stats_averageSpeed : number;
  accuracy : number;
  totalSamples : number;
  lastUpdated : number;
  consistencyScore : number;
  successfulMatches : number;
  totalAttempts : number
}.

Record UserProfile : Type := {
  id : string;
  firstName : string;
  lastName : string;
  samples : list (list KeyEvent);
  pattern : TypingPattern;
  createdAt : number;
  is_admin : bool;
  stats : ProfileStats
}.

Record PredictionHistory : Type := {
  history_timestamp : number;
  predictedUser : string;
  confidence : number;
  correct : bool
}.

(** What [setPredictionResult] is given. *)
Inductive banner : Type :=
  | NeedMoreKeystrokes (minimum : nat)
  | MatchFound (user : string) (confidence : number)
  | PossibleMatch (user : string) (confidence : number)
  | NoMatchFound (confidence : number).

(** The component state that [predictUser] reads or writes. *)
Record AppState : Type := {
  keyEvents : list KeyEvent;
  startTime : option number;
  lastKeyTime : option number;
  lastKeystrokeTime : option number;
  typingSpeed : number;
  userProfiles : list UserProfile;
  predictionResult : option banner;
  predictionHistory : list PredictionHistory;
  isGenerating : bool
}.

(** The running mean [(old * n + sample) / (n + 1)]. *)
Definition running_mean (old n sample : number) : number :=
  num_div (num_add (num_mul old n) sample) (num_add n (Num 1)).

(** The callback of [prev.map] inside [setUserProfiles]. *)
Definition update_profile (now : number) (events : list KeyEvent)
    (currentPattern : TypingPattern) (best_id : string)
    (isHighConfidence : bool) (profile : UserProfile) : traced UserProfile :=
  if decide (id profile = best_id) then
    let stats := stats profile in
    let attempts := num_add (totalAttempts stats) (Num 1) in
    if isHighConfidence then
      updatedPattern ← call_calculateTypingPattern events;
      mret {|
        id := id profile;
        firstName := firstName profile;
        lastName := lastName profile;
        samples := slice (samples profile ++ [events]) (-5) None;
        pattern := updatedPattern;
        createdAt := createdAt profile;
        is_admin := is_admin profile;
        stats := {|
          stats_averageSpeed :=
            running_mean (stats_averageSpeed stats) (totalSamples stats)
              (averageSpeed currentPattern);
          accuracy :=
            running_mean (accuracy stats) (totalSamples stats)
              (num_sub (Num 1) (errorRate currentPattern));
          totalSamples := num_add (totalSamples stats) (Num 1);
          lastUpdated := now;
          consistencyScore :=
            running_mean (consistencyScore stats) (totalSamples stats)
              (num_sub (Num 1) (rhythmConsistency currentPattern));
          successfulMatches := num_add (successfulMatches stats) (Num 1);
          totalAttempts := attempts |} |}
    else
      mret {|
        id := id profile;
        firstName := firstName profile;
        lastName := lastName profile;
        samples := samples profile;
        pattern := pattern profile;
        createdAt := createdAt profile;
        is_admin := is_admin profile;
        stats := {|
          stats_averageSpeed := stats_averageSpeed stats;
          accuracy := accuracy stats;
          totalSamples := totalSamples stats;
          lastUpdated := lastUpdated stats;
          consistencyScore := consistencyScore stats;
          successfulMatches := successfulMatches stats;
          totalAttempts := attempts |} |}
  else mret profile.

(** [resetState], followed by the other setters of a finished run. *)
Definition finish (st : AppState) (profiles : list UserProfile)
    (result : option banner) (history : list PredictionHistory) : AppState := {|
  keyEvents := [];
  startTime := None;
  lastKeyTime := None;
  lastKeystrokeTime := None;
  typingSpeed := Num 0;
  userProfiles := profiles;
  predictionResult := result;
  predictionHistory := history;
  isGenerating := false
|}.

(** [predictUser]; [now] stands for the clock readings of the run. *)
Definition predictUser (now : number) (st : AppState) : traced AppState :=
  if decide (length (keyEvents st) < MINIMUM_SAMPLE_SIZE) then
    mret {|
      keyEvents := keyEvents st;
      startTime := startTime st;
      lastKeyTime := lastKeyTime st;
      lastKeystrokeTime := lastKeystrokeTime st;
      typingSpeed := typingSpeed st;
      userProfiles := userProfiles st;
      predictionResult := Some (NeedMoreKeystrokes MINIMUM_SAMPLE_SIZE);
      predictionHistory := predictionHistory st;
      isGenerating := isGenerating st |}
  else
    currentPattern ← call_calculateTypingPattern (keyEvents st);
    bestMatch ←
      forEach
        (λ (bestMatch : option (UserProfile * number)) (profile : UserProfile),
           similarity ← call_comparePatterns currentPattern (pattern profile);
           mret (match bestMatch with
                 | None => Some (profile, similarity)
                 | Some best =>
                     if num_gt similarity best.2
                     then Some (profile, similarity) else bestMatch
                 end))
        None (userProfiles st);
    match bestMatch with
    | Some (best, confidence) =>
        let result := firstName best +:+ " " +:+ lastName best in
        let isHighConfidence := num_ge confidence HIGH_CONFIDENCE_THRESHOLD in
        let isPossibleMatch :=
          num_ge confidence POSSIBLE_MATCH_THRESHOLD
          && num_lt confidence HIGH_CONFIDENCE_THRESHOLD in
        profiles ←
          mapM
            (update_profile now (keyEvents st) currentPattern (id best)
               isHighConfidence)
            (userProfiles st);
        mret
          (finish st profiles
             (Some (if isHighConfidence then MatchFound result confidence
                    else if isPossibleMatch then PossibleMatch result confidence
                    else NoMatchFound confidence))
             (predictionHistory st ++
                [{| history_timestamp := now;
                    predictedUser := result;
                    confidence := confidence;
                    correct := isHighConfidence |}]))
    | None =>
        mret (finish st (userProfiles st) (predictionResult st)
                (predictionHistory st))
    end.

(** ** Sample inputs *)

Definition no_modifiers : Modifiers :=
  {| ctrl := false; alt := false; shift := false; meta := false |}.

(** A plain key press, [t] milliseconds after the previous one. *)
Definition press (k : string) (t : R) : KeyEvent :=
  {| key := k; code := k; timestamp := Num 0; timeSinceLast := Num t;
     modifiers := no_modifiers |}.

(** A profile with one key, typed at a steady 100 ms. *)
Definition steady_pattern : TypingPattern := {|
  averageSpeed := Num 100;
  keyPressDistribution := {[ "a" := Num 1 ]};
  modifierUsage := ∅;
  timingPatterns := [];
  specialKeyFrequency := ∅;
  backspaceFrequency := Num 0;
  averageWordLength := Num 0;
  rhythmConsistency := Num 0;
  modifierFrequency := Num 0;
  capitalFrequency := Num 0;
  punctuationFrequency := Num 0;
  burstSpeed := Num 100;
  pauseFrequency := Num 0;
  speedVariability := Num 0;
  keyPressForce := Num 0;
  errorRate := Num 0
|}.

(** ** The core over a store of shared objects

    JavaScript arrays and objects are shared by reference, and
    [Array.prototype.sort], [push] and property assignment change them in
    place.  To speak about what the core may have changed when it returns,
    it is written a second time over an explicit store.  An object lives at
    a location; allocation appends a cell to the store, so a location is
    never reused.  The event array, every array and dictionary that the
    source binds to a name, and the profile itself are objects of the
    store.  The arrays that [slice], [filter] and [map] hand straight to
    [reduce] or [length] are used as values, and so are the events: the
    source never assigns to a property of an event. *)

Definition loc : Type := nat.

Inductive value : Type :=
  | VNum (x : number)
  | VRef (l : loc).

Inductive cell : Type :=
  | Events (events : list KeyEvent)
  | Numbers (l : list number)
  | Dict (d : gmap string number)
  | Counts (d : gmap string nat)
  | Keys (keys : list string)
  | Obj (fields : gmap string value).

Abbreviation store := (list cell).

(** Computations that read and write the store; [None] is a type error
    (a location that does not hold the kind of object the code expects). *)
Definition M (A : Type) : Type := store → option (A * store).

#[global] Instance M_ret : MRet M := λ A x h, Some (x, h).
#[global] Instance M_bind : MBind M :=
  λ A B f m h, match m h with Some (x, h') => f x h' | None => None end.

Definition alloc (c : cell) : M loc := λ h, Some (length h, h ++ [c]).

Definition load (l : loc) : M cell := λ h, c ← h !! l; Some (c, h).

Definition store_at (l : loc) (c : cell) : M unit :=
  λ h, if decide (l < length h) then Some ((), <[l := c]> h) else None.

Definition fail {A : Type} : M A := λ _, None.

Definition load_events (l : loc) : M (list KeyEvent) :=
  c ← load l; match c with Events events => mret events | _ => fail end.

Definition load_numbers (l : loc) : M (list number) :=
  c ← load l; match c with Numbers a => mret a | _ => fail end.

Definition load_dict (l : loc) : M (gmap string number) :=
  c ← load l; match c with Dict d => mret d | _ => fail end.

Definition load_counts (l : loc) : M (gmap string nat) :=
  c ← load l; match c with Counts d => mret d | _ => fail end.

Definition load_obj (l : loc) : M (gmap string value) :=
  c ← load l; match c with Obj o => mret o | _ => fail end.

(** [obj.f = v]. *)
Definition set_field (obj : loc) (f : string) (v : value) : M unit :=
  o ← load_obj obj; store_at obj (Obj (<[f := v]> o)).

(** [obj.f] where a number is expected. *)
Definition get_number (obj : loc) (f : string) : M number :=
  o ← load_obj obj;
  match o !! f with Some (VNum x) => mret x | _ => fail end.

(** [a.sort((a, b) => a - b)]: in place. *)
Definition sort_in_place (a : loc) : M unit :=
  l ← load_numbers a; store_at a (Numbers (Array_sort by_difference l)).

(** [a.push(x)]. *)
Definition push (a : loc) (x : number) : M unit :=
  l ← load_numbers a; store_at a (Numbers (l ++ [x])).

(** [d[k] = x] on a dictionary of numbers. *)
Definition dict_set (d : loc) (k : string) (x : number) : M unit :=
  m ← load_dict d; store_at d (Dict (<[k := x]> m)).

(** [d[k] = (d[k] || 0) + 1] on the dictionary of counts. *)
Definition count_up (d : loc) (k : string) : M unit :=
  m ← load_counts d; store_at d (Counts (<[k := default 0 (m !! k) + 1]> m)).

(** The local variables of the loop that are not objects. *)
Record locals : Type := {
  l_wordBuffer : string;
  l_modifierCount : nat;
  l_capitalCount : nat;
  l_punctuationCount : nat;
  l_backspaceCount : nat;
  l_totalChars : nat
}.

Definition locals_init : locals := {|
  l_wordBuffer := "";
  l_modifierCount := 0;
  l_capitalCount := 0;
  l_punctuationCount := 0;
  l_backspaceCount := 0;
  l_totalChars := 0
|}.

Section loop.
(** [pattern.modifierUsage], [wordLengths] and [keyDistribution]. *)
Variables modifierUsage_loc wordLengths_loc keyDistribution_loc : loc.

Definition modifier_block (event : KeyEvent) (v : locals) : M locals :=
  if some_modifier (modifiers event) then
    let timing := timeSinceLast event in
    (if num_gt timing (Num 0)
     then dict_set modifierUsage_loc (key event) timing else mret ());;
    mret {| l_wordBuffer := l_wordBuffer v;
            l_modifierCount := S (l_modifierCount v);
            l_capitalCount := l_capitalCount v;
            l_punctuationCount := l_punctuationCount v;
            l_backspaceCount := l_backspaceCount v;
            l_totalChars := l_totalChars v |}
  else mret v.

Definition char_block (event : KeyEvent) (v : locals) : M locals :=
  if decide (String.length (key event) = 1) then
    count_up keyDistribution_loc (key event);;
    let flush :=
      bool_decide (key event = " ") || bool_decide (key event = "Enter") in
    (if flush && bool_decide (0 < String.length (l_wordBuffer v))
     then push wordLengths_loc (of_nat (String.length (l_wordBuffer v)))
     else mret ());;
    mret {| l_wordBuffer :=
              if flush then
                (if decide (0 < String.length (l_wordBuffer v)) then ""
                 else l_wordBuffer v)
              else l_wordBuffer v +:+ key event;
            l_modifierCount := l_modifierCount v;
            l_capitalCount :=
              if matches_class is_capital (key event)
              then S (l_capitalCount v) else l_capitalCount v;
            l_punctuationCount :=
              if matches_class is_punctuation (key event)
              then S (l_punctuationCount v) else l_punctuationCount v;
            l_backspaceCount := l_backspaceCount v;
            l_totalChars := S (l_totalChars v) |}
  else mret v.

Definition backspace_block (event : KeyEvent) (v : locals) : M locals :=
  if decide (key event = "Backspace") then
    mret {| l_wordBuffer :=
              if decide (0 < String.length (l_wordBuffer v))
              then drop_last (l_wordBuffer v) else l_wordBuffer v;
            l_modifierCount := l_modifierCount v;
            l_capitalCount := l_capitalCount v;
            l_punctuationCount := l_punctuationCount v;
            l_backspaceCount := S (l_backspaceCount v);
            l_totalChars := l_totalChars v |}
  else mret v.

Definition loop_body (v : locals) (event : KeyEvent) : M locals :=
  v1 ← modifier_block event v;
  v2 ← char_block event v1;
  backspace_block event v2.

Fixpoint loop (v : locals) (events : list KeyEvent) : M locals :=
  match events with
  | [] => mret v
  | event :: events' => v' ← loop_body v event; loop v' events'
  end.
End loop.

(** The properties of the object literal that [pattern] starts as; the
    three dictionaries and the array are objects of their own. *)
Definition default_fields
    (keyPressDistribution_loc modifierUsage_loc timingPatterns_loc
     specialKeyFrequency_loc : loc) : gmap string value :=
  list_to_map
    [("averageSpeed", VNum (Num 0));
     ("keyPressDistribution", VRef keyPressDistribution_loc);
     ("modifierUsage", VRef modifierUsage_loc);
     ("timingPatterns", VRef timingPatterns_loc);
     ("specialKeyFrequency", VRef specialKeyFrequency_loc);
     ("backspaceFrequency", VNum (Num 0));
     ("averageWordLength", VNum (Num 0));
     ("rhythmConsistency", VNum (Num 0));
     ("modifierFrequency", VNum (Num 0));
     ("capitalFrequency", VNum (Num 0));
     ("punctuationFrequency", VNum (Num 0));
     ("burstSpeed", VNum (Num 0));
     ("pauseFrequency", VNum (Num 0));
     ("speedVariability", VNum (Num 0));
     ("keyPressForce", VNum (Num 0));
     ("errorRate", VNum (Num 0))].

(** [calculateTypingPattern(events)], with [events] and the result given
    by location. *)
Definition calculateTypingPattern_in_store (events_loc : loc) : M loc :=
  keyPressDistribution0 ← alloc (Dict ∅);
  modifierUsage_loc ← alloc (Dict ∅);
  timingPatterns0 ← alloc (Numbers []);
  specialKeyFrequency_loc ← alloc (Dict ∅);
  pattern ←
    alloc
      (Obj
         (default_fields keyPressDistribution0 modifierUsage_loc
            timingPatterns0 specialKeyFrequency_loc));
  events ← load_events events_loc;
  if decide (length events < 2) then mret pattern else
  intervals_loc ← alloc (Numbers (timeSinceLast <$> slice events 1 None));
  set_field pattern "timingPatterns" (VRef intervals_loc);;
  intervals ← load_numbers intervals_loc;
  sortedIntervals_loc ← alloc (Numbers intervals);
  sort_in_place sortedIntervals_loc;;
  sortedIntervals ← load_numbers sortedIntervals_loc;
  set_field pattern "averageSpeed"
    (VNum (array_mean (trimmed sortedIntervals)));;
  mean ← get_number pattern "averageSpeed";
  intervals ← load_numbers intervals_loc;
  set_field pattern "rhythmConsistency"
    (VNum (num_div (Math_sqrt (variance_of intervals mean)) mean));;
  sortedIntervals ← load_numbers sortedIntervals_loc;
  let q1 := array_get sortedIntervals (floor_frac (length sortedIntervals) 1 4) in
  let q3 := array_get sortedIntervals (floor_frac (length sortedIntervals) 3 4) in
  averageSpeed ← get_number pattern "averageSpeed";
  set_field pattern "speedVariability"
    (VNum (num_div (num_sub q3 q1) averageSpeed));;
  averageSpeed ← get_number pattern "averageSpeed";
  let pauseThreshold := num_mul averageSpeed (Num 2) in
  intervals ← load_numbers intervals_loc;
  set_field pattern "pauseFrequency"
    (VNum
       (num_div
          (of_nat (length (List.filter (λ i, num_gt i pauseThreshold) intervals)))
          (of_nat (length intervals))));;
  intervals ← load_numbers intervals_loc;
  set_field pattern "burstSpeed" (VNum (min_burst intervals));;
  wordLengths_loc ← alloc (Numbers []);
  keyDistribution_loc ← alloc (Counts ∅);
  events ← load_events events_loc;
  v ← loop modifierUsage_loc wordLengths_loc keyDistribution_loc
         locals_init events;
  (if decide (0 < String.length (l_wordBuffer v))
   then push wordLengths_loc (of_nat (String.length (l_wordBuffer v)))
   else mret ());;
  keyDistribution ← load_counts keyDistribution_loc;
  smoothed_loc ← alloc (Dict (smoothed keyDistribution));
  set_field pattern "keyPressDistribution" (VRef smoothed_loc);;
  speedVariability ← get_number pattern "speedVariability";
  set_field pattern "errorRate"
    (VNum
       (num_mul
          (num_div (of_nat (l_backspaceCount v))
             (of_nat (l_totalChars v + l_backspaceCount v)))
          (num_add (Num 1) speedVariability)));;
  wordLengths ← load_numbers wordLengths_loc;
  (if decide (0 < length wordLengths) then
     sort_in_place wordLengths_loc;;
     sorted ← load_numbers wordLengths_loc;
     let trimCount := floor_frac (length sorted) 1 10 in
     let trimmedLengths :=
       slice sorted (Z.of_nat trimCount)
         (if decide (trimCount = 0) then None
          else Some (- Z.of_nat trimCount)%Z) in
     set_field pattern "averageWordLength" (VNum (array_mean trimmedLengths))
   else mret ());;
  events ← load_events events_loc;
  set_field pattern "modifierFrequency"
    (VNum (guarded_ratio (l_modifierCount v) (length events)));;
  set_field pattern "capitalFrequency"
    (VNum (guarded_ratio (l_capitalCount v) (l_totalChars v)));;
  set_field pattern "punctuationFrequency"
    (VNum (guarded_ratio (l_punctuationCount v) (l_totalChars v)));;
  set_field pattern "backspaceFrequency"
    (VNum (guarded_ratio (l_backspaceCount v) (l_totalChars v)));;
  mret pattern.

(** Reading a profile object, with the objects it refers to, back into a
    [TypingPattern]. *)
Definition field_number (o : gmap string value) (f : string) : option number :=
  match o !! f with Some (VNum x) => Some x | _ => None end.

Definition field_dict (h : store) (o : gmap string value) (f : string)
    : option (gmap string number) :=
  match o !! f with
  | Some (VRef l) => match h !! l with Some (Dict d) => Some d | _ => None end
  | _ => None
  end.

Definition field_numbers (h : store) (o : gmap string value) (f : string)
    : option (list number) :=
  match o !! f with
  | Some (VRef l) => match h !! l with Some (Numbers a) => Some a | _ => None end
  | _ => None
  end.

Definition read_pattern (h : store) (l : loc) : option TypingPattern :=
  match h !! l with
  | Some (Obj o) =>
      averageSpeed ← field_number o "averageSpeed";
      keyPressDistribution ← field_dict h o "keyPressDistribution";
      modifierUsage ← field_dict h o "modifierUsage";
      timingPatterns ← field_numbers h o "timingPatterns";
      specialKeyFrequency ← field_dict h o "specialKeyFrequency";
      backspaceFrequency ← field_number o "backspaceFrequency";
      averageWordLength ← field_number o "averageWordLength";
      rhythmConsistency ← field_number o "rhythmConsistency";
      modifierFrequency ← field_number o "modifierFrequency";
      capitalFrequency ← field_number o "capitalFrequency";
      punctuationFrequency ← field_number o "punctuationFrequency";
      burstSpeed ← field_number o "burstSpeed";
      pauseFrequency ← field_number o "pauseFrequency";
      speedVariability ← field_number o "speedVariability";
      keyPressForce ← field_number o "keyPressForce";
      errorRate ← field_number o "errorRate";
      Some {| averageSpeed := averageSpeed;
              keyPressDistribution := keyPressDistribution;
              modifierUsage := modifierUsage;
              timingPatterns := timingPatterns;
              specialKeyFrequency := specialKeyFrequency;
              backspaceFrequency := backspaceFrequency;
              averageWordLength := averageWordLength;
              rhythmConsistency := rhythmConsistency;
              modifierFrequency := modifierFrequency;
              capitalFrequency := capitalFrequency;
              punctuationFrequency := punctuationFrequency;
              burstSpeed := burstSpeed;
              pauseFrequency := pauseFrequency;
              speedVariability := speedVariability;
              keyPressForce := keyPressForce;
              errorRate := errorRate |}
  | _ => None
  end.

(** [comparePatterns(pattern1, pattern2)] with both profiles given by
    location.  The function reads the two objects and their key
    distributions; the set of keys it builds is a new object, and nothing
    is assigned to. *)
Definition load_pattern (l : loc) : M TypingPattern :=
  λ h, p ← read_pattern h l; Some (p, h).

Definition comparePatterns_in_store (pattern1 pattern2 : loc) : M number :=
  p1 ← load_pattern pattern1;
  p2 ← load_pattern pattern2;
  allKeys_loc ← alloc (Keys (allKeys p1 p2));
  mret (comparePatterns p1 p2).


(** The non-object locals of the loop, as the pure loop state has them. *)
Definition locals_of (s : scan) : locals := {|
  l_wordBuffer := wordBuffer s;
  l_modifierCount := modifierCount s;
  l_capitalCount := capitalCount s;
  l_punctuationCount := punctuationCount s;
  l_backspaceCount := backspaceCount s;
  l_totalChars := totalChars s
|}.

(** The three objects of the loop, at the positions [mu], [wl] and [kd] of
    the cells [k], holding what the pure loop state [s] has. *)
Definition loop_cells (mu wl kd : nat) (s : scan) (k : store) : store :=
  <[mu := Dict (usage s)]>
    (<[wl := Numbers (wordLengths s)]>
       (<[kd := Counts (keyDistribution s)]> k)).

(** A store that holds an event array at location 0 and a default profile
    at location 5. *)
Definition sample_store : store :=
  [Events [press "a" 0; press "b" 100];
   Dict ∅; Dict ∅; Numbers []; Dict ∅; Obj (default_fields 1 2 3 4)].

(** ** Predicates used in the statements *)

(** A finite number between [lo] and [hi]; in particular not [NaN]. *)
Definition in_range (lo hi : R) (a : number) : Prop :=
  match a with
  | Num x => (lo <= x <= hi)%R
  | _ => False
  end.

Definition unit_interval (a : number) : Prop := in_range 0 1 a.

Definition finite (a : number) : Prop := ∃ x : R, a = Num x.

Definition positive (a : number) : Prop := ∃ x : R, a = Num x ∧ (0 < x)%R.

Definition nonneg (a : number) : Prop := ∃ x : R, a = Num x ∧ (0 <= x)%R.

(** What [comparePatterns] relies on in a profile: speeds that are finite
    and positive, a rhythm that is finite and not negative, ratios and key
    frequencies that are finite and in range, a finite error rate. *)
Record well_scaled (p : TypingPattern) : Prop := {
  ws_averageSpeed : positive (averageSpeed p);
  ws_burstSpeed : positive (burstSpeed p);
  ws_rhythmConsistency : nonneg (rhythmConsistency p);
  ws_pauseFrequency : unit_interval (pauseFrequency p);
  ws_modifierFrequency : unit_interval (modifierFrequency p);
  ws_capitalFrequency : unit_interval (capitalFrequency p);
  ws_punctuationFrequency : unit_interval (punctuationFrequency p);
  ws_errorRate : finite (errorRate p);
  ws_keyPressDistribution :
    map_Forall (λ _ v, nonneg v) (keyPressDistribution p)
}.

(** [|errorRate1 - errorRate2| <= 1]. *)
Definition error_rates_within_one (p1 p2 : TypingPattern) : Prop :=
  ∃ e1 e2 : R,
    errorRate p1 = Num e1 ∧ errorRate p2 = Num e2 ∧ (Rabs (e1 - e2) <= 1)%R.

(** The invariant of the loop over [allKeys]: the accumulator is a pair of
    finite numbers [0 <= keyDistSimilarity <= keyDistTotalWeight]. *)
Definition key_acc_ok (acc : number * number) : Prop :=
  ∃ s w : R, acc = (Num s, Num w) ∧ (0 <= s <= w)%R.

(** Every interval of the sequence is a finite, positive time. *)
Definition steadily_timed (events : list KeyEvent) : Prop :=
  Forall (λ event, positive (timeSinceLast event)) (drop 1 events).

(** [event.key.length === 1]. *)
Definition single_character (event : KeyEvent) : Prop :=
  String.length (key event) = 1.

(** How often the key [k] occurs in the sequence. *)
Definition presses (k : string) (events : list KeyEvent) : nat :=
  length (filter (λ event, key event = k) events).

(** [Object.values(d).reduce((a, b) => a + b, 0)]. *)
Definition values_sum (d : gmap string number) : number :=
  array_sum (map_to_list d).*2.

(** The Laplace estimate [(count + 0.1) / (total + 0.1 * vocabSize)]. *)
Definition laplace (count total vocabSize : nat) : R :=
  ((INR count + 1 / 10) / (INR total + 1 / 10 * INR vocabSize))%R.

#[global] Instance single_character_dec (event : KeyEvent)
    : Decision (single_character event).
Proof. unfold single_character. apply _. Defined.

(** The distinct single-character keys of the sequence. *)
Definition observed_keys (events : list KeyEvent) : gset string :=
  list_to_set (key <$> filter single_character events).

(** Typing [text] one character per event, [t] milliseconds apart; the
    first event of a session has no predecessor. *)
Definition keystrokes (text : string) (t : R) : list KeyEvent :=
  match String.list_ascii_of_string text with
  | [] => []
  | c :: cs =>
      press (String c EmptyString) 0
      :: ((λ c, press (String c EmptyString) t) <$> cs)
  end.

Definition fox_events : list KeyEvent :=
  keystrokes
    ("the quick brown fox the quick brown fox "
     +:+ "the quick brown fox the quick brown fox ") 100.

(** Ascending order on an array of numbers. *)
Definition ascending (l : list number) : Prop :=
  StronglySorted (λ a b, num_le a b = true) l.

(** ** Capturing key events

    The content script of the extension and [handleKeyDown] of the
    application turn DOM keyboard events into [KeyEvent]s.  The reading of
    the clock ([Date.now()]) is an argument. *)

Record KeyboardEvent : Type := {
  dom_key : string;
  dom_code : string;
  ctrlKey : bool;
  altKey : bool;
  shiftKey : bool;
  metaKey : bool
}.

(** Truthiness of a [number | null]: [null], [0] and [NaN] are falsy. *)
Definition truthy (v : option number) : bool :=
  match v with
  | Some (Num x) => negb (bool_decide (x = 0)%R)
  | Some NaN | None => false
  | Some _ => true
  end.

(** [lastKeyTime ? now - lastKeyTime : 0]. *)
Definition since (now : number) (lastKeyTime : option number) : number :=
  match lastKeyTime with
  | Some t => if truthy lastKeyTime then num_sub now t else Num 0
  | None => Num 0
  end.

(** The object literal [keyEvent] of both handlers. *)
Definition make_event (now : number) (lastKeyTime : option number)
    (e : KeyboardEvent) : KeyEvent :=
  {| key := dom_key e;
     code := dom_code e;
     timestamp := now;
     timeSinceLast := since now lastKeyTime;
     modifiers := {| ctrl := ctrlKey e; alt := altKey e;
                     shift := shiftKey e; meta := metaKey e |} |}.

(** *** content.ts: the module variables [keyEvents], [startTime] and
    [lastKeyTime] *)
Record capture : Type := {
  c_keyEvents : list KeyEvent;
  c_startTime : option number;
  c_lastKeyTime : option number
}.

Definition capture_init : capture :=
  {| c_keyEvents := []; c_startTime := None; c_lastKeyTime := None |}.

(** [handleKeyDown] of the content script; the second component is the
    [data] of the [TYPING_DATA] message, when one is sent. *)
Definition content_handleKeyDown (now : number) (e : KeyboardEvent)
    (st : capture) : capture * option (list KeyEvent) :=
  let startTime :=
    if truthy (c_startTime st) then c_startTime st else Some now in
  let keyEvents := c_keyEvents st ++ [make_event now (c_lastKeyTime st) e] in
  if decide (75 ≤ length keyEvents) then
    ({| c_keyEvents := []; c_startTime := startTime;
        c_lastKeyTime := Some now |}, Some keyEvents)
  else
    ({| c_keyEvents := keyEvents; c_startTime := startTime;
        c_lastKeyTime := Some now |}, None).

(** A sequence of key presses, each with the clock reading at which it
    arrives; the messages are collected in the order they are sent. *)
Definition content_step (acc : capture * list (list KeyEvent))
    (press : number * KeyboardEvent) : capture * list (list KeyEvent) :=
  let r := content_handleKeyDown press.1 press.2 acc.1 in
  (r.1, acc.2 ++ match r.2 with Some data => [data] | None => [] end).

Definition content_run (presses : list (number * KeyboardEvent))
    (st : capture) : capture * list (list KeyEvent) :=
  foldl content_step (st, []) presses.

(** The events that a sequence of presses creates, from the last key time
    [last] on. *)
Fixpoint created (last : option number)
    (presses : list (number * KeyboardEvent)) : list KeyEvent :=
  match presses with
  | [] => []
  | press :: presses' =>
      make_event press.1 last press.2 :: created (Some press.1) presses'
  end.

(** *** background.ts: the listener for [TYPING_DATA]

    The request goes to the [/api/predict] route; a notification is created
    when [result.match] is truthy, that is, a string that is not empty. *)
Definition background_notifies (result : response) : bool :=
  match result with
  | PredictJson (Some userId) _ => negb (bool_decide (userId = ""))
  | _ => false
  end.

Definition background_onMessage (profiles : list (string * TypingPattern))
    (data : list KeyEvent) : bool :=
  background_notifies (api_predict profiles (EventArray data)).1.

(** *** App.tsx: [handleKeyDown], [resetState], [createNewProfile],
    [deleteProfile] and the [analytics] memo *)

Definition app_handleKeyDown (now : number) (e : KeyboardEvent)
    (st : AppState) : AppState := {|
  keyEvents := keyEvents st ++ [make_event now (lastKeyTime st) e];
  startTime := if truthy (startTime st) then startTime st else Some now;
  lastKeyTime := Some now;
  lastKeystrokeTime := Some now;
  typingSpeed :=
    match lastKeystrokeTime st with
    | Some t =>
        if truthy (lastKeystrokeTime st) then
          let timeDiff := num_sub now t in
          let instantSpeed := num_div (Num 60000) timeDiff in
          num_add (num_mul (typingSpeed st) (Num (7 / 10)))
            (num_mul instantSpeed (Num (3 / 10)))
        else typingSpeed st
    | None => typingSpeed st
    end;
  userProfiles := userProfiles st;
  predictionResult := predictionResult st;
  predictionHistory := predictionHistory st;
  isGenerating := isGenerating st
|}.

Definition resetState (st : AppState) : AppState := {|
  keyEvents := [];
  startTime := None;
  lastKeyTime := None;
  lastKeystrokeTime := None;
  typingSpeed := Num 0;
  userProfiles := userProfiles st;
  predictionResult := predictionResult st;
  predictionHistory := predictionHistory st;
  isGenerating := isGenerating st
|}.

Inductive Mode : Type := CreateMode | PredictMode.

(** The state of the enrolment form, beside the [AppState]. *)
Record Form : Type := {
  form_firstName : string;
  form_lastName : string;
  form_mode : Mode
}.

Section enrolment.
(** [Number.prototype.toString], for the identifier of a new profile. *)
Variable toString : number → string.

Definition new_profile (now : number) (first last : string)
    (events : list KeyEvent) (p : TypingPattern) : UserProfile := {|
  id := toString now;
  firstName := first;
  lastName := last;
  samples := [events];
  pattern := p;
  createdAt := now;
  is_admin := false;
  stats := {|
    stats_averageSpeed := averageSpeed p;
    accuracy := num_sub (Num 1) (errorRate p);
    totalSamples := Num 1;
    lastUpdated := now;
    consistencyScore := num_sub (Num 1) (rhythmConsistency p);
    successfulMatches := Num 0;
    totalAttempts := Num 0 |}
|}.

(** [createNewProfile]; [!firstName] holds for the empty string. *)
Definition createNewProfile (now : number) (form : Form) (st : AppState)
    : traced (Form * AppState) :=
  if bool_decide (form_firstName form = "")
     || bool_decide (form_lastName form = "")
     || bool_decide (length (keyEvents st) < MINIMUM_SAMPLE_SIZE)
  then mret (form, st)
  else
    p ← call_calculateTypingPattern (keyEvents st);
    let newProfile :=
      new_profile now (form_firstName form) (form_lastName form)
        (keyEvents st) p in
    mret
      ({| form_firstName := ""; form_lastName := "";
          form_mode := PredictMode |},
       {| keyEvents := [];
          startTime := None;
          lastKeyTime := None;
          lastKeystrokeTime := None;
          typingSpeed := Num 0;
          userProfiles := userProfiles st ++ [newProfile];
          predictionResult := predictionResult st;
          predictionHistory := predictionHistory st;
          isGenerating := isGenerating st |}).
End enrolment.

(** [deleteProfile]: [prev.filter(p => p.id !== id)]. *)
Definition deleteProfile (profile_id : string) (st : AppState) : AppState := {|
  keyEvents := keyEvents st;
  startTime := startTime st;
  lastKeyTime := lastKeyTime st;
  lastKeystrokeTime := lastKeystrokeTime st;
  typingSpeed := typingSpeed st;
  userProfiles := filter (λ p, id p ≠ profile_id) (userProfiles st);
  predictionResult := predictionResult st;
  predictionHistory := predictionHistory st;
  isGenerating := isGenerating st
|}.

Record Analytics : Type := {
  an_totalAttempts : nat;
  an_matchRate : number;
  an_recentMatchRate : number;
  an_errorRate : number;
  an_averageConfidence : number
}.

(** [total ? (count / total) * 100 : 0]. *)
Definition percentage (count total : nat) : number :=
  if decide (total = 0) then Num 0
  else num_mul (num_div (of_nat count) (of_nat total)) (Num 100).

Definition is_match (p : PredictionHistory) : bool :=
  num_ge (confidence p) POSSIBLE_MATCH_THRESHOLD.

Definition is_error (p : PredictionHistory) : bool :=
  num_lt (confidence p) NO_MATCH_THRESHOLD.

Definition analytics (history : list PredictionHistory) : Analytics :=
  let totalPredictions := length history in
  let matchedPredictions := length (List.filter is_match history) in
  let recentPredictions := slice history (-10) None in
  let recentMatches := length (List.filter is_match recentPredictions) in
  let errorCount := length (List.filter is_error history) in
  {| an_totalAttempts := totalPredictions;
     an_matchRate := percentage matchedPredictions totalPredictions;
     an_recentMatchRate := percentage recentMatches (length recentPredictions);
     an_errorRate := percentage errorCount totalPredictions;
     an_averageConfidence :=
       if decide (totalPredictions = 0) then Num 0
       else
         num_mul
           (num_div
              (foldl (λ acc curr, num_add acc (confidence curr)) (Num 0) history)
              (of_nat totalPredictions))
           (Num 100) |}.

(** ** TypingPatternGraph.tsx: the moving average that is plotted *)

Definition movingAverage (intervals : list number) : list number :=
  imap
    (λ i _,
       let window :=
         slice intervals (Z.max 0 (Z.of_nat i - 5))
           (Some (Z.of_nat i + 1)%Z) in
       array_mean window)
    intervals.

(** [keyEvents.slice(1).map(event => event.timeSinceLast)] and its moving
    average. *)
Definition graph_data (keyEvents : list KeyEvent) : list number :=
  movingAverage (intervals_of keyEvents).

(** ** Predicates on events used in the further properties *)

(** A press with a modifier flag set. *)
Definition modified (event : KeyEvent) : Prop :=
  some_modifier (modifiers event) = true.

(** A press of the key [k] with a modifier flag set and a positive
    interval: the presses that [modifierUsage] records. *)
Definition recorded_for (k : string) (event : KeyEvent) : Prop :=
  key event = k ∧ modified event
  ∧ num_gt (timeSinceLast event) (Num 0) = true.

Definition capital_key (event : KeyEvent) : Prop :=
  single_character event ∧ matches_class is_capital (key event) = true.

Definition punctuation_key (event : KeyEvent) : Prop :=
  single_character event ∧ matches_class is_punctuation (key event) = true.

#[global] Instance modified_dec event : Decision (modified event).
Proof. unfold modified. apply _. Defined.

#[global] Instance recorded_for_dec k event : Decision (recorded_for k event).
Proof. unfold recorded_for. apply _. Defined.

#[global] Instance capital_key_dec event : Decision (capital_key event).
Proof. unfold capital_key. apply _. Defined.

#[global] Instance punctuation_key_dec event
    : Decision (punctuation_key event).
Proof. unfold punctuation_key. apply _. Defined.

(** A press that the word buffer reacts to: a single character or
    Backspace. *)
Definition typed (event : KeyEvent) : Prop :=
  single_character event ∨ key event = "Backspace".

#[global] Instance typed_dec event : Decision (typed event).
Proof. unfold typed. apply _. Defined.

(** Two events that differ at most in [code] and [timestamp]. *)
Definition same_press (e1 e2 : KeyEvent) : Prop :=
  key e1 = key e2 ∧ timeSinceLast e1 = timeSinceLast e2
  ∧ modifiers e1 = modifiers e2.

(** Several key presses in a row in the application. *)
Definition app_run (presses : list (number * KeyboardEvent)) (st : AppState)
    : AppState :=
  foldl (λ st press, app_handleKeyDown press.1 press.2 st) st presses.

(** Clock readings that are finite and strictly increasing, all after
    [last]. *)
Fixpoint ticking (last : R) (presses : list (number * KeyboardEvent)) : Prop :=
  match presses with
  | [] => True
  | press :: presses' =>
      ∃ t : R, press.1 = Num t ∧ (last < t)%R ∧ ticking t presses'
  end.

(** Sample presses: a plain key, and a key with Shift held. *)
Definition key_down (k : string) : KeyboardEvent :=
  {| dom_key := k; dom_code := k; ctrlKey := false; altKey := false;
     shiftKey := false; metaKey := false |}.

Definition shifted (k : string) (t : R) : KeyEvent :=
  {| key := k; code := k; timestamp := Num 0; timeSinceLast := Num t;
     modifiers := {| ctrl := false; alt := false; shift := true;
                     meta := false |} |}.

(** A state of the application with the given keystrokes typed and the
    given profiles enrolled, and nothing else. *)
Definition sample_state (events : list KeyEvent)
    (profiles : list UserProfile) : AppState :=
  {| keyEvents := events;
     startTime := None;
     lastKeyTime := None;
     lastKeystrokeTime := None;
     typingSpeed := Num 0;
     userProfiles := profiles;
     predictionResult := None;
     predictionHistory := [];
     isGenerating := false |}.

(** A profile as [createNewProfile] builds it at clock reading 1, with
    the identifier given directly. *)
Definition sample_profile (profile_id first last : string)
    (events : list KeyEvent) : UserProfile :=
  new_profile (λ _, profile_id) (Num 1) first last events
    (calculateTypingPattern events).
(** * Properties *)

(** ** Arithmetic on finite numbers *)

Section number_facts.
Local Open Scope R_scope.

Lemma num_sub_Num (x y : R) : num_sub (Num x) (Num y) = Num (x - y).
Proof. reflexivity. Qed.

Lemma num_div_Num (x y : R) : y ≠ 0 → num_div (Num x) (Num y) = Num (x / y).
Proof. intros Hy. unfold num_div. by destruct (decide (y = 0)). Qed.

Lemma num_div_0_0 : num_div (Num 0) (Num 0) = NaN.
Proof. unfold num_div. by rewrite !decide_True. Qed.

Lemma Math_sqrt_Num (x : R) : 0 <= x → Math_sqrt (Num x) = Num (sqrt x).
Proof. intros Hx. unfold Math_sqrt. rewrite decide_False; [done | lra]. Qed.

Lemma Math_pow_half_Num (x : R) :
  0 <= x → Math_pow_half (Num x) = Num (sqrt x).
Proof. intros Hx. unfold Math_pow_half. rewrite decide_False; [done | lra]. Qed.

Lemma Math_max_Num (x y : R) : Math_max (Num x) (Num y) = Num (Rmax x y).
Proof.
  unfold Math_max, num_lt, Rmax. case_bool_decide; destruct (Rle_dec x y);
    f_equal; lra.
Qed.

Lemma Math_min_Num (x y : R) : Math_min (Num x) (Num y) = Num (Rmin x y).
Proof.
  unfold Math_min, num_lt, Rmin. case_bool_decide; destruct (Rle_dec x y);
    f_equal; lra.
Qed.

Lemma Math_max3_Num (x y z : R) :
  Math_max3 (Num x) (Num y) (Num z) = Num (Rmax (Rmax x y) z).
Proof. unfold Math_max3. by rewrite !Math_max_Num. Qed.

Lemma num_gt_Num (x y : R) : num_gt (Num x) (Num y) = bool_decide (y < x).
Proof. reflexivity. Qed.

Lemma unit_interval_inv (a : number) :
  unit_interval a → ∃ x, a = Num x ∧ 0 <= x <= 1.
Proof. destruct a; try done. eauto. Qed.

Lemma unit_interval_nonneg (a : number) : unit_interval a → nonneg a.
Proof. intros (x & -> & Hx)%unit_interval_inv. exists x. split; [done|lra]. Qed.

Lemma positive_nonneg (a : number) : positive a → nonneg a.
Proof. intros (x & -> & Hx). exists x. split; [done|lra]. Qed.

(** [floor_frac n p q] is the floor of the real [n * (p / q)]. *)
Lemma floor_frac_is_floor (n p q : nat) :
  (0 < q)%nat →
  INR (floor_frac n p q) <= INR n * (INR p / INR q)
  < INR (floor_frac n p q) + 1.
Proof.
  intros Hq. unfold floor_frac.
  pose proof (Nat.div_mod (n * p) q ltac:(lia)) as Hdiv.
  pose proof (Nat.mod_upper_bound (n * p) q ltac:(lia)) as Hmod.
  set (k := ((n * p) `div` q)%nat) in *.
  set (r := ((n * p) `mod` q)%nat) in *.
  assert (0 < INR q) as Hq' by (apply lt_0_INR; lia).
  assert (INR n * INR p = INR q * INR k + INR r) as E
    by (rewrite <- !mult_INR, <- plus_INR; by f_equal).
  assert (0 <= INR r < INR q) as [Hr0 Hrq]
    by (split; [apply pos_INR|by apply lt_INR]).
  replace (INR n * (INR p / INR q)) with (INR k + INR r / INR q)
    by (field_simplify_eq; lra).
  assert (0 <= INR r / INR q < 1); [|lra]. split.
  - apply Rmult_le_pos; [done|]. left. by apply Rinv_0_lt_compat.
  - apply (Rmult_lt_reg_r (INR q)); [done|].
    unfold Rdiv. rewrite Rmult_assoc, Rinv_l by lra. lra.
Qed.
End number_facts.

(** ** Arrays: [slice] and [sort] *)

Section array_facts.
Context {A : Type}.
Implicit Types (l : list A) (cmp : A → A → number).

Lemma rel_index_nonneg (len n : nat) :
  rel_index len (Z.of_nat n) = n `min` len.
Proof. unfold rel_index. case_decide; lia. Qed.

Lemma rel_index_neg (len n : nat) :
  0 < n → rel_index len (- Z.of_nat n) = len - n.
Proof. intros Hn. unfold rel_index. case_decide; lia. Qed.

Lemma slice_from l (n : nat) : slice l (Z.of_nat n) None = drop n l.
Proof.
  unfold slice. rewrite rel_index_nonneg.
  destruct (decide (n ≤ length l)) as [Hle|Hgt].
  - rewrite Nat.min_l by done. apply take_ge. rewrite length_drop. lia.
  - rewrite Nat.min_r by lia. rewrite !drop_ge by lia. by rewrite take_nil.
Qed.

Lemma slice_window l (i j : nat) :
  i ≤ j → j ≤ length l →
  slice l (Z.of_nat i) (Some (Z.of_nat j)) = take (j - i) (drop i l).
Proof.
  intros Hij Hj. unfold slice. rewrite !rel_index_nonneg.
  by rewrite !Nat.min_l by lia.
Qed.

(** The slip behind the trimmed mean: [l.slice(0, -0)] is [l.slice(0, 0)]. *)
Lemma slice_zero_minus_zero l : slice l 0 (Some (- 0)%Z) = [].
Proof. unfold slice. by rewrite (rel_index_nonneg _ 0). Qed.

Lemma slice_both_ends l (n : nat) :
  0 < n →
  slice l (Z.of_nat n) (Some (- Z.of_nat n)%Z)
  = take (length l - n - n) (drop n l).
Proof.
  intros Hn. unfold slice. rewrite rel_index_nonneg, rel_index_neg by done.
  destruct (decide (n ≤ length l)).
  - by rewrite Nat.min_l by done.
  - rewrite Nat.min_r by lia.
    replace (length l - n - length l) with 0 by lia.
    by replace (length l - n - n) with 0 by lia.
Qed.

Lemma sort_insert_perm cmp x l : sort_insert cmp x l ≡ₚ x :: l.
Proof.
  induction l as [|y l IH]; cbn [sort_insert]; [reflexivity|].
  destruct (num_gt (cmp x y) (Num 0)); [|reflexivity].
  rewrite IH. apply Permutation_swap.
Qed.

Lemma Array_sort_perm cmp l : Array_sort cmp l ≡ₚ l.
Proof.
  induction l as [|x l IH]; simpl; [reflexivity|].
  rewrite sort_insert_perm. by constructor.
Qed.

Lemma Array_sort_length cmp l : length (Array_sort cmp l) = length l.
Proof. by rewrite Array_sort_perm. Qed.
End array_facts.

Lemma intervals_of_length (events : list KeyEvent) :
  length (intervals_of events) = length events - 1.
Proof.
  unfold intervals_of. rewrite length_fmap.
  change (slice events 1 None) with (slice events (Z.of_nat 1) None).
  by rewrite slice_from, length_drop.
Qed.

Lemma trimmed_short (l : list number) : length l < 10 → trimmed l = [].
Proof.
  intros Hl. unfold trimmed, floor_frac.
  rewrite Nat.mul_1_r, Nat.div_small by done. apply slice_zero_minus_zero.
Qed.

Lemma trimmed_long (l : list number) :
  10 ≤ length l →
  trimmed l
  = take (length l - length l `div` 10 - length l `div` 10)
      (drop (length l `div` 10) l).
Proof.
  intros Hl. unfold trimmed, floor_frac. rewrite Nat.mul_1_r.
  apply slice_both_ends.
  assert (1 ≤ length l `div` 10); [|lia].
  change 1 with (10 `div` 10). by apply Nat.Div0.div_le_mono.
Qed.

(** ** Real arithmetic *)

Section real_facts.
Local Open Scope R_scope.

Lemma Rabs_diff_le_max (x y : R) : 0 <= x → 0 <= y → Rabs (x - y) <= Rmax x y.
Proof.
  intros Hx Hy. unfold Rabs, Rmax.
  destruct (Rcase_abs (x - y)), (Rle_dec x y); lra.
Qed.

Lemma ratio_unit (a b : R) : 0 <= a <= b → 0 < b → 0 <= a / b <= 1.
Proof.
  intros [Ha Hab] Hb. split.
  - apply Rmult_le_pos; [done|]. left. by apply Rinv_0_lt_compat.
  - apply (Rmult_le_reg_r b); [done|].
    unfold Rdiv. rewrite Rmult_assoc, Rinv_l by lra. lra.
Qed.

(** [1 - |x - y| / max(x, y, c)] for [x, y >= 0] and [c > 0]. *)
Lemma stability_unit (x y c : R) :
  0 <= x → 0 <= y → 0 < c →
  0 <= 1 - Rabs (x - y) / Rmax (Rmax x y) c <= 1.
Proof.
  intros Hx Hy Hc.
  pose proof (Rabs_diff_le_max x y Hx Hy) as Habs.
  pose proof (Rmax_l (Rmax x y) c). pose proof (Rmax_r (Rmax x y) c).
  pose proof (Rabs_pos (x - y)).
  assert (0 <= Rabs (x - y) / Rmax (Rmax x y) c <= 1); [|lra].
  apply ratio_unit; lra.
Qed.

Lemma sqrt_unit (x : R) : 0 <= x <= 1 → 0 <= sqrt x <= 1.
Proof.
  intros [H0 H1]. split; [apply sqrt_pos|].
  rewrite <- sqrt_1. by apply sqrt_le_1_alt.
Qed.

Lemma exp_neg_abs_unit (x : R) : 0 <= exp (- Rabs x) <= 1.
Proof.
  split; [left; apply exp_pos|].
  pose proof (Rabs_pos x) as Habs. rewrite <- exp_0.
  destruct Habs as [Hlt| <-].
  - left. apply exp_increasing. lra.
  - rewrite Ropp_0. lra.
Qed.

Lemma min_over_max_unit (a b : R) :
  0 < a → 0 < b → 0 <= Rmin a b / Rmax a b <= 1.
Proof.
  intros Ha Hb. apply ratio_unit.
  - unfold Rmin, Rmax. destruct (Rle_dec a b); lra.
  - unfold Rmax. destruct (Rle_dec a b); lra.
Qed.

Lemma closeness_unit (x y : R) :
  0 <= x <= 1 → 0 <= y <= 1 → 0 <= 1 - Rabs (x - y) <= 1.
Proof.
  intros Hx Hy. pose proof (Rabs_pos (x - y)).
  assert (Rabs (x - y) <= 1); [|lra].
  unfold Rabs. destruct (Rcase_abs (x - y)); lra.
Qed.

(** A weighted average of five scores in [0,1] with positive weights. *)
Lemma weighted_average_unit (s1 s2 s3 s4 s5 w1 w2 w3 w4 w5 : R) :
  0 <= s1 <= 1 → 0 <= s2 <= 1 → 0 <= s3 <= 1 → 0 <= s4 <= 1 → 0 <= s5 <= 1 →
  0 < w1 → 0 < w2 → 0 < w3 → 0 < w4 → 0 < w5 →
  0 <= (s1 * w1 + s2 * w2 + s3 * w3 + s4 * w4 + s5 * w5)
       / (w1 + w2 + w3 + w4 + w5) <= 1.
Proof.
  intros. apply ratio_unit; [|lra]. split; nra.
Qed.
End real_facts.

(** ** The feature extractor *)

Lemma calculateTypingPattern_short (events : list KeyEvent) :
  length events < 2 → calculateTypingPattern events = default_pattern.
Proof.
  intros Hlen. unfold calculateTypingPattern. by rewrite decide_True by done.
Qed.

(** C2.  On fewer than two events [calculateTypingPattern] returns the
    default profile: every numeric field is zero, every dictionary and the
    list of intervals is empty.  The function is total, so this is also
    all that can happen on such input. *)
Theorem short_input_gives_default (events : list KeyEvent) :
  length events < 2 →
  calculateTypingPattern events =
    {| averageSpeed := Num 0;
       keyPressDistribution := ∅;
       modifierUsage := ∅;
       timingPatterns := [];
       specialKeyFrequency := ∅;
       backspaceFrequency := Num 0;
       averageWordLength := Num 0;
       rhythmConsistency := Num 0;
       modifierFrequency := Num 0;
       capitalFrequency := Num 0;
       punctuationFrequency := Num 0;
       burstSpeed := Num 0;
       pauseFrequency := Num 0;
       speedVariability := Num 0;
       keyPressForce := Num 0;
       errorRate := Num 0 |}.
Proof.
  intros Hlen. by rewrite calculateTypingPattern_short.
Qed.

Lemma short_input_gives_default_witness :
  calculateTypingPattern [press "a" 0] = default_pattern.
Proof. apply (short_input_gives_default [press "a" 0]). simpl. lia. Defined.

Lemma calculateTypingPattern_unfold (events : list KeyEvent) :
  2 ≤ length events →
  calculateTypingPattern events =
  let intervals := intervals_of events in
  let sortedIntervals := Array_sort by_difference intervals in
  let averageSpeed := array_mean (trimmed sortedIntervals) in
  let speedVariability :=
    num_div
      (num_sub
         (array_get sortedIntervals (floor_frac (length sortedIntervals) 3 4))
         (array_get sortedIntervals (floor_frac (length sortedIntervals) 1 4)))
      averageSpeed in
  let s := scan_events events in
  {| averageSpeed := averageSpeed;
     keyPressDistribution := smoothed (keyDistribution s);
     modifierUsage := usage s;
     timingPatterns := intervals;
     specialKeyFrequency := ∅;
     backspaceFrequency := guarded_ratio (backspaceCount s) (totalChars s);
     averageWordLength :=
       if decide (0 < length (final_wordLengths s))
       then array_mean (trimmed_lengths (final_wordLengths s)) else Num 0;
     rhythmConsistency :=
       num_div (Math_sqrt (variance_of intervals averageSpeed)) averageSpeed;
     modifierFrequency := guarded_ratio (modifierCount s) (length events);
     capitalFrequency := guarded_ratio (capitalCount s) (totalChars s);
     punctuationFrequency := guarded_ratio (punctuationCount s) (totalChars s);
     burstSpeed := min_burst intervals;
     pauseFrequency :=
       num_div
         (of_nat
            (length
               (List.filter (λ i, num_gt i (num_mul averageSpeed (Num 2)))
                  intervals)))
         (of_nat (length intervals));
     speedVariability := speedVariability;
     keyPressForce := Num 0;
     errorRate :=
       num_mul
         (num_div (of_nat (backspaceCount s))
            (of_nat (totalChars s + backspaceCount s)))
         (num_add (Num 1) speedVariability) |}.
Proof.
  intros Hlen. unfold calculateTypingPattern.
  by rewrite decide_False by lia.
Qed.

(** C4.  With two to ten events there are fewer than ten intervals, the
    trim amount is zero and [slice(0, -0)] keeps nothing: the trimmed set
    is empty and [averageSpeed] is [0 / 0]. *)
Theorem averageSpeed_NaN_below_eleven_events (events : list KeyEvent) :
  2 ≤ length events ≤ 10 →
  trimmed (Array_sort by_difference (intervals_of events)) = []
  ∧ averageSpeed (calculateTypingPattern events) = NaN.
Proof.
  intros [Hlo Hhi].
  assert (trimmed (Array_sort by_difference (intervals_of events)) = [])
    as Hnil.
  { apply trimmed_short. rewrite Array_sort_length, intervals_of_length. lia. }
  split; [done|].
  rewrite calculateTypingPattern_unfold by done. simpl.
  rewrite Hnil. apply num_div_0_0.
Qed.

Lemma averageSpeed_NaN_below_eleven_events_witness :
  trimmed (Array_sort by_difference
             (intervals_of [press "a" 0; press "b" 100])) = []
  ∧ averageSpeed (calculateTypingPattern [press "a" 0; press "b" 100]) = NaN.
Proof.
  apply (averageSpeed_NaN_below_eleven_events [press "a" 0; press "b" 100]).
  simpl. lia.
Defined.

(** C7.  With two to five events there are fewer intervals than the
    smallest window (five), the loop over the window positions does not
    run and [burstSpeed] is the initial [Infinity] of the accumulator. *)
Theorem burstSpeed_Infinity_below_six_events (events : list KeyEvent) :
  2 ≤ length events ≤ 5 →
  burstSpeed (calculateTypingPattern events) = Infinity.
Proof.
  intros [Hlo Hhi]. rewrite calculateTypingPattern_unfold by done. simpl.
  unfold min_burst. rewrite intervals_of_length.
  replace (length events - 1 + 1 - _) with 0; [done|].
  unfold floor_frac. lia.
Qed.

Lemma burstSpeed_Infinity_below_six_events_witness :
  burstSpeed (calculateTypingPattern [press "a" 0; press "b" 100]) = Infinity.
Proof.
  apply (burstSpeed_Infinity_below_six_events [press "a" 0; press "b" 100]).
  simpl. lia.
Defined.

(** ** Counters of the event loop *)

Lemma scan_events_app (events : list KeyEvent) (event : KeyEvent) :
  scan_events (events ++ [event]) = scan_event (scan_events events) event.
Proof. unfold scan_events. by rewrite foldl_app. Qed.

(** Induction over the loop: a property of the initial state that every
    iteration preserves holds at the end. *)
Lemma scan_events_ind (P : list KeyEvent → scan → Prop) :
  P [] scan_init →
  (∀ events event s, P events s → P (events ++ [event]) (scan_event s event)) →
  ∀ events, P events (scan_events events).
Proof.
  intros Hinit Hstep events.
  induction events as [|event events IH] using rev_ind; [done|].
  rewrite scan_events_app. by apply Hstep.
Qed.

Lemma scan_counters (events : list KeyEvent) :
  let s := scan_events events in
  modifierCount s ≤ length events
  ∧ capitalCount s ≤ totalChars s
  ∧ punctuationCount s ≤ totalChars s.
Proof.
  apply (scan_events_ind (λ events s,
    modifierCount s ≤ length events
    ∧ capitalCount s ≤ totalChars s
    ∧ punctuationCount s ≤ totalChars s)); [simpl; lia|].
  clear events. intros events event s (Hm & Hc & Hp).
  rewrite length_app. unfold scan_event, scan_backspace, scan_char, scan_modifier.
  repeat case_decide; destruct (some_modifier _); simpl;
    repeat (match goal with |- context [if ?b then _ else _] => destruct b end);
    simpl; lia.
Qed.

Lemma guarded_ratio_unit (n d : nat) : n ≤ d → unit_interval (guarded_ratio n d).
Proof.
  intros Hnd. unfold guarded_ratio. case_decide as Hd; [|simpl; lra].
  unfold of_nat. rewrite num_div_Num.
  - simpl. apply le_INR in Hnd. pose proof (pos_INR n).
    assert (0 < INR d)%R by (apply lt_0_INR; lia).
    split.
    + apply Rmult_le_pos; [done|]. left. by apply Rinv_0_lt_compat.
    + apply (Rmult_le_reg_r (INR d)); [done|].
      unfold Rdiv. rewrite Rmult_assoc, Rinv_l by lra. lra.
  - apply not_0_INR. lia.
Qed.

(** C10.  The three style ratios always lie in [0,1]: whatever they count
    is also counted in their denominator.  [backspaceFrequency] divides the
    number of Backspace presses by the number of single-character presses,
    which does not count them, and exceeds 1 when there are more of the
    former: one letter followed by two Backspaces gives 2. *)
Theorem style_ratios_bounded_backspace_not :
  (∀ events : list KeyEvent,
     unit_interval (modifierFrequency (calculateTypingPattern events))
     ∧ unit_interval (capitalFrequency (calculateTypingPattern events))
     ∧ unit_interval (punctuationFrequency (calculateTypingPattern events)))
  ∧ (∃ events : list KeyEvent,
       backspaceFrequency (calculateTypingPattern events) = Num 2
       ∧ num_gt (backspaceFrequency (calculateTypingPattern events)) (Num 1)
         = true).
Proof.
  split.
  - intros events. destruct (decide (length events < 2)) as [Hlt|Hge].
    + rewrite calculateTypingPattern_short by done. simpl. repeat split; lra.
    + rewrite calculateTypingPattern_unfold by lia. simpl.
      destruct (scan_counters events) as (Hm & Hc & Hp).
      repeat split; by apply guarded_ratio_unit.
  - exists [press "a" 0; press "Backspace" 100; press "Backspace" 100].
    assert (backspaceFrequency
              (calculateTypingPattern
                 [press "a" 0; press "Backspace" 100; press "Backspace" 100])
            = Num 2) as ->.
    { rewrite calculateTypingPattern_unfold by (simpl; lia).
      cbn [backspaceFrequency].
      change (guarded_ratio 2 1 = Num 2).
      unfold guarded_ratio, of_nat. rewrite decide_True by lia.
      rewrite num_div_Num by (simpl; lra). f_equal. simpl. lra. }
    split; [done|]. rewrite num_gt_Num. apply bool_decide_eq_true. lra.
Qed.

(** ** Extraction from finite, positive intervals *)

Section interval_facts.
Local Open Scope R_scope.

Lemma intervals_of_eq (events : list KeyEvent) :
  intervals_of events = timeSinceLast <$> drop 1 events.
Proof.
  unfold intervals_of.
  change (slice events 1 None) with (slice events (Z.of_nat 1) None).
  by rewrite slice_from.
Qed.

Lemma intervals_positive (events : list KeyEvent) :
  steadily_timed events → Forall positive (intervals_of events).
Proof. intros H. rewrite intervals_of_eq. by apply Forall_fmap. Qed.

Lemma sum_from (l : list number) (a : R) :
  Forall positive l →
  ∃ s, foldl num_add (Num a) l = Num s ∧ a <= s ∧ (l ≠ [] → a < s).
Proof.
  intros Hl. revert a.
  induction Hl as [|x l (r & -> & Hr) _ IH]; intros a.
  - exists a. repeat split; [lra|done].
  - destruct (IH (a + r)) as (s & Hs & Hle & _).
    exists s. repeat split; [done|lra|]. intros _. lra.
Qed.

Lemma array_sum_positive (l : list number) :
  Forall positive l → l ≠ [] → positive (array_sum l).
Proof.
  intros Hl Hne. destruct (sum_from l 0 Hl) as (s & Hs & _ & Hlt).
  exists s. split; [done|]. by apply Hlt.
Qed.

Lemma array_mean_positive (l : list number) :
  Forall positive l → l ≠ [] → positive (array_mean l).
Proof.
  intros Hl Hne. destruct (array_sum_positive l Hl Hne) as (s & Hs & Hpos).
  assert (0 < INR (length l)).
  { apply lt_0_INR. destruct l; [done|simpl; lia]. }
  unfold array_mean, of_nat. rewrite Hs, num_div_Num by lra.
  eexists. split; [done|]. by apply Rdiv_lt_0_compat.
Qed.

Lemma squares_from (l : list number) (m a : R) :
  Forall positive l → 0 <= a →
  ∃ v, foldl (λ acc val, num_add acc (Math_pow_2 (num_sub val (Num m))))
         (Num a) l = Num v ∧ 0 <= v.
Proof.
  intros Hl. revert a.
  induction Hl as [|x l (r & -> & Hr) _ IH]; intros a Ha.
  - by exists a.
  - cbn [foldl num_sub num_neg num_add Math_pow_2]. apply IH.
    pose proof (Rle_0_sqr (r + - m)) as Hsq. unfold Rsqr in Hsq. lra.
Qed.

Lemma variance_nonneg (l : list number) (m : R) :
  Forall positive l → l ≠ [] → nonneg (variance_of l (Num m)).
Proof.
  intros Hl Hne. unfold variance_of, of_nat.
  destruct (squares_from l m 0 Hl) as (v & -> & Hv); [lra|].
  assert (0 < INR (length l)).
  { apply lt_0_INR. destruct l; [done|simpl; lia]. }
  rewrite num_div_Num by lra. eexists. split; [done|].
  apply Rmult_le_pos; [done|]. left. by apply Rinv_0_lt_compat.
Qed.

Lemma array_get_positive (l : list number) (i : nat) :
  Forall positive l → (i < length l)%nat → positive (array_get l i).
Proof.
  intros Hl Hi. unfold array_get.
  destruct (lookup_lt_is_Some_2 l i Hi) as [x Hx]. rewrite Hx. simpl.
  by apply (Forall_lookup_1 _ _ _ _ Hl Hx).
Qed.

Lemma ratio_of_nat_unit (n d : nat) :
  (n ≤ d)%nat → (0 < d)%nat → unit_interval (num_div (of_nat n) (of_nat d)).
Proof.
  intros Hnd Hd. unfold of_nat.
  assert (0 < INR d) by (apply lt_0_INR; lia).
  rewrite num_div_Num by lra. simpl. apply ratio_unit; [|done].
  split; [apply pos_INR|by apply le_INR].
Qed.

Lemma filter_length_le {A} (f : A → bool) (l : list A) :
  (length (List.filter f l) ≤ length l)%nat.
Proof. induction l as [|x l IH]; simpl; [lia|]. destruct (f x); simpl; lia. Qed.
End interval_facts.

Section burst_facts.
Local Open Scope R_scope.

Lemma window_avg_positive (l : list number) (w i : nat) :
  Forall positive l → (0 < w)%nat → (i + w ≤ length l)%nat →
  positive (window_avg l w i).
Proof.
  intros Hl Hw Hi. unfold window_avg.
  rewrite slice_window by lia. replace (i + w - i)%nat with w by lia.
  assert (Forall positive (take w (drop i l))) as Hwin
    by by apply Forall_take, Forall_drop.
  assert (take w (drop i l) ≠ []) as Hne.
  { intros E. apply (f_equal length) in E.
    rewrite length_take, length_drop in E. simpl in E. lia. }
  destruct (array_sum_positive _ Hwin Hne) as (s & -> & Hs).
  assert (0 < INR w) by (apply lt_0_INR; lia).
  unfold of_nat. rewrite num_div_Num by lra.
  eexists. split; [done|]. by apply Rdiv_lt_0_compat.
Qed.

Lemma Math_min_positive (a b : number) :
  a = Infinity ∨ positive a → positive b → positive (Math_min a b).
Proof.
  intros [->|(x & -> & Hx)] (y & -> & Hy).
  - by exists y.
  - rewrite Math_min_Num. exists (Rmin x y). split; [done|].
    unfold Rmin. destruct (Rle_dec x y); lra.
Qed.

Lemma min_fold_positive (f : nat → number) (positions : list nat)
    (acc : number) :
  (∀ i, i ∈ positions → positive (f i)) → positive acc →
  positive (foldl (λ minBurst i, Math_min minBurst (f i)) acc positions).
Proof.
  revert acc. induction positions as [|i positions IH]; intros acc Hf Hacc;
    [done|].
  simpl. apply IH.
  - intros j Hj. apply Hf. by right.
  - apply Math_min_positive; [by right|]. apply Hf. by left.
Qed.

Lemma window_size_fits (n : nat) :
  (5 ≤ n)%nat → (Nat.max 5 (floor_frac n 1 5) ≤ n)%nat.
Proof.
  intros Hn. unfold floor_frac. rewrite Nat.mul_1_r.
  pose proof (Nat.Div0.div_le_upper_bound n 5 n). lia.
Qed.

Lemma min_burst_positive (l : list number) :
  Forall positive l → (5 ≤ length l)%nat → positive (min_burst l).
Proof.
  intros Hl Hn. unfold min_burst.
  pose proof (window_size_fits _ Hn) as Hw.
  set (w := Nat.max 5 (floor_frac (length l) 1 5)) in *.
  assert (0 < w)%nat by lia.
  destruct (length l + 1 - w)%nat as [|k] eqn:Hk; [lia|].
  cbn [seq foldl]. apply min_fold_positive.
  - intros i Hi%elem_of_seq. apply window_avg_positive; [done..|lia].
  - apply Math_min_positive; [by left|].
    apply window_avg_positive; [done..|lia].
Qed.
End burst_facts.

(** ** The key distribution *)

Lemma keyDistribution_step (s : scan) (event : KeyEvent) :
  keyDistribution (scan_event s event)
  = if decide (String.length (key event) = 1)
    then <[key event := default 0 (keyDistribution s !! key event) + 1]>
           (keyDistribution s)
    else keyDistribution s.
Proof.
  unfold scan_event, scan_backspace, scan_char, scan_modifier.
  repeat case_decide; destruct (some_modifier (modifiers event)); done.
Qed.

Lemma presses_snoc (k : string) (events : list KeyEvent) (event : KeyEvent) :
  presses k (events ++ [event])
  = presses k events + (if decide (key event = k) then 1 else 0).
Proof.
  unfold presses. rewrite filter_app, length_app. f_equal.
  rewrite filter_cons, filter_nil. by case_decide.
Qed.

(** The loop counts, per single-character key, how often it was pressed. *)
Lemma keyDistribution_lookup (events : list KeyEvent) (k : string) :
  keyDistribution (scan_events events) !! k
  = if decide (String.length k = 1 ∧ 0 < presses k events)
    then Some (presses k events) else None.
Proof.
  revert k. induction events as [|event events IH] using rev_ind; intros k.
  - rewrite decide_False; [done|]. unfold presses. simpl. lia.
  - rewrite scan_events_app, keyDistribution_step, presses_snoc.
    destruct (decide (String.length (key event) = 1)) as [Hlen|Hlen].
    + destruct (decide (key event = k)) as [<-|Hne].
      * rewrite lookup_insert_eq, IH.
        repeat case_decide; simpl; try f_equal; lia.
      * rewrite lookup_insert_ne, IH, Nat.add_0_r by done. done.
    + rewrite IH. destruct (decide (key event = k)) as [<-|Hne].
      * repeat case_decide; try done; lia.
      * by rewrite Nat.add_0_r.
Qed.

Lemma keyDistribution_nonempty (events : list KeyEvent) :
  Exists single_character events →
  ∃ k c, keyDistribution (scan_events events) !! k = Some c.
Proof.
  intros (event & Hin & Hlen)%Exists_exists.
  exists (key event), (presses (key event) events).
  rewrite keyDistribution_lookup, decide_True; [done|].
  split; [done|]. unfold presses.
  assert (event ∈ filter (λ e, key e = key event) events) as Hmem
    by by apply list_elem_of_filter.
  destruct (filter _ events); [by apply elem_of_nil in Hmem|simpl; lia].
Qed.

Section smoothing.
Local Open Scope R_scope.
Variable counts : gmap string nat.

Lemma smoothing_denominator_pos :
  counts ≠ ∅ →
  0 < INR (totalKeyPresses counts) + 1 / 10 * INR (size counts).
Proof.
  intros Hne%map_size_non_empty_iff.
  pose proof (pos_INR (totalKeyPresses counts)).
  assert (0 < INR (size counts)) by (apply lt_0_INR; lia). lra.
Qed.

Lemma smoothed_value (count : nat) :
  counts ≠ ∅ →
  num_div (num_add (of_nat count) alpha)
    (num_add (of_nat (totalKeyPresses counts))
       (num_mul alpha (of_nat (size counts))))
  = Num (laplace count (totalKeyPresses counts) (size counts)).
Proof.
  intros Hne. pose proof (smoothing_denominator_pos Hne).
  unfold of_nat, alpha. cbn [num_add num_mul].
  by rewrite num_div_Num by lra.
Qed.

Lemma smoothed_lookup (k : string) (count : nat) :
  counts !! k = Some count →
  smoothed counts !! k
  = Some (Num (laplace count (totalKeyPresses counts) (size counts))).
Proof.
  intros Hk. unfold smoothed. rewrite lookup_fmap, Hk.
  cbn [fmap option_fmap option_map]. f_equal. apply smoothed_value.
  intros ->. by rewrite lookup_empty in Hk.
Qed.

Lemma smoothed_lookup_None (k : string) :
  counts !! k = None → smoothed counts !! k = None.
Proof. intros Hk. unfold smoothed. by rewrite lookup_fmap, Hk. Qed.

Lemma smoothed_positive : map_Forall (λ _ v, positive v) (smoothed counts).
Proof.
  intros k v Hv. destruct (counts !! k) as [count|] eqn:Hk.
  - rewrite (smoothed_lookup _ _ Hk) in Hv. injection Hv as <-.
    eexists. split; [done|]. unfold laplace.
    apply Rdiv_lt_0_compat.
    + pose proof (pos_INR count). lra.
    + apply smoothing_denominator_pos. intros ->.
      by rewrite lookup_empty in Hk.
  - by rewrite smoothed_lookup_None in Hv.
Qed.

Lemma laplace_sum_from (d : R) (cs : list nat) (a : R) (n : nat) :
  d ≠ 0 →
  foldl num_add (Num a) ((λ c : nat, Num ((INR c + 1 / 10) / d)) <$> cs)
  = Num (a + (INR (foldl Nat.add n cs) - INR n
              + 1 / 10 * INR (length cs)) / d).
Proof.
  intros Hd. revert a n. induction cs as [|c cs IH]; intros a n.
  - simpl. f_equal. field. done.
  - cbn [fmap list_fmap foldl num_add]. rewrite (IH _ (n + c)%nat).
    f_equal. cbn [length]. rewrite plus_INR, S_INR. field. done.
Qed.

(** The smoothed frequencies add up to one. *)
Lemma smoothed_sum : counts ≠ ∅ → values_sum (smoothed counts) = Num 1.
Proof.
  intros Hne. pose proof (smoothing_denominator_pos Hne) as Hd.
  unfold values_sum, smoothed, array_sum.
  rewrite map_to_list_fmap, <- list_fmap_compose.
  transitivity
    (foldl num_add (Num 0)
       ((λ c : nat, Num ((INR c + 1 / 10)
                         / (INR (totalKeyPresses counts)
                            + 1 / 10 * INR (size counts))))
          <$> (map_to_list counts).*2)).
  { f_equal. rewrite <- list_fmap_compose. apply list_fmap_ext.
    intros i [k c] _. cbn [compose prod_map fst snd id].
    by apply smoothed_value. }
  rewrite (laplace_sum_from _ _ 0 0%nat) by lra.
  fold (totalKeyPresses counts).
  rewrite length_fmap, length_map_to_list. f_equal. simpl. field. lra.
Qed.
End smoothing.

(** ** Profiles extracted from well-timed input are well scaled *)

Lemma totalChars_step (s : scan) (event : KeyEvent) :
  totalChars (scan_event s event)
  = totalChars s + (if decide (single_character event) then 1 else 0).
Proof.
  unfold scan_event, scan_backspace, scan_char, scan_modifier, single_character.
  repeat case_decide; destruct (some_modifier (modifiers event)); simpl; lia.
Qed.

Lemma totalChars_count (events : list KeyEvent) :
  totalChars (scan_events events) = length (filter single_character events).
Proof.
  induction events as [|event events IH] using rev_ind; [done|].
  rewrite scan_events_app, totalChars_step, IH, filter_app, length_app.
  f_equal. rewrite filter_cons, filter_nil. by case_decide.
Qed.

Lemma totalChars_pos (events : list KeyEvent) :
  Exists single_character events → 0 < totalChars (scan_events events).
Proof.
  intros (event & Hin & Hlen)%Exists_exists. rewrite totalChars_count.
  assert (event ∈ filter single_character events) as Hmem
    by by apply list_elem_of_filter.
  destruct (filter _ events); [by apply elem_of_nil in Hmem|simpl; lia].
Qed.

Section extracted.
Local Open Scope R_scope.
Variable events : list KeyEvent.
Hypothesis Hlen : (11 ≤ length events)%nat.
Hypothesis Htimed : steadily_timed events.

Local Abbreviation intervals := (intervals_of events).
Local Abbreviation sortedIntervals := (Array_sort by_difference intervals).

Lemma sorted_positive : Forall positive sortedIntervals.
Proof.
  rewrite Array_sort_perm. by apply intervals_positive.
Qed.

Lemma sorted_length : (10 ≤ length sortedIntervals)%nat.
Proof.
  rewrite Array_sort_length, intervals_of_length. lia.
Qed.

Lemma averageSpeed_positive : positive (array_mean (trimmed sortedIntervals)).
Proof.
  pose proof sorted_length as Hn. rewrite trimmed_long by done.
  apply array_mean_positive.
  - apply Forall_take, Forall_drop, sorted_positive.
  - intros E.
    assert (length (take (length sortedIntervals
                          - length sortedIntervals `div` 10
                          - length sortedIntervals `div` 10)
                      (drop (length sortedIntervals `div` 10)
                         sortedIntervals)) = 0%nat) as E'
      by by rewrite E.
    rewrite length_take, length_drop in E'.
    pose proof (Nat.Div0.mul_div_le (length sortedIntervals) 10). lia.
Qed.

Lemma quartile_positive (p : nat) :
  (p < 4)%nat →
  positive (array_get sortedIntervals
              (floor_frac (length sortedIntervals) p 4)).
Proof.
  intros Hp. pose proof sorted_length as Hn.
  apply array_get_positive; [apply sorted_positive|].
  unfold floor_frac. apply Nat.Div0.div_lt_upper_bound. nia.
Qed.

Lemma extracted_well_scaled :
  Exists single_character events →
  well_scaled (calculateTypingPattern events).
Proof.
  intros Hchar. rewrite calculateTypingPattern_unfold by lia.
  cbv zeta.
  destruct averageSpeed_positive as (m & Em & Hm).
  destruct (quartile_positive 3) as (q3 & Eq3 & _); [lia|].
  destruct (quartile_positive 1) as (q1 & Eq1 & _); [lia|].
  assert (Forall positive intervals) as Hpos by by apply intervals_positive.
  assert (10 ≤ length intervals)%nat as Hn.
  { rewrite intervals_of_length. lia. }
  assert (intervals ≠ []) as Hne by (intros E; rewrite E in Hn; simpl in Hn; lia).
  destruct (scan_counters events) as (Hmod & Hcap & Hpun).
  pose proof (totalChars_pos _ Hchar) as Htot.
  split; cbn [averageSpeed burstSpeed rhythmConsistency pauseFrequency
              modifierFrequency capitalFrequency punctuationFrequency
              errorRate keyPressDistribution].
  - rewrite Em. by exists m.
  - apply min_burst_positive; [done|lia].
  - rewrite Em. destruct (variance_nonneg intervals m Hpos Hne) as (v & -> & Hv).
    rewrite Math_sqrt_Num, num_div_Num by lra. eexists. split; [done|].
    apply Rmult_le_pos; [apply sqrt_pos|]. left. by apply Rinv_0_lt_compat.
  - apply ratio_of_nat_unit; [apply filter_length_le|lia].
  - by apply guarded_ratio_unit.
  - by apply guarded_ratio_unit.
  - by apply guarded_ratio_unit.
  - rewrite Em, Eq3, Eq1, num_sub_Num, num_div_Num by lra.
    unfold of_nat. rewrite num_div_Num.
    + by eexists.
    + apply not_0_INR. lia.
  - intros k v Hv. by apply positive_nonneg, (smoothed_positive _ k v Hv).
Qed.

Lemma extracted_has_key :
  Exists single_character events →
  ∃ k v, keyPressDistribution (calculateTypingPattern events) !! k = Some v
         ∧ positive v.
Proof.
  intros (k & c & Hk)%keyDistribution_nonempty.
  rewrite calculateTypingPattern_unfold by lia. cbn [keyPressDistribution].
  pose proof (smoothed_lookup _ _ _ Hk) as Hv.
  eexists k, _. split; [exact Hv|].
  exact (smoothed_positive _ _ _ Hv).
Qed.
End extracted.

(** ** Totals of the key distribution *)

Lemma foldl_add_sum (l : list nat) (n : nat) :
  foldl Nat.add n l = n + sum_list l.
Proof. revert n. induction l as [|x l IH]; intros n; simpl; [lia|]. rewrite IH. lia. Qed.

Lemma totalKeyPresses_sum (counts : gmap string nat) :
  totalKeyPresses counts = sum_list_with snd (map_to_list counts).
Proof.
  unfold totalKeyPresses. rewrite foldl_add_sum. cbn [Nat.add].
  generalize (map_to_list counts) as l.
  induction l as [|[k c] l IH]; simpl; [done|]. by f_equal.
Qed.

Lemma totalKeyPresses_insert_fresh (counts : gmap string nat) k c :
  counts !! k = None →
  totalKeyPresses (<[k:=c]> counts) = c + totalKeyPresses counts.
Proof.
  intros Hk. rewrite !totalKeyPresses_sum.
  by rewrite (map_to_list_insert _ _ _ Hk).
Qed.

Lemma totalKeyPresses_increment (counts : gmap string nat) k :
  totalKeyPresses (<[k := default 0 (counts !! k) + 1]> counts)
  = totalKeyPresses counts + 1.
Proof.
  destruct (counts !! k) as [c|] eqn:Hk; simpl.
  - rewrite <- insert_delete_eq.
    rewrite totalKeyPresses_insert_fresh by apply lookup_delete_eq.
    rewrite <- (insert_delete_id counts k c Hk) at 2.
    rewrite totalKeyPresses_insert_fresh by apply lookup_delete_eq. lia.
  - rewrite totalKeyPresses_insert_fresh by done. lia.
Qed.

(** The counts add up to the number of single-character presses. *)
Lemma totalKeyPresses_scan (events : list KeyEvent) :
  totalKeyPresses (keyDistribution (scan_events events))
  = length (filter single_character events).
Proof.
  induction events as [|event events IH] using rev_ind; [done|].
  rewrite scan_events_app, keyDistribution_step, filter_app, length_app.
  rewrite filter_cons, filter_nil. unfold single_character in *.
  case_decide.
  - rewrite totalKeyPresses_increment, IH. done.
  - rewrite IH. simpl. lia.
Qed.

(** The keys of the distribution are the distinct single-character keys. *)
Lemma keyDistribution_dom (events : list KeyEvent) :
  dom (keyDistribution (scan_events events)) = observed_keys events.
Proof.
  apply set_eq. intros k. unfold observed_keys.
  rewrite elem_of_dom, keyDistribution_lookup, elem_of_list_to_set.
  rewrite list_elem_of_fmap. split.
  - intros [c Hc]. case_decide as Hk; [|done]. destruct Hk as [Hlen Hpos].
    unfold presses in Hpos.
    destruct (filter (λ e, key e = k) events) as [|event l] eqn:Hf;
      [simpl in Hpos; lia|].
    assert (event ∈ filter (λ e, key e = k) events) as Hin
      by (rewrite Hf; by left).
    apply list_elem_of_filter in Hin as [<- Hin].
    exists event. split; [done|]. by apply list_elem_of_filter.
  - intros (event & -> & [Hlen Hin]%list_elem_of_filter).
    rewrite decide_True; [done|]. split; [done|]. unfold presses.
    assert (event ∈ filter (λ e, key e = key event) events) as Hmem
      by by apply list_elem_of_filter.
    destruct (filter _ events); [by apply elem_of_nil in Hmem|simpl; lia].
Qed.

Lemma keyDistribution_size (events : list KeyEvent) :
  size (keyDistribution (scan_events events)) = size (observed_keys events).
Proof. by rewrite <- keyDistribution_dom, size_dom. Qed.

(** C5, as stated, fails on a sequence of one event: the early return for
    fewer than two events leaves the distribution empty, although a
    single-character key was pressed. *)
Lemma single_event_distribution_empty :
  Exists single_character [press "a" 0]
  ∧ keyPressDistribution (calculateTypingPattern [press "a" 0]) = ∅
  ∧ values_sum (keyPressDistribution (calculateTypingPattern [press "a" 0]))
    ≠ Num 1.
Proof.
  split; [by left|].
  rewrite calculateTypingPattern_short by (simpl; lia).
  split; [done|]. unfold values_sum. simpl. rewrite map_to_list_empty.
  intros [= E]. lra.
Qed.

(** C5, as the code has it.  From two events on, the distribution has
    exactly the distinct single-character keys of the sequence, gives each
    the Laplace estimate [(count + 0.1) / (total + 0.1 * vocabulary)] of
    its raw count, and its values add up to one. *)
Theorem keyPressDistribution_laplace (events : list KeyEvent) :
  2 ≤ length events → Exists single_character events →
  let d := keyPressDistribution (calculateTypingPattern events) in
  let total := length (filter single_character events) in
  let vocabSize := size (observed_keys events) in
  dom d = observed_keys events
  ∧ (∀ k, k ∈ observed_keys events →
          d !! k = Some (Num (laplace (presses k events) total vocabSize)))
  ∧ values_sum d = Num 1.
Proof.
  intros Hlen Hchar. rewrite calculateTypingPattern_unfold by done.
  cbn [keyPressDistribution]. cbv zeta. repeat split.
  - unfold smoothed. by rewrite dom_fmap_L, keyDistribution_dom.
  - intros k Hk. rewrite <- keyDistribution_dom in Hk.
    apply elem_of_dom in Hk as [c Hc].
    rewrite (smoothed_lookup _ _ _ Hc).
    rewrite totalKeyPresses_scan, keyDistribution_size.
    rewrite keyDistribution_lookup in Hc. case_decide; [|done].
    by injection Hc as <-.
  - apply smoothed_sum. intros Hempty.
    destruct (keyDistribution_nonempty _ Hchar) as (k & c & Hk).
    by rewrite Hempty, lookup_empty in Hk.
Qed.

Lemma keyPressDistribution_laplace_witness :
  dom (keyPressDistribution (calculateTypingPattern [press "a" 0; press "b" 90]))
  = observed_keys [press "a" 0; press "b" 90]
  ∧ (∀ k, k ∈ observed_keys [press "a" 0; press "b" 90] →
          keyPressDistribution
            (calculateTypingPattern [press "a" 0; press "b" 90]) !! k
          = Some (Num (laplace (presses k [press "a" 0; press "b" 90])
                         (length (filter single_character
                                    [press "a" 0; press "b" 90]))
                         (size (observed_keys [press "a" 0; press "b" 90])))))
  ∧ values_sum
      (keyPressDistribution (calculateTypingPattern [press "a" 0; press "b" 90]))
    = Num 1.
Proof.
  apply (keyPressDistribution_laplace [press "a" 0; press "b" 90]).
  - simpl. lia.
  - left. reflexivity.
Defined.

(** ** Ratios without a guard *)

Section constant_intervals.
Local Open Scope R_scope.

Lemma sort_insert_replicate (c : R) (n : nat) :
  sort_insert by_difference (Num c) (replicate n (Num c))
  = replicate (S n) (Num c).
Proof.
  destruct n as [|n]; [done|]. cbn [replicate sort_insert].
  unfold by_difference. rewrite num_sub_Num, num_gt_Num.
  by rewrite bool_decide_eq_false_2 by lra.
Qed.

Lemma Array_sort_replicate (c : R) (n : nat) :
  Array_sort by_difference (replicate n (Num c)) = replicate n (Num c).
Proof.
  induction n as [|n IH]; [done|]. cbn [replicate Array_sort foldr].
  fold (Array_sort by_difference (replicate n (Num c))).
  by rewrite IH, sort_insert_replicate.
Qed.

Lemma zeros_sum_from (n : nat) : foldl num_add (Num 0) (replicate n (Num 0)) = Num 0.
Proof.
  induction n as [|n IH]; [done|]. cbn [replicate foldl num_add].
  by rewrite Rplus_0_l.
Qed.

Lemma zeros_mean (n : nat) : (0 < n)%nat → array_mean (replicate n (Num 0)) = Num 0.
Proof.
  intros Hn. unfold array_mean, array_sum, of_nat.
  rewrite zeros_sum_from, length_replicate, num_div_Num.
  - f_equal. lra.
  - apply not_0_INR. lia.
Qed.

Lemma zeros_variance (n : nat) :
  (0 < n)%nat → variance_of (replicate n (Num 0)) (Num 0) = Num 0.
Proof.
  intros Hn. unfold variance_of, of_nat.
  assert (foldl (λ acc val, num_add acc (Math_pow_2 (num_sub val (Num 0))))
            (Num 0) (replicate n (Num 0)) = Num 0) as ->.
  { clear Hn. induction n as [|n IH]; [done|].
    cbn [replicate foldl num_add num_sub num_neg Math_pow_2].
    replace (0 + (0 + - 0) * (0 + - 0)) with 0 by lra. done. }
  rewrite length_replicate, num_div_Num.
  - f_equal. lra.
  - apply not_0_INR. lia.
Qed.
End constant_intervals.

(** Dividing by a zero mean never gives a finite number, whatever the
    deviation is. *)
Lemma divided_by_zero_not_finite (a : number) : ¬ finite (num_div a (Num 0)).
Proof.
  intros [x Hx]. destruct a as [y| | |]; unfold num_div, inf_over in Hx;
    repeat case_decide; (done || lra).
Qed.

Lemma rhythmConsistency_zero_mean (events : list KeyEvent) :
  2 ≤ length events →
  averageSpeed (calculateTypingPattern events) = Num 0 →
  ¬ finite (rhythmConsistency (calculateTypingPattern events)).
Proof.
  intros Hlen. rewrite calculateTypingPattern_unfold by done.
  cbn [averageSpeed rhythmConsistency]. cbv zeta. intros ->.
  apply divided_by_zero_not_finite.
Qed.

Lemma counters_without_characters (events : list KeyEvent) :
  Forall (λ event, ¬ single_character event ∧ key event ≠ "Backspace") events →
  totalChars (scan_events events) = 0
  ∧ backspaceCount (scan_events events) = 0.
Proof.
  induction events as [|event events IH] using rev_ind; [done|].
  intros [Hkeys [[Hchar Hback] _]%Forall_cons_1]%Forall_app.
  destruct (IH Hkeys) as [Ht Hb]. rewrite scan_events_app.
  unfold scan_event, scan_backspace, scan_char, scan_modifier,
    single_character in *.
  repeat case_decide; destruct (some_modifier (modifiers event)); done.
Qed.

(** Without single-character keys and Backspaces the normalised backspace
    rate is [0 / 0]. *)
Lemma errorRate_without_characters (events : list KeyEvent) :
  2 ≤ length events →
  Forall (λ event, ¬ single_character event ∧ key event ≠ "Backspace") events →
  errorRate (calculateTypingPattern events) = NaN.
Proof.
  intros Hlen [Ht Hb]%counters_without_characters.
  rewrite calculateTypingPattern_unfold by done.
  cbn [errorRate]. cbv zeta. rewrite Ht, Hb.
  change (of_nat (0 + 0)) with (Num 0). change (of_nat 0) with (Num 0).
  by rewrite num_div_0_0.
Qed.

(** C3.  Eleven presses of the Shift key in the same millisecond: the
    trimmed mean of the ten zero intervals is 0 and no character or
    Backspace is typed.  Neither [rhythmConsistency] nor [errorRate] is
    guarded, and both are [0 / 0 = NaN] instead of 0. *)
Theorem unguarded_ratios_are_NaN :
  let p := calculateTypingPattern (replicate 11 (press "Shift" 0)) in
  averageSpeed p = Num 0
  ∧ totalChars (scan_events (replicate 11 (press "Shift" 0))) = 0
  ∧ backspaceCount (scan_events (replicate 11 (press "Shift" 0))) = 0
  ∧ rhythmConsistency p = NaN
  ∧ errorRate p = NaN.
Proof.
  assert (intervals_of (replicate 11 (press "Shift" 0))
          = replicate 10 (Num 0)) as Hint by done.
  assert (trimmed (replicate 10 (Num 0)) = replicate 8 (Num 0)) as Htrim.
  { rewrite trimmed_long by (rewrite length_replicate; lia).
    rewrite length_replicate. by vm_compute. }
  cbv zeta. rewrite calculateTypingPattern_unfold by (simpl; lia).
  cbn [averageSpeed rhythmConsistency errorRate]. cbv zeta.
  rewrite Hint, Array_sort_replicate, Htrim, zeros_mean by lia.
  split; [done|]. split; [done|]. split; [done|]. split.
  - rewrite zeros_variance by lia. rewrite Math_sqrt_Num, sqrt_0 by lra.
    apply num_div_0_0.
  - change (totalChars (scan_events (replicate 11 (press "Shift" 0)))) with 0.
    change (backspaceCount (scan_events (replicate 11 (press "Shift" 0))))
      with 0.
    change (of_nat (0 + 0)) with (Num 0). change (of_nat 0) with (Num 0).
  by rewrite num_div_0_0.
Qed.

(** ** The burst speed is the least window mean *)

Section minimum_facts.
Local Open Scope R_scope.

Lemma sum_finite_from (l : list number) (a : R) :
  Forall finite l → finite (foldl num_add (Num a) l).
Proof.
  intros Hl. revert a. induction Hl as [|x l [r ->] _ IH]; intros a.
  - by exists a.
  - apply IH.
Qed.

Lemma window_avg_finite (l : list number) (w i : nat) :
  Forall finite l → (0 < w)%nat → finite (window_avg l w i).
Proof.
  intros Hl Hw. unfold window_avg, slice.
  destruct (sum_finite_from
    (take (rel_index (length l) (Z.of_nat (i + w))
           - rel_index (length l) (Z.of_nat i))
       (drop (rel_index (length l) (Z.of_nat i)) l)) 0) as [s Hs].
  { by apply Forall_take, Forall_drop. }
  unfold array_sum, slice. rewrite Hs. unfold of_nat.
  rewrite num_div_Num; [by eexists|]. apply not_0_INR. lia.
Qed.

Lemma num_le_Num (x y : R) : num_le (Num x) (Num y) = bool_decide (x <= y).
Proof. reflexivity. Qed.

Lemma num_le_trans_Num (a : number) (x y : R) :
  num_le a (Num x) = true → x <= y → num_le a (Num y) = true.
Proof.
  destruct a as [z| | |]; try done. rewrite !num_le_Num, !bool_decide_eq_true.
  lra.
Qed.

(** One step of the loop: the new minimum is below the old one and below
    the window mean, and it is one of the two. *)
Lemma Math_min_step (acc : number) (x : R) :
  acc = Infinity ∨ finite acc →
  ∃ r, Math_min acc (Num x) = Num r
       ∧ r <= x
       ∧ num_le (Num r) acc = true
       ∧ (Num r = acc ∨ r = x).
Proof.
  intros [->|[a ->]].
  - exists x. repeat split; [lra|by right].
  - rewrite Math_min_Num. exists (Rmin a x). split; [done|].
    rewrite num_le_Num, bool_decide_eq_true. unfold Rmin.
    destruct (Rle_dec a x); (split; [lra|]); (split; [lra|]);
      [by left|by right].
Qed.

Lemma min_fold_minimum (f : nat → number) (positions : list nat) (a : R) :
  (∀ i, i ∈ positions → finite (f i)) →
  ∃ r, foldl (λ minBurst i, Math_min minBurst (f i)) (Num a) positions = Num r
       ∧ r <= a
       ∧ (∀ i, i ∈ positions → num_le (Num r) (f i) = true)
       ∧ (r = a ∨ ∃ i, i ∈ positions ∧ f i = Num r).
Proof.
  revert a. induction positions as [|i positions IH]; intros a Hf.
  - exists a. repeat split; [lra| |by left]. intros i Hi. by apply elem_of_nil in Hi.
  - cbn [foldl]. destruct (Hf i) as [x Hx]; [by left|]. rewrite Hx.
    destruct (Math_min_step (Num a) x) as (r0 & -> & Hr0x & Hr0a & Hr0);
      [right; by exists a|].
    rewrite num_le_Num, bool_decide_eq_true in Hr0a.
    destruct (IH r0) as (r & -> & Hr & Hall & Hsome).
    { intros j Hj. apply Hf. by right. }
    exists r. repeat split; [lra| |].
    + intros j [->|Hj]%elem_of_cons; [|by apply Hall].
      rewrite Hx, num_le_Num, bool_decide_eq_true. lra.
    + destruct Hsome as [->|(j & Hj & Hfj)].
      * destruct Hr0 as [[= ->]| ->]; [by left|].
        right. exists i. split; [by left|done].
      * right. exists j. split; [by right|done].
Qed.

(** With at least as many finite intervals as the window is wide,
    [min_burst] is a window mean, and no window mean is below it. *)
Lemma min_burst_is_minimum (l : list number) :
  let w := Nat.max 5 (floor_frac (length l) 1 5) in
  Forall finite l → (w ≤ length l)%nat →
  ∃ r, min_burst l = Num r
       ∧ (∀ i, (i ≤ length l - w)%nat →
               num_le (Num r) (window_avg l w i) = true)
       ∧ (∃ i, (i ≤ length l - w)%nat ∧ window_avg l w i = Num r).
Proof.
  intros w Hl Hw. unfold min_burst. fold w.
  assert (0 < w)%nat as Hpos by (unfold w; lia).
  replace (length l + 1 - w)%nat with (S (length l - w)) by lia.
  cbn [seq foldl].
  destruct (window_avg_finite l w 0 Hl Hpos) as [x0 Hx0].
  rewrite Hx0. change (Math_min Infinity (Num x0)) with (Num x0).
  destruct (min_fold_minimum (window_avg l w) (seq 1 (length l - w)) x0)
    as (r & -> & Hr & Hall & Hsome).
  { intros i _. by apply window_avg_finite. }
  exists r. repeat split.
  - intros i Hi. destruct i as [|i].
    + rewrite Hx0, num_le_Num, bool_decide_eq_true. lra.
    + apply Hall, elem_of_seq. lia.
  - destruct Hsome as [->|(i & Hi%elem_of_seq & Hfi)].
    + exists 0%nat. split; [lia|done].
    + exists i. split; [lia|done].
Qed.
End minimum_facts.

(** ** Sorting finite numbers *)

Section sort_facts.
Local Open Scope R_scope.

Lemma sort_insert_ascending (x : R) (l : list number) :
  Forall finite l → ascending l →
  ascending (sort_insert by_difference (Num x) l).
Proof.
  unfold ascending. intros Hfin Hsorted.
  induction Hsorted as [|y l Hsorted IH Hy].
  - repeat constructor.
  - apply Forall_cons_1 in Hfin as [[b ->] Hfin]. cbn [sort_insert].
    unfold by_difference. rewrite num_sub_Num, num_gt_Num.
    case_bool_decide as Hxb.
    + constructor; [by apply IH|].
      rewrite sort_insert_perm. constructor; [|done].
      rewrite num_le_Num, bool_decide_eq_true. lra.
    + constructor; [by constructor|]. constructor.
      * rewrite num_le_Num, bool_decide_eq_true. lra.
      * rewrite Forall_forall in Hy, Hfin. apply Forall_forall.
        intros z Hz. destruct (Hfin z Hz) as [c ->].
        specialize (Hy _ Hz).
        rewrite num_le_Num, bool_decide_eq_true in *. lra.
Qed.

(** On finite numbers [sort((a, b) => a - b)] yields the same numbers in
    ascending order. *)
Lemma Array_sort_ascending (l : list number) :
  Forall finite l →
  ascending (Array_sort by_difference l)
  ∧ Array_sort by_difference l ≡ₚ l.
Proof.
  intros Hfin. split; [|apply Array_sort_perm].
  induction Hfin as [|a l [x ->] Hfin IH]; [constructor|].
  cbn [Array_sort foldr]. apply sort_insert_ascending; [|done].
  fold (Array_sort by_difference l). by rewrite Array_sort_perm.
Qed.
End sort_facts.

(** ** The similarity scorer *)


Section scorer_facts.
Local Open Scope R_scope.

Lemma max3_pos (x y c : R) : 0 < c → Rmax (Rmax x y) c ≠ 0.
Proof. intros Hc. pose proof (Rmax_r (Rmax x y) c). lra. Qed.

Lemma getWeight_Num (m1 m2 b : R) :
  getWeight (Num m1) (Num m2) (Num b)
  = Num (b * (1 / 2 + 1 / 2 * (1 - Rabs (m1 - m2) / Rmax (Rmax m1 m2) 1))).
Proof.
  unfold getWeight. rewrite Math_max3_Num, num_sub_Num. cbn [Math_abs].
  rewrite num_div_Num by (apply max3_pos; lra). by rewrite num_sub_Num.
Qed.

Lemma getWeight_bounds (a1 a2 : number) (b : R) :
  nonneg a1 → nonneg a2 → 0 < b →
  ∃ w, getWeight a1 a2 (Num b) = Num w ∧ 0 < w.
Proof.
  intros (m1 & -> & H1) (m2 & -> & H2) Hb. rewrite getWeight_Num.
  eexists; split; [done|].
  pose proof (stability_unit m1 m2 1 H1 H2). nra.
Qed.

Lemma getWeight_same (m b : R) : getWeight (Num m) (Num m) (Num b) = Num b.
Proof.
  rewrite getWeight_Num. f_equal.
  replace (m - m) with 0 by lra. rewrite Rabs_R0. lra.
Qed.

Lemma min_over_max_Num (a b : R) :
  0 < a → 0 < b →
  min_over_max (Num a) (Num b) = Num (Rmin a b / Rmax a b).
Proof.
  intros Ha Hb. unfold min_over_max. rewrite Math_min_Num, Math_max_Num.
  apply num_div_Num. unfold Rmax. destruct (Rle_dec a b); lra.
Qed.

Lemma min_over_max_bounds (a1 a2 : number) :
  positive a1 → positive a2 → unit_interval (min_over_max a1 a2).
Proof.
  intros (a & -> & Ha) (b & -> & Hb). rewrite min_over_max_Num by done.
  by apply min_over_max_unit.
Qed.

Lemma min_over_max_same (a : R) : 0 < a → min_over_max (Num a) (Num a) = Num 1.
Proof.
  intros Ha. rewrite min_over_max_Num by done. f_equal.
  unfold Rmin, Rmax. destruct (Rle_dec a a); field; lra.
Qed.

Lemma closeness_Num (x y : R) :
  closeness (Num x) (Num y) = Num (1 - Rabs (x - y)).
Proof. reflexivity. Qed.

Lemma closeness_bounds (a1 a2 : number) :
  unit_interval a1 → unit_interval a2 → unit_interval (closeness a1 a2).
Proof.
  destruct a1 as [x| | |], a2 as [y| | |]; try done.
  intros Hx Hy. rewrite closeness_Num. by apply closeness_unit.
Qed.

Lemma closeness_same (x : R) : closeness (Num x) (Num x) = Num 1.
Proof.
  rewrite closeness_Num. f_equal. replace (x - x) with 0 by lra.
  rewrite Rabs_R0. lra.
Qed.

End scorer_facts.

Section key_distribution_facts.
Local Open Scope R_scope.
Variables pattern1 pattern2 : TypingPattern.
Hypothesis Hd1 : map_Forall (λ _ v, nonneg v) (keyPressDistribution pattern1).
Hypothesis Hd2 : map_Forall (λ _ v, nonneg v) (keyPressDistribution pattern2).

Lemma or_zero_nonneg (d : gmap string number) (k : string) :
  map_Forall (λ _ v, nonneg v) d → nonneg (or_zero (d !! k)).
Proof.
  intros Hd. destruct (d !! k) as [v|] eqn:Hk; simpl.
  - destruct (Hd k v Hk) as (x & -> & Hx). case_decide.
    + exists 0. split; [done|lra].
    + by exists x.
  - exists 0. split; [done|lra].
Qed.

Lemma key_step_ok (acc : number * number) (k : string) :
  key_acc_ok acc → key_acc_ok (key_step pattern1 pattern2 acc k).
Proof.
  intros (s & w & -> & Hsw). unfold key_step.
  destruct (or_zero_nonneg _ k Hd1) as (f1 & -> & Hf1).
  destruct (or_zero_nonneg _ k Hd2) as (f2 & -> & Hf2).
  rewrite !num_gt_Num.
  destruct (bool_decide (0 < f1) || bool_decide (0 < f2)) eqn:Hpos;
    [|by exists s, w].
  apply orb_true_iff in Hpos. rewrite !bool_decide_eq_true in Hpos.
  rewrite Math_max3_Num, Math_max_Num, num_sub_Num. cbn [Math_abs].
  rewrite num_div_Num by (apply max3_pos; lra).
  eexists _, _. split; [done|]. cbn [fst snd].
  pose proof (stability_unit f1 f2 (1 / 100) Hf1 Hf2).
  assert (0 < Rmax f1 f2).
  { unfold Rmax. destruct (Rle_dec f1 f2); lra. }
  nra.
Qed.

Lemma key_fold_ok (keys : list string) (acc : number * number) :
  key_acc_ok acc → key_acc_ok (foldl (key_step pattern1 pattern2) acc keys).
Proof.
  revert acc. induction keys as [|k keys IH]; intros acc Hacc; [done|].
  simpl. apply IH. by apply key_step_ok.
Qed.

Lemma keyDistSimilarity_bounds :
  unit_interval (keyDistSimilarity pattern1 pattern2).
Proof.
  unfold keyDistSimilarity.
  destruct (key_fold_ok (allKeys pattern1 pattern2) (Num 0, Num 0))
    as (s & w & -> & Hsw).
  { exists 0, 0. split; [done|lra]. }
  cbn [fst snd]. rewrite num_gt_Num. case_bool_decide as Hw.
  - rewrite num_div_Num by lra. by apply ratio_unit.
  - simpl. lra.
Qed.
End key_distribution_facts.

Section sub_scores.
Local Open Scope R_scope.
Variables pattern1 pattern2 : TypingPattern.
Hypothesis Hp1 : well_scaled pattern1.
Hypothesis Hp2 : well_scaled pattern2.

Lemma vocabulary_nonneg (d : gmap string number) : nonneg (vocabulary d).
Proof. exists (INR (size d)). split; [done|apply pos_INR]. Qed.

Lemma speedWeight_pos : positive (speedWeight pattern1 pattern2).
Proof.
  apply getWeight_bounds; [| |lra];
    by apply positive_nonneg, ws_averageSpeed.
Qed.

Lemma keyDistWeight_pos : positive (keyDistWeight pattern1 pattern2).
Proof. apply getWeight_bounds; [| |lra]; apply vocabulary_nonneg. Qed.

Lemma rhythmWeight_pos : positive (rhythmWeight pattern1 pattern2).
Proof. apply getWeight_bounds; [| |lra]; by apply ws_rhythmConsistency. Qed.

Lemma timingWeight_pos : positive (timingWeight pattern1 pattern2).
Proof.
  apply getWeight_bounds; [| |lra];
    by apply unit_interval_nonneg, ws_pauseFrequency.
Qed.

Lemma styleWeight_pos : positive (styleWeight pattern1 pattern2).
Proof.
  destruct (unit_interval_inv _ (ws_modifierFrequency _ Hp1)) as (m1 & Em1 & ?).
  destruct (unit_interval_inv _ (ws_capitalFrequency _ Hp1)) as (c1 & Ec1 & ?).
  destruct (unit_interval_inv _ (ws_modifierFrequency _ Hp2)) as (m2 & Em2 & ?).
  destruct (unit_interval_inv _ (ws_capitalFrequency _ Hp2)) as (c2 & Ec2 & ?).
  unfold styleWeight. rewrite Em1, Ec1, Em2, Ec2. cbn [num_add].
  apply getWeight_bounds; [| |lra]; eexists; (split; [done|lra]).
Qed.

Lemma speedSimilarity_unit : unit_interval (speedSimilarity pattern1 pattern2).
Proof.
  unfold speedSimilarity.
  destruct (unit_interval_inv _
    (min_over_max_bounds _ _ (ws_averageSpeed _ Hp1) (ws_averageSpeed _ Hp2)))
    as (x & -> & Hx).
  rewrite Math_pow_half_Num by lra. by apply sqrt_unit.
Qed.

Lemma rhythmSimilarity_unit :
  unit_interval (rhythmSimilarity pattern1 pattern2).
Proof.
  unfold rhythmSimilarity.
  destruct (ws_rhythmConsistency _ Hp1) as (r1 & -> & _).
  destruct (ws_rhythmConsistency _ Hp2) as (r2 & -> & _).
  apply exp_neg_abs_unit.
Qed.

Lemma timingSimilarity_unit :
  unit_interval (timingSimilarity pattern1 pattern2).
Proof.
  unfold timingSimilarity, burstSpeedSimilarity, pauseSimilarity.
  destruct (unit_interval_inv _
    (min_over_max_bounds _ _ (ws_burstSpeed _ Hp1) (ws_burstSpeed _ Hp2)))
    as (b & -> & Hb).
  destruct (unit_interval_inv _
    (closeness_bounds _ _ (ws_pauseFrequency _ Hp1) (ws_pauseFrequency _ Hp2)))
    as (q & -> & Hq).
  simpl. lra.
Qed.

Lemma styleSimilarity_unit : unit_interval (styleSimilarity pattern1 pattern2).
Proof.
  unfold styleSimilarity.
  destruct (unit_interval_inv _
    (closeness_bounds _ _ (ws_modifierFrequency _ Hp1)
       (ws_modifierFrequency _ Hp2))) as (m & -> & Hm).
  destruct (unit_interval_inv _
    (closeness_bounds _ _ (ws_capitalFrequency _ Hp1)
       (ws_capitalFrequency _ Hp2))) as (c & -> & Hc).
  destruct (unit_interval_inv _
    (closeness_bounds _ _ (ws_punctuationFrequency _ Hp1)
       (ws_punctuationFrequency _ Hp2))) as (q & -> & Hq).
  simpl. lra.
Qed.

(** The weighted average of the five sub-scores. *)
Lemma similarity_unit : unit_interval (similarity pattern1 pattern2).
Proof.
  unfold similarity, finalTotalWeight.
  destruct speedWeight_pos as (w1 & -> & ?).
  destruct keyDistWeight_pos as (w2 & -> & ?).
  destruct rhythmWeight_pos as (w3 & -> & ?).
  destruct timingWeight_pos as (w4 & -> & ?).
  destruct styleWeight_pos as (w5 & -> & ?).
  destruct (unit_interval_inv _ speedSimilarity_unit) as (s1 & -> & ?).
  destruct (unit_interval_inv _
    (keyDistSimilarity_bounds _ _ (ws_keyPressDistribution _ Hp1)
       (ws_keyPressDistribution _ Hp2))) as (s2 & -> & ?).
  destruct (unit_interval_inv _ rhythmSimilarity_unit) as (s3 & -> & ?).
  destruct (unit_interval_inv _ timingSimilarity_unit) as (s4 & -> & ?).
  destruct (unit_interval_inv _ styleSimilarity_unit) as (s5 & -> & ?).
  cbn [num_add num_mul]. rewrite num_div_Num by lra.
  by apply weighted_average_unit.
Qed.

Lemma vocabulary_term (d : gmap string number) :
  Math_sqrt (num_div (vocabulary d) (Num 20)) = Num (sqrt (INR (size d) / 20)).
Proof.
  unfold vocabulary, of_nat. rewrite num_div_Num by lra.
  apply Math_sqrt_Num. pose proof (pos_INR (size d)). lra.
Qed.

(** The multiplier lies in [0,1] once the error rates are within one of
    each other: it lowers the score, and never raises it. *)
Lemma confidenceMultiplier_unit :
  error_rates_within_one pattern1 pattern2 →
  unit_interval (confidenceMultiplier pattern1 pattern2).
Proof.
  intros (e1 & e2 & He1 & He2 & Hclose).
  unfold confidenceMultiplier. rewrite !vocabulary_term, He1, He2.
  rewrite closeness_Num. cbn [num_mul]. rewrite Math_min_Num. simpl.
  pose proof (sqrt_pos (INR (size (keyPressDistribution pattern1)) / 20)).
  pose proof (sqrt_pos (INR (size (keyPressDistribution pattern2)) / 20)).
  pose proof (Rabs_pos (e1 - e2)).
  unfold Rmin. destruct (Rle_dec _ _); [lra|]. split; [|lra].
  apply Rmult_le_pos; [|lra]. by apply Rmult_le_pos.
Qed.
End sub_scores.


(** The same for two profiles extracted from at least eleven events each,
    with finite positive intervals and a single-character key. *)
Lemma comparePatterns_extracted_bounds (events1 events2 : list KeyEvent) :
  11 ≤ length events1 → steadily_timed events1 →
  Exists single_character events1 →
  11 ≤ length events2 → steadily_timed events2 →
  Exists single_character events2 →
  error_rates_within_one (calculateTypingPattern events1)
    (calculateTypingPattern events2) →
  unit_interval
    (comparePatterns (calculateTypingPattern events1)
       (calculateTypingPattern events2)).
Proof.
  intros Hlen1 Ht1 Hc1 Hlen2 Ht2 Hc2 Herr. unfold comparePatterns.
  pose proof (extracted_well_scaled _ Hlen1 Ht1 Hc1) as Hp1.
  pose proof (extracted_well_scaled _ Hlen2 Ht2 Hc2) as Hp2.
  destruct (unit_interval_inv _ (similarity_unit _ _ Hp1 Hp2)) as (s & -> & Hs).
  destruct (unit_interval_inv _ (confidenceMultiplier_unit _ _ Herr))
    as (c & -> & Hc).
  simpl. nra.
Qed.

Lemma steady_pattern_well_scaled : well_scaled steady_pattern.
Proof.
  split; simpl; try lra.
  - exists 100%R. split; [done|lra].
  - exists 100%R. split; [done|lra].
  - exists 0%R. split; [done|lra].
  - by exists 0%R.
  - apply map_Forall_singleton. exists 1%R. split; [done|lra].
Qed.


(** Two profiles whose speed is zero: the speed ratio is [0 / 0]. *)
Lemma comparePatterns_zero_speed (pattern1 pattern2 : TypingPattern) :
  averageSpeed pattern1 = Num 0 → averageSpeed pattern2 = Num 0 →
  comparePatterns pattern1 pattern2 = NaN.
Proof.
  intros H1 H2. unfold comparePatterns, similarity.
  assert (speedSimilarity pattern1 pattern2 = NaN) as ->; [|done].
  unfold speedSimilarity, min_over_max. rewrite H1, H2.
  rewrite Math_min_Num, Math_max_Num, Rmin_left, Rmax_left by lra.
  by rewrite num_div_0_0.
Qed.



(** ** A profile compared with itself *)

Section self_comparison.
Local Open Scope R_scope.
Variable p : TypingPattern.
Hypothesis Hp : well_scaled p.

Lemma key_step_same (w : R) (k : string) :
  0 <= w →
  ∃ w', key_step p p (Num w, Num w) k = (Num w', Num w') ∧ w <= w'
        ∧ (∀ v, keyPressDistribution p !! k = Some v → positive v → w < w').
Proof.
  intros Hw. unfold key_step.
  destruct (keyPressDistribution p !! k) as [v|] eqn:Hk; cbn [or_zero].
  - destruct (ws_keyPressDistribution _ Hp k v Hk) as (f & -> & Hf).
    case_decide as Hf0; rewrite !num_gt_Num.
    + rewrite bool_decide_eq_false_2 by lra. cbn [orb].
      exists w. repeat split; [lra|].
      intros ? [= <-] (? & [= <-] & ?). lra.
    + rewrite bool_decide_eq_true_2 by lra. cbn [orb].
      rewrite Math_max3_Num, Math_max_Num, num_sub_Num. cbn [Math_abs].
      rewrite num_div_Num by (apply max3_pos; lra). rewrite num_sub_Num.
      cbn [num_mul num_add fst snd].
      rewrite Rminus_diag, Rabs_R0, (Rmax_left f f) by lra.
      exists (w + f). repeat split; [f_equal; f_equal; lra|lra|].
      intros _ _ _. lra.
  - rewrite num_gt_Num, bool_decide_eq_false_2 by lra. cbn [orb].
    exists w. repeat split; [lra|done].
Qed.

Lemma key_fold_same (keys : list string) (w : R) :
  0 <= w →
  ∃ w', foldl (key_step p p) (Num w, Num w) keys = (Num w', Num w')
        ∧ w <= w'
        ∧ (∀ k v, k ∈ keys → keyPressDistribution p !! k = Some v →
                  positive v → w < w').
Proof.
  revert w. induction keys as [|k keys IH]; intros w Hw.
  - exists w. repeat split; [lra|]. intros k v Hk. by apply elem_of_nil in Hk.
  - destruct (key_step_same w k Hw) as (w1 & E1 & Hle1 & Hlt1).
    destruct (IH w1) as (w2 & E2 & Hle2 & Hlt2); [lra|].
    exists w2. simpl. rewrite E1, E2. repeat split; [lra|].
    intros k' v [->|Hin]%elem_of_cons Hk' Hv.
    + specialize (Hlt1 v Hk' Hv). lra.
    + specialize (Hlt2 k' v Hin Hk' Hv). lra.
Qed.

Lemma keyDistSimilarity_same :
  (∃ k v, keyPressDistribution p !! k = Some v ∧ positive v) →
  keyDistSimilarity p p = Num 1.
Proof.
  intros (k & v & Hk & Hv). unfold keyDistSimilarity.
  destruct (key_fold_same (allKeys p p) 0) as (w & -> & _ & Hlt); [lra|].
  assert (0 < w) as Hw.
  { apply (Hlt k v); [|done..]. unfold allKeys.
    apply elem_of_elements, elem_of_union_l, elem_of_dom. by exists v. }
  cbn [fst snd]. rewrite num_gt_Num, bool_decide_eq_true_2 by done.
  rewrite num_div_Num by lra. f_equal. field. lra.
Qed.

(** Every sub-score of a profile against itself is 1 and every weight is
    its base weight, so the score is the confidence multiplier, which the
    size of the vocabulary alone decides. *)
Lemma comparePatterns_same :
  (∃ k v, keyPressDistribution p !! k = Some v ∧ positive v) →
  comparePatterns p p
  = Num (Rmin 1 (INR (size (keyPressDistribution p)) / 20)).
Proof.
  intros Hkey. unfold comparePatterns.
  assert (similarity p p = Num 1) as ->.
  { unfold similarity, finalTotalWeight, speedWeight, keyDistWeight,
      rhythmWeight, timingWeight, styleWeight, speedSimilarity,
      rhythmSimilarity, timingSimilarity, burstSpeedSimilarity,
      pauseSimilarity, styleSimilarity, vocabulary, of_nat.
    rewrite keyDistSimilarity_same by done.
    destruct (ws_averageSpeed _ Hp) as (a & -> & Ha).
    destruct (ws_burstSpeed _ Hp) as (b & -> & Hb).
    destruct (ws_rhythmConsistency _ Hp) as (r & -> & Hr).
    destruct (unit_interval_inv _ (ws_pauseFrequency _ Hp)) as (q & -> & ?).
    destruct (unit_interval_inv _ (ws_modifierFrequency _ Hp)) as (m & -> & ?).
    destruct (unit_interval_inv _ (ws_capitalFrequency _ Hp)) as (c & -> & ?).
    destruct (unit_interval_inv _ (ws_punctuationFrequency _ Hp))
      as (u & -> & ?).
    unfold base_speed, base_keyDistribution, base_rhythm, base_timing,
      base_style.
    cbn [num_add]. rewrite !getWeight_same, !min_over_max_same by done.
    rewrite !closeness_same, num_sub_Num. cbn [Math_abs num_neg Math_exp].
    rewrite Math_pow_half_Num, sqrt_1 by lra.
    rewrite Rminus_diag, Rabs_R0, Ropp_0, exp_0.
    cbn [num_mul num_add].
    rewrite num_div_Num by lra. f_equal. field. }
  unfold confidenceMultiplier. rewrite !vocabulary_term.
  destruct (ws_errorRate _ Hp) as (e & ->).
  rewrite closeness_same. cbn [num_mul]. rewrite Math_min_Num.
  rewrite sqrt_sqrt by (pose proof (pos_INR (size (keyPressDistribution p)));
                        lra).
  cbn [num_mul]. by rewrite Rmult_1_l, Rmult_1_r.
Qed.
End self_comparison.

(** ** Self-match *)

Lemma keystrokes_timed (text : string) (t : R) :
  (0 < t)%R → steadily_timed (keystrokes text t).
Proof.
  intros Ht. unfold steadily_timed, keystrokes.
  destruct (String.list_ascii_of_string text) as [|c cs]; [constructor|].
  cbn [drop]. apply Forall_fmap, Forall_forall. intros c' _. by exists t.
Qed.

Lemma extracted_vocabulary (events : list KeyEvent) :
  2 ≤ length events →
  size (keyPressDistribution (calculateTypingPattern events))
  = size (observed_keys events).
Proof.
  intros Hlen. rewrite calculateTypingPattern_unfold by done.
  cbn [keyPressDistribution]. unfold smoothed.
  by rewrite map_size_fmap, keyDistribution_size.
Qed.

Lemma extracted_self_match (events : list KeyEvent) :
  11 ≤ length events → steadily_timed events →
  Exists single_character events →
  comparePatterns (calculateTypingPattern events)
    (calculateTypingPattern events)
  = Num (Rmin 1 (INR (size (observed_keys events)) / 20)).
Proof.
  intros Hlen Htimed Hchar.
  rewrite comparePatterns_same.
  - by rewrite extracted_vocabulary by lia.
  - by apply extracted_well_scaled.
  - by apply extracted_has_key.
Qed.

Lemma confidenceMultiplier_at_most_one (pattern1 pattern2 : TypingPattern) :
  num_gt (confidenceMultiplier pattern1 pattern2) (Num 1) = false.
Proof.
  unfold confidenceMultiplier.
  destruct (num_mul _ _) as [y| | |]; [| |done..].
  - rewrite Math_min_Num, num_gt_Num. apply bool_decide_eq_false_2.
    pose proof (Rmin_l 1 y). lra.
  - cbn. apply bool_decide_eq_false_2. lra.
Qed.




(** ** The sample-size gate of the boundary layer *)

(** A loop whose body logs the same calls whatever the accumulator is. *)
Lemma forEach_trace {A S : Type} (body : S → A → traced S)
    (calls : A → list core_call) (l : list A) (s : S) :
  (∀ s x, (body s x).2 = calls x) →
  (forEach body s l).2 = concat (calls <$> l).
Proof.
  intros Hbody. revert s. induction l as [|x l IH]; intros s; [done|].
  cbn [forEach fmap list_fmap concat]. unfold mbind, traced_bind at 1.
  cbn [fst snd]. by rewrite Hbody, IH.
Qed.

Lemma concat_singletons {A B : Type} (f : A → B) (l : list A) :
  concat ((λ x, [f x]) <$> l) = f <$> l.
Proof. induction l as [|x l IH]; [done|]. cbn. by rewrite IH. Qed.

(** Past the gate, [/api/predict] extracts once and compares the fresh
    profile with every stored one, in order. *)
Lemma api_predict_compares_all (profiles : list (string * TypingPattern))
    (events : list KeyEvent) :
  75 ≤ length events →
  (api_predict profiles (EventArray events)).2
  = Extract events
    :: ((λ entry, Compare (calculateTypingPattern events) entry.2) <$> profiles).
Proof.
  intros Hlen. unfold api_predict. rewrite decide_False by lia.
  unfold mbind at 1, traced_bind at 1. cbn [fst snd call_calculateTypingPattern app].
  f_equal. unfold mbind at 1, traced_bind at 1. cbn [fst snd mret traced_ret].
  rewrite app_nil_r, <- concat_singletons. by apply forEach_trace.
Qed.

(** So does [predictUser], before it updates the matched profile. *)
Lemma predictUser_compares_all (now : number) (st : AppState) :
  MINIMUM_SAMPLE_SIZE ≤ length (keyEvents st) →
  ∃ more,
    (predictUser now st).2
    = Extract (keyEvents st)
      :: ((λ profile,
             Compare (calculateTypingPattern (keyEvents st)) (pattern profile))
            <$> userProfiles st)
      ++ more.
Proof.
  intros Hlen. unfold predictUser. rewrite decide_False by lia.
  unfold mbind at 1, traced_bind at 1.
  cbn [fst snd call_calculateTypingPattern app].
  unfold mbind at 1, traced_bind at 1. cbn [fst snd].
  eexists. f_equal. f_equal.
  rewrite <- concat_singletons. by apply forEach_trace.
Qed.

(** C8.  A prediction request with fewer than 75 events is answered
    without a single call into the core: the HTTP route replies with
    status 400, the application shows the "need at least 75 keystrokes"
    message and leaves the rest of its state alone. *)
Theorem insufficient_sample_short_circuits (events : list KeyEvent) :
  length events < 75 →
  (∀ profiles : list (string * TypingPattern),
     api_predict profiles (EventArray events)
     = (Status400 "Invalid or insufficient typing data", []))
  ∧ (∀ (now : number) (st : AppState),
       keyEvents st = events →
       (predictUser now st).2 = []
       ∧ predictionResult (predictUser now st).1
         = Some (NeedMoreKeystrokes 75)
       ∧ userProfiles (predictUser now st).1 = userProfiles st
       ∧ predictionHistory (predictUser now st).1 = predictionHistory st
       ∧ keyEvents (predictUser now st).1 = events).
Proof.
  intros Hlen. split.
  - intros profiles. unfold api_predict. by rewrite decide_True.
  - intros now st Hst. unfold predictUser, MINIMUM_SAMPLE_SIZE.
    rewrite Hst, decide_True by done. done.
Qed.

Lemma insufficient_sample_short_circuits_witness :
  (∀ profiles : list (string * TypingPattern),
     api_predict profiles (EventArray [press "a" 0])
     = (Status400 "Invalid or insufficient typing data", []))
  ∧ (∀ (now : number) (st : AppState),
       keyEvents st = [press "a" 0] →
       (predictUser now st).2 = []
       ∧ predictionResult (predictUser now st).1
         = Some (NeedMoreKeystrokes 75)
       ∧ userProfiles (predictUser now st).1 = userProfiles st
       ∧ predictionHistory (predictUser now st).1 = predictionHistory st
       ∧ keyEvents (predictUser now st).1 = [press "a" 0]).
Proof.
  apply (insufficient_sample_short_circuits [press "a" 0]). simpl. lia.
Defined.

(** ** The core over the store *)

Section store_facts.
Implicit Types (h k : store).

Lemma run_bind {A B} (m : M A) (f : A → M B) h x h' :
  m h = Some (x, h') → (m ≫= f) h = f x h'.
Proof. intros E. unfold mbind, M_bind. by rewrite E. Qed.

Lemma lookup_new h k (i : nat) : (h ++ k) !! (length h + i) = k !! i.
Proof. rewrite lookup_app_r by lia. f_equal. lia. Qed.

Lemma alloc_new h k c :
  alloc c (h ++ k) = Some (length h + length k, h ++ (k ++ [c])).
Proof. unfold alloc. by rewrite length_app, app_assoc. Qed.

Lemma load_new h k i c :
  k !! i = Some c → load (length h + i) (h ++ k) = Some (c, h ++ k).
Proof. intros E. unfold load. by rewrite lookup_new, E. Qed.

Lemma load_old h k l c :
  h !! l = Some c → load l (h ++ k) = Some (c, h ++ k).
Proof. intros E. unfold load. by rewrite (lookup_app_l_Some _ _ _ _ E). Qed.

Lemma store_at_new h k i c c' :
  k !! i = Some c →
  store_at (length h + i) c' (h ++ k) = Some ((), h ++ <[i := c']> k).
Proof.
  intros E%lookup_lt_Some. unfold store_at.
  rewrite decide_True by (rewrite length_app; lia).
  by rewrite insert_app_r.
Qed.

Lemma load_events_old h k l events :
  h !! l = Some (Events events) →
  load_events l (h ++ k) = Some (events, h ++ k).
Proof. intros E. unfold load_events. by rewrite (run_bind _ _ _ _ _ (load_old _ _ _ _ E)). Qed.

Lemma load_numbers_new h k i a :
  k !! i = Some (Numbers a) →
  load_numbers (length h + i) (h ++ k) = Some (a, h ++ k).
Proof. intros E. unfold load_numbers. by rewrite (run_bind _ _ _ _ _ (load_new _ _ _ _ E)). Qed.

Lemma load_counts_new h k i d :
  k !! i = Some (Counts d) →
  load_counts (length h + i) (h ++ k) = Some (d, h ++ k).
Proof. intros E. unfold load_counts. by rewrite (run_bind _ _ _ _ _ (load_new _ _ _ _ E)). Qed.

Lemma set_field_new h k i o f v :
  k !! i = Some (Obj o) →
  set_field (length h + i) f v (h ++ k)
  = Some ((), h ++ <[i := Obj (<[f := v]> o)]> k).
Proof.
  intros E. unfold set_field, load_obj.
  rewrite (run_bind _ _ _ _ _ (run_bind _ _ _ _ _ (load_new _ _ _ _ E))).
  by apply store_at_new with (c := Obj o).
Qed.
End store_facts.

Section loop_facts.
Variables (h k : store) (mu wl kd : nat).
Hypothesis Hmu : mu < length k.
Hypothesis Hwl : wl < length k.
Hypothesis Hkd : kd < length k.
Hypothesis Hmw : mu ≠ wl.
Hypothesis Hmk : mu ≠ kd.
Hypothesis Hwk : wl ≠ kd.

Lemma loop_cells_usage s : loop_cells mu wl kd s k !! mu = Some (Dict (usage s)).
Proof.
  unfold loop_cells. apply list_lookup_insert_eq. by rewrite !length_insert.
Qed.

Lemma loop_cells_wordLengths s :
  loop_cells mu wl kd s k !! wl = Some (Numbers (wordLengths s)).
Proof.
  unfold loop_cells. rewrite list_lookup_insert_ne by done.
  apply list_lookup_insert_eq. by rewrite !length_insert.
Qed.

Lemma loop_cells_keyDistribution s :
  loop_cells mu wl kd s k !! kd = Some (Counts (keyDistribution s)).
Proof.
  unfold loop_cells. rewrite !list_lookup_insert_ne by done.
  by apply list_lookup_insert_eq.
Qed.

Lemma loop_cells_eq s s' :
  usage s = usage s' → wordLengths s = wordLengths s' →
  keyDistribution s = keyDistribution s' →
  loop_cells mu wl kd s k = loop_cells mu wl kd s' k.
Proof. unfold loop_cells. by intros -> -> ->. Qed.

Lemma loop_cells_set_usage s u :
  <[mu := Dict u]> (loop_cells mu wl kd s k)
  = <[mu := Dict u]>
      (<[wl := Numbers (wordLengths s)]>
         (<[kd := Counts (keyDistribution s)]> k)).
Proof. unfold loop_cells. by rewrite list_insert_insert_eq. Qed.

Lemma loop_cells_set_wordLengths s w :
  <[wl := Numbers w]> (loop_cells mu wl kd s k)
  = <[mu := Dict (usage s)]>
      (<[wl := Numbers w]> (<[kd := Counts (keyDistribution s)]> k)).
Proof.
  unfold loop_cells. rewrite list_insert_insert_ne by done.
  by rewrite list_insert_insert_eq.
Qed.

Lemma loop_cells_set_keyDistribution s c :
  <[kd := Counts c]> (loop_cells mu wl kd s k)
  = <[mu := Dict (usage s)]>
      (<[wl := Numbers (wordLengths s)]> (<[kd := Counts c]> k)).
Proof.
  unfold loop_cells. rewrite (list_insert_insert_ne _ kd mu) by done.
  rewrite (list_insert_insert_ne _ kd wl) by done.
  by rewrite list_insert_insert_eq.
Qed.
End loop_facts.

Section block_facts.
Variables (h k : store) (mu wl kd : nat).
Hypothesis Hmu : mu < length k.
Hypothesis Hwl : wl < length k.
Hypothesis Hkd : kd < length k.
Hypothesis Hmw : mu ≠ wl.
Hypothesis Hmk : mu ≠ kd.
Hypothesis Hwk : wl ≠ kd.

Local Abbreviation cells := (loop_cells mu wl kd).

Lemma dict_set_usage (s : scan) (key : string) (x : number) :
  dict_set (length h + mu) key x (h ++ cells s k)
  = Some ((), h ++ <[mu := Dict (<[key := x]> (usage s))]> (cells s k)).
Proof.
  unfold dict_set, load_dict.
  rewrite (run_bind _ _ _ _ _
    (run_bind _ _ _ _ _ (load_new _ _ _ _ (loop_cells_usage k mu wl kd Hmu s)))).
  by apply store_at_new with (c := Dict (usage s)), loop_cells_usage.
Qed.

Lemma count_up_keyDistribution (s : scan) (key : string) :
  count_up (length h + kd) key (h ++ cells s k)
  = Some ((), h ++ <[kd := Counts (<[key := default 0 (keyDistribution s !! key) + 1]>
                                     (keyDistribution s))]> (cells s k)).
Proof.
  unfold count_up, load_counts.
  rewrite (run_bind _ _ _ _ _
    (run_bind _ _ _ _ _
       (load_new _ _ _ _ (loop_cells_keyDistribution k mu wl kd Hkd Hmk Hwk s)))).
  by apply store_at_new with (c := Counts (keyDistribution s)),
    loop_cells_keyDistribution.
Qed.

Lemma push_wordLengths (s : scan) (x : number) :
  push (length h + wl) x (h ++ cells s k)
  = Some ((), h ++ <[wl := Numbers (wordLengths s ++ [x])]> (cells s k)).
Proof.
  unfold push, load_numbers.
  rewrite (run_bind _ _ _ _ _
    (run_bind _ _ _ _ _
       (load_new _ _ _ _ (loop_cells_wordLengths k mu wl kd Hwl Hmw s)))).
  by apply store_at_new with (c := Numbers (wordLengths s)),
    loop_cells_wordLengths.
Qed.

Lemma modifier_block_scan (event : KeyEvent) (s : scan) :
  modifier_block (length h + mu) event (locals_of s) (h ++ cells s k)
  = Some (locals_of (scan_modifier event s),
          h ++ cells (scan_modifier event s) k).
Proof.
  unfold modifier_block, scan_modifier.
  destruct (some_modifier (modifiers event)); [|done].
  destruct (num_gt (timeSinceLast event) (Num 0)).
  - rewrite (run_bind _ _ _ _ _ (dict_set_usage _ _ _)).
    by rewrite loop_cells_set_usage.
  - done.
Qed.

Lemma backspace_block_scan (event : KeyEvent) (s : scan) :
  backspace_block event (locals_of s) (h ++ cells s k)
  = Some (locals_of (scan_backspace event s),
          h ++ cells (scan_backspace event s) k).
Proof.
  unfold backspace_block, scan_backspace. by case_decide.
Qed.

Lemma char_block_scan (event : KeyEvent) (s : scan) :
  char_block (length h + wl) (length h + kd) event (locals_of s)
    (h ++ cells s k)
  = Some (locals_of (scan_char event s), h ++ cells (scan_char event s) k).
Proof.
  unfold char_block, scan_char. case_decide; [|done].
  rewrite (run_bind _ _ _ _ _ (count_up_keyDistribution _ _)).
  rewrite loop_cells_set_keyDistribution by done.
  cbn [l_wordBuffer locals_of].
  destruct (bool_decide (key event = " ") || bool_decide (key event = "Enter"));
    cbn [andb]; [case_bool_decide|]; [| done..].
  set (s1 := {| wordBuffer := wordBuffer s;
                wordLengths := wordLengths s;
                modifierCount := modifierCount s;
                capitalCount := capitalCount s;
                punctuationCount := punctuationCount s;
                backspaceCount := backspaceCount s;
                totalChars := totalChars s;
                keyDistribution :=
                  <[key event := default 0 (keyDistribution s !! key event) + 1]>
                    (keyDistribution s);
                usage := usage s |}).
  change (<[mu := Dict (usage s)]> _) with (cells s1 k).
  rewrite (run_bind _ _ _ _ _ (push_wordLengths s1 _)).
  by rewrite loop_cells_set_wordLengths by done.
Qed.

Lemma loop_body_scan (event : KeyEvent) (s : scan) :
  loop_body (length h + mu) (length h + wl) (length h + kd) (locals_of s) event
    (h ++ cells s k)
  = Some (locals_of (scan_event s event), h ++ cells (scan_event s event) k).
Proof.
  unfold loop_body, scan_event.
  rewrite (run_bind _ _ _ _ _ (modifier_block_scan _ _)).
  rewrite (run_bind _ _ _ _ _ (char_block_scan _ _)).
  apply backspace_block_scan.
Qed.

Lemma loop_scan (events : list KeyEvent) (s : scan) :
  loop (length h + mu) (length h + wl) (length h + kd) (locals_of s) events
    (h ++ cells s k)
  = Some (locals_of (foldl scan_event s events),
          h ++ cells (foldl scan_event s events) k).
Proof.
  revert s. induction events as [|event events IH]; intros s; [done|].
  cbn [loop foldl].
  rewrite (run_bind _ _ _ _ _ (loop_body_scan _ _)). apply IH.
Qed.
End block_facts.

Lemma get_number_new h k i o f x :
  k !! i = Some (Obj o) → o !! f = Some (VNum x) →
  get_number (length h + i) f (h ++ k) = Some (x, h ++ k).
Proof.
  intros E F. unfold get_number, load_obj.
  rewrite (run_bind _ _ _ _ _ (run_bind _ _ _ _ _ (load_new _ _ _ _ E))).
  cbn. by rewrite F.
Qed.

Lemma sort_in_place_new h k i a :
  k !! i = Some (Numbers a) →
  sort_in_place (length h + i) (h ++ k)
  = Some ((), h ++ <[i := Numbers (Array_sort by_difference a)]> k).
Proof.
  intros E. unfold sort_in_place.
  rewrite (run_bind _ _ _ _ _ (load_numbers_new _ _ _ _ E)).
  by apply store_at_new with (c := Numbers a).
Qed.

Lemma push_new h k i a x :
  k !! i = Some (Numbers a) →
  push (length h + i) x (h ++ k) = Some ((), h ++ <[i := Numbers (a ++ [x])]> k).
Proof.
  intros E. unfold push.
  rewrite (run_bind _ _ _ _ _ (load_numbers_new _ _ _ _ E)).
  by apply store_at_new with (c := Numbers a).
Qed.

Lemma bind_assoc {A B C} (m : M A) (f : A → M B) (g : B → M C) (h : store) :
  ((m ≫= f) ≫= g) h = (m ≫= λ x, f x ≫= g) h.
Proof. unfold mbind, M_bind. by destruct (m h) as [[x h']|]. Qed.

Lemma finalize_new h k i (s : scan) :
  k !! i = Some (Numbers (wordLengths s)) →
  (if decide (0 < String.length (l_wordBuffer (locals_of s)))
   then push (length h + i)
          (of_nat (String.length (l_wordBuffer (locals_of s))))
   else mret ()) (h ++ k)
  = Some ((), h ++ <[i := Numbers (final_wordLengths s)]> k).
Proof.
  intros E. unfold final_wordLengths. cbn [l_wordBuffer locals_of].
  case_decide.
  - by apply push_new.
  - by rewrite list_insert_id.
Qed.

Lemma field_number_lookup (o : gmap string value) f x :
  o !! f = Some (VNum x) → field_number o f = Some x.
Proof. intros E. unfold field_number. by rewrite E. Qed.

Lemma field_dict_new h k (o : gmap string value) f i d :
  o !! f = Some (VRef (length h + i)) → k !! i = Some (Dict d) →
  field_dict (h ++ k) o f = Some d.
Proof. intros E F. unfold field_dict. by rewrite E, lookup_new, F. Qed.

Lemma field_numbers_new h k (o : gmap string value) f i a :
  o !! f = Some (VRef (length h + i)) → k !! i = Some (Numbers a) →
  field_numbers (h ++ k) o f = Some a.
Proof. intros E F. unfold field_numbers. by rewrite E, lookup_new, F. Qed.

Lemma read_pattern_fields h l o p :
  h !! l = Some (Obj o) →
  field_number o "averageSpeed" = Some (averageSpeed p) →
  field_dict h o "keyPressDistribution" = Some (keyPressDistribution p) →
  field_dict h o "modifierUsage" = Some (modifierUsage p) →
  field_numbers h o "timingPatterns" = Some (timingPatterns p) →
  field_dict h o "specialKeyFrequency" = Some (specialKeyFrequency p) →
  field_number o "backspaceFrequency" = Some (backspaceFrequency p) →
  field_number o "averageWordLength" = Some (averageWordLength p) →
  field_number o "rhythmConsistency" = Some (rhythmConsistency p) →
  field_number o "modifierFrequency" = Some (modifierFrequency p) →
  field_number o "capitalFrequency" = Some (capitalFrequency p) →
  field_number o "punctuationFrequency" = Some (punctuationFrequency p) →
  field_number o "burstSpeed" = Some (burstSpeed p) →
  field_number o "pauseFrequency" = Some (pauseFrequency p) →
  field_number o "speedVariability" = Some (speedVariability p) →
  field_number o "keyPressForce" = Some (keyPressForce p) →
  field_number o "errorRate" = Some (errorRate p) →
  read_pattern h l = Some p.
Proof.
  intros E. unfold read_pattern. rewrite E.
  repeat (let F := fresh in intros F; rewrite F; clear F).
  by destruct p.
Qed.

Ltac run tac :=
  match goal with
  | |- context [mbind ?f ?m (?h ++ ?k)] =>
      let H := fresh in
      eassert (m (h ++ k) = Some _) as H by tac;
      rewrite (run_bind m f (h ++ k) _ _ H); clear H;
      cbn [length app insert list_insert]; rewrite ?bind_assoc
  end.
Ltac run_alloc := run ltac:(apply alloc_new).
Ltac run_set_field := run ltac:(apply set_field_new; reflexivity).
Ltac run_load_numbers := run ltac:(apply load_numbers_new; reflexivity).
Ltac lookup_field :=
  repeat (rewrite lookup_insert_ne by done);
  first [apply lookup_insert_eq | reflexivity].
Ltac run_get_number :=
  run ltac:(eapply get_number_new; [reflexivity | lookup_field]).

Ltac loop_step :=
  change locals_init with (locals_of scan_init);
  match goal with
  | |- loop _ _ _ _ _ (?h ++ ?k) = _ =>
      change (h ++ k) with (h ++ loop_cells 1 7 8 scan_init k)
  end;
  apply loop_scan; cbn [length]; lia.
Ltac run_loop :=
  run loop_step; unfold loop_cells; cbn [insert list_insert].

Ltac run_load_events := run ltac:(by apply load_events_old).

(** The statements up to the end of the event loop. *)
Ltac run_to_loop :=
  unfold calculateTypingPattern_in_store;
  match goal with |- context [mbind _ _ ?h] => rewrite <- (app_nil_r h) at 1 end;
  do 5 run_alloc; run_load_events;
  rewrite decide_False by lia;
  run_alloc; run_set_field; run_load_numbers; run_alloc;
  run ltac:(apply sort_in_place_new; reflexivity);
  run_load_numbers; run_set_field;
  run_get_number; run_load_numbers; run_set_field;
  run_load_numbers; run_get_number; run_set_field;
  run_get_number; run_load_numbers; run_set_field;
  run_load_numbers; run_set_field;
  run_alloc; run_alloc; run_load_events;
  run_loop;
  run ltac:(apply finalize_new; reflexivity);
  run ltac:(apply load_counts_new; reflexivity);
  run_alloc; run_set_field; run_get_number; run_set_field;
  run_load_numbers.

(** The statements after the trimmed mean of the word lengths. *)
Ltac run_to_end := run_load_events; do 4 run_set_field; reflexivity.

Ltac read_back events :=
  eapply read_pattern_fields; [by rewrite lookup_new|..];
  rewrite calculateTypingPattern_unfold by done;
  cbn [averageSpeed keyPressDistribution modifierUsage timingPatterns
       specialKeyFrequency backspaceFrequency averageWordLength
       rhythmConsistency modifierFrequency capitalFrequency
       punctuationFrequency burstSpeed pauseFrequency speedVariability
       keyPressForce errorRate];
  rewrite ?(decide_True
              (P := 0 < length (final_wordLengths (scan_events events))))
    by done;
  rewrite ?(decide_False
              (P := 0 < length (final_wordLengths (scan_events events))))
    by done;
  first
    [ apply field_number_lookup; lookup_field
    | eapply field_dict_new; [lookup_field | reflexivity]
    | eapply field_numbers_new; [lookup_field | reflexivity] ].

Lemma run_short (h : store) (ev : loc) (events : list KeyEvent) :
  h !! ev = Some (Events events) → length events < 2 →
  ∃ k, calculateTypingPattern_in_store ev h = Some (length h + 4, h ++ k)
       ∧ read_pattern (h ++ k) (length h + 4)
         = Some (calculateTypingPattern events).
Proof.
  intros Hev Hlen. eexists. split.
  - unfold calculateTypingPattern_in_store.
    rewrite <- (app_nil_r h) at 1.
    do 5 run_alloc. run_load_events.
    rewrite decide_True by done. reflexivity.
  - rewrite calculateTypingPattern_short by done.
    eapply read_pattern_fields; [by rewrite lookup_new|..];
      cbn [default_pattern averageSpeed keyPressDistribution modifierUsage
           timingPatterns specialKeyFrequency backspaceFrequency
           averageWordLength rhythmConsistency modifierFrequency
           capitalFrequency punctuationFrequency burstSpeed pauseFrequency
           speedVariability keyPressForce errorRate];
      first
        [ apply field_number_lookup; reflexivity
        | eapply field_dict_new; reflexivity
        | eapply field_numbers_new; reflexivity ].
Qed.

Lemma run_long (h : store) (ev : loc) (events : list KeyEvent) :
  h !! ev = Some (Events events) → 2 ≤ length events →
  ∃ k, calculateTypingPattern_in_store ev h = Some (length h + 4, h ++ k)
       ∧ read_pattern (h ++ k) (length h + 4)
         = Some (calculateTypingPattern events).
Proof.
  intros Hev Hlen.
  destruct (decide (0 < length (final_wordLengths (scan_events events))))
    as [Hwords|Hwords].
  - eexists. split.
    + run_to_loop. rewrite decide_True by done. rewrite ?bind_assoc.
      run ltac:(apply sort_in_place_new; reflexivity).
      run_load_numbers. run_set_field. run_to_end.
    + read_back events.
  - eexists. split.
    + run_to_loop. rewrite decide_False by done.
      change (mret ()) with (@mret M _ _ ()). 
      rewrite (run_bind _ _ _ _ _ eq_refl). run_to_end.
    + read_back events.
Qed.

(** The extractor over the store: it returns a new object that reads back
    as the profile of the pure function, in a store that extends the one
    it was given. *)
Lemma calculateTypingPattern_in_store_spec (h : store) (ev : loc)
    (events : list KeyEvent) :
  h !! ev = Some (Events events) →
  ∃ k, calculateTypingPattern_in_store ev h = Some (length h + 4, h ++ k)
       ∧ read_pattern (h ++ k) (length h + 4)
         = Some (calculateTypingPattern events).
Proof.
  intros Hev. destruct (decide (length events < 2)).
  - by apply run_short.
  - apply run_long; [done|lia].
Qed.

Lemma comparePatterns_in_store_spec (h : store) (l1 l2 : loc)
    (p1 p2 : TypingPattern) :
  read_pattern h l1 = Some p1 → read_pattern h l2 = Some p2 →
  comparePatterns_in_store l1 l2 h
  = Some (comparePatterns p1 p2, h ++ [Keys (allKeys p1 p2)]).
Proof.
  intros H1 H2. unfold comparePatterns_in_store, load_pattern.
  unfold mbind at 1, M_bind at 1. rewrite H1. cbn [mbind option_bind].
  unfold mbind at 1, M_bind at 1. rewrite H2. cbn [mbind option_bind].
  reflexivity.
Qed.

(** C9.  Run over a store of shared objects, neither core function
    changes an object that existed when it was called: the store it leaves
    has every old object at its old location with its old contents, in
    particular the event array that [calculateTypingPattern] was given and
    the two profiles that [comparePatterns] was given.  The profile that
    [calculateTypingPattern] returns is a new object, and it reads back as
    the profile of the pure function. *)
Theorem core_leaves_its_arguments_unchanged :
  (∀ (h : store) (ev : loc) (events : list KeyEvent),
     h !! ev = Some (Events events) →
     ∃ (pattern : loc) (h' : store),
       calculateTypingPattern_in_store ev h = Some (pattern, h')
       ∧ (∀ l c, h !! l = Some c → h' !! l = Some c)
       ∧ h !! pattern = None
       ∧ read_pattern h' pattern = Some (calculateTypingPattern events))
  ∧ (∀ (h : store) (l1 l2 : loc) (p1 p2 : TypingPattern),
       read_pattern h l1 = Some p1 → read_pattern h l2 = Some p2 →
       ∃ h' : store,
         comparePatterns_in_store l1 l2 h = Some (comparePatterns p1 p2, h')
         ∧ (∀ l c, h !! l = Some c → h' !! l = Some c)).
Proof.
  split.
  - intros h ev events Hev.
    destruct (calculateTypingPattern_in_store_spec h ev events Hev)
      as (k & Hrun & Hread).
    exists (length h + 4), (h ++ k). repeat split; [done| |..|done].
    + intros l c Hl. by apply lookup_app_l_Some.
    + apply lookup_ge_None. lia.
  - intros h l1 l2 p1 p2 H1 H2. eexists. split.
    + by apply comparePatterns_in_store_spec.
    + intros l c Hl. by apply lookup_app_l_Some.
Qed.

Lemma core_leaves_its_arguments_unchanged_witness :
  (∃ (pattern : loc) (h' : store),
     calculateTypingPattern_in_store 0 sample_store = Some (pattern, h')
     ∧ (∀ l c, sample_store !! l = Some c → h' !! l = Some c)
     ∧ sample_store !! pattern = None
     ∧ read_pattern h' pattern
       = Some (calculateTypingPattern [press "a" 0; press "b" 100]))
  ∧ (∃ h' : store,
       comparePatterns_in_store 5 5 sample_store
       = Some (comparePatterns default_pattern default_pattern, h')
       ∧ (∀ l c, sample_store !! l = Some c → h' !! l = Some c)).
Proof.
  split.
  - apply (proj1 core_leaves_its_arguments_unchanged sample_store 0
             [press "a" 0; press "b" 100]).
    reflexivity.
  - apply (proj2 core_leaves_its_arguments_unchanged sample_store 5 5
             default_pattern default_pattern); reflexivity.
Defined.

(** * Further properties *)

(** ** The feature extractor *)

(** X1.  The pause frequency is a ratio in [0,1] on every input: the
    intervals above the threshold are counted among all intervals, of
    which there is at least one when the early return is not taken. *)
Theorem pauseFrequency_unit_interval (events : list KeyEvent) :
  unit_interval (pauseFrequency (calculateTypingPattern events)).
Proof.
  destruct (decide (length events < 2)) as [Hlt|Hge].
  - rewrite calculateTypingPattern_short by done. simpl. lra.
  - rewrite calculateTypingPattern_unfold by lia. cbn [pauseFrequency].
    apply ratio_of_nat_unit; [apply filter_length_le|].
    rewrite intervals_of_length. lia.
Qed.

Section range_facts.
Local Open Scope R_scope.

Lemma sum_in_range_from (lo hi : R) (l : list number) (a : R) :
  Forall (in_range lo hi) l →
  ∃ s, foldl num_add (Num a) l = Num s
       ∧ a + INR (length l) * lo <= s <= a + INR (length l) * hi.
Proof.
  intros Hl. revert a. induction Hl as [|x l Hx _ IH]; intros a.
  - exists a. split; [done|]. simpl. lra.
  - destruct x as [r| | |]; try done. cbn [foldl num_add].
    destruct (IH (a + r)) as (s & -> & Hs). exists s. split; [done|].
    cbn [length]. rewrite S_INR. simpl in Hx. lra.
Qed.

(** The mean of a non-empty array lies between any bounds of its
    elements. *)
Lemma array_mean_in_range (lo hi : R) (l : list number) :
  Forall (in_range lo hi) l → l ≠ [] → in_range lo hi (array_mean l).
Proof.
  intros Hl Hne. unfold array_mean, array_sum, of_nat.
  destruct (sum_in_range_from lo hi l 0 Hl) as (s & -> & Hs).
  assert (0 < INR (length l)) as Hn.
  { apply lt_0_INR. destruct l; [done|simpl; lia]. }
  rewrite num_div_Num by lra. simpl. split.
  - apply (Rmult_le_reg_r (INR (length l))); [done|].
    unfold Rdiv. rewrite Rmult_assoc, Rinv_l by lra. lra.
  - apply (Rmult_le_reg_r (INR (length l))); [done|].
    unfold Rdiv. rewrite Rmult_assoc, Rinv_l by lra. lra.
Qed.
End range_facts.

Lemma trimmed_nonempty (l : list number) : 10 ≤ length l → trimmed l ≠ [].
Proof.
  intros Hn. rewrite trimmed_long by done. intros E.
  assert (length (take (length l - length l `div` 10 - length l `div` 10)
                    (drop (length l `div` 10) l)) = 0) as E' by by rewrite E.
  rewrite length_take, length_drop in E'.
  pose proof (Nat.Div0.mul_div_le (length l) 10). lia.
Qed.





(** ** The event loop *)

Lemma scan_modifier_counters (s : scan) (event : KeyEvent) :
  modifierCount (scan_modifier event s)
  = modifierCount s + (if decide (modified event) then 1 else 0)
  ∧ capitalCount (scan_modifier event s) = capitalCount s
  ∧ punctuationCount (scan_modifier event s) = punctuationCount s
  ∧ backspaceCount (scan_modifier event s) = backspaceCount s.
Proof.
  unfold scan_modifier.
  destruct (decide (modified event)) as [Hm|Hm]; unfold modified in Hm.
  - rewrite Hm. cbn. repeat split; lia.
  - apply not_true_is_false in Hm. rewrite Hm. repeat split; lia.
Qed.

Lemma scan_char_counters (s : scan) (event : KeyEvent) :
  modifierCount (scan_char event s) = modifierCount s
  ∧ capitalCount (scan_char event s)
    = capitalCount s + (if decide (capital_key event) then 1 else 0)
  ∧ punctuationCount (scan_char event s)
    = punctuationCount s + (if decide (punctuation_key event) then 1 else 0)
  ∧ backspaceCount (scan_char event s) = backspaceCount s.
Proof.
  assert (∀ (b : bool) (P : Prop) `{!Decision P} (n : nat),
            (P ↔ String.length (key event) = 1 ∧ b = true) →
            String.length (key event) = 1 →
            (if b then S n else n) = n + (if decide P then 1 else 0))
    as Hcount.
  { intros b P ? n HP Hone. case_decide as HPd.
    - apply HP in HPd as [_ ->]. lia.
    - destruct b; [|lia]. by destruct HPd; apply HP. }
  unfold scan_char.
  destruct (decide (String.length (key event) = 1)) as [Hone|Hone]; cbn.
  - repeat split; by apply Hcount.
  - rewrite (decide_False (P := capital_key event)),
      (decide_False (P := punctuation_key event));
      [repeat split; lia|by intros [? _]..].
Qed.

Lemma scan_backspace_counters (s : scan) (event : KeyEvent) :
  modifierCount (scan_backspace event s) = modifierCount s
  ∧ capitalCount (scan_backspace event s) = capitalCount s
  ∧ punctuationCount (scan_backspace event s) = punctuationCount s
  ∧ backspaceCount (scan_backspace event s)
    = backspaceCount s + (if decide (key event = "Backspace") then 1 else 0).
Proof.
  unfold scan_backspace.
  destruct (decide (key event = "Backspace")); cbn; repeat split; lia.
Qed.

Lemma scan_event_counters (s : scan) (event : KeyEvent) :
  modifierCount (scan_event s event)
  = modifierCount s + (if decide (modified event) then 1 else 0)
  ∧ capitalCount (scan_event s event)
    = capitalCount s + (if decide (capital_key event) then 1 else 0)
  ∧ punctuationCount (scan_event s event)
    = punctuationCount s + (if decide (punctuation_key event) then 1 else 0)
  ∧ backspaceCount (scan_event s event)
    = backspaceCount s + (if decide (key event = "Backspace") then 1 else 0).
Proof.
  unfold scan_event.
  destruct (scan_backspace_counters
              (scan_char event (scan_modifier event s)) event)
    as (-> & -> & -> & ->).
  destruct (scan_char_counters (scan_modifier event s) event)
    as (-> & -> & -> & ->).
  destruct (scan_modifier_counters s event) as (-> & -> & -> & ->).
  done.
Qed.

Lemma count_snoc {A} (P : A → Prop) `{!∀ x, Decision (P x)} (l : list A) x :
  length (filter P (l ++ [x]))
  = length (filter P l) + (if decide (P x) then 1 else 0).
Proof.
  rewrite filter_app, length_app. f_equal.
  rewrite filter_cons, filter_nil. by case_decide.
Qed.

Lemma scan_events_counters (events : list KeyEvent) :
  let s := scan_events events in
  modifierCount s = length (filter modified events)
  ∧ capitalCount s = length (filter capital_key events)
  ∧ punctuationCount s = length (filter punctuation_key events)
  ∧ backspaceCount s = presses "Backspace" events.
Proof.
  induction events as [|event events IH] using rev_ind; [done|].
  cbv zeta in *. destruct IH as (Hm & Hc & Hp & Hb).
  rewrite scan_events_app.
  destruct (scan_event_counters (scan_events events) event)
    as (-> & -> & -> & ->).
  unfold presses. rewrite !count_snoc, Hm, Hc, Hp, Hb. done.
Qed.

(** X4.  What the four ratio fields count.  From two events on,
    [modifierFrequency] is the share of events with a modifier flag,
    [capitalFrequency] and [punctuationFrequency] are the shares of
    capital letters and punctuation marks among the single-character
    presses, and [backspaceFrequency] is the number of Backspace presses
    over the number of single-character presses; each is 0 when its
    denominator is. *)
Theorem ratio_fields_count_presses (events : list KeyEvent) :
  2 ≤ length events →
  let p := calculateTypingPattern events in
  let characters := length (filter single_character events) in
  modifierFrequency p
  = guarded_ratio (length (filter modified events)) (length events)
  ∧ capitalFrequency p
    = guarded_ratio (length (filter capital_key events)) characters
  ∧ punctuationFrequency p
    = guarded_ratio (length (filter punctuation_key events)) characters
  ∧ backspaceFrequency p
    = guarded_ratio (presses "Backspace" events) characters.
Proof.
  intros Hlen. cbv zeta. rewrite calculateTypingPattern_unfold by done.
  cbn [modifierFrequency capitalFrequency punctuationFrequency
       backspaceFrequency].
  destruct (scan_events_counters events) as (-> & -> & -> & ->).
  by rewrite totalChars_count.
Qed.

Lemma ratio_fields_count_presses_witness :
  let events := [shifted "A" 0; press "Backspace" 90; press "." 110] in
  let p := calculateTypingPattern events in
  let characters := length (filter single_character events) in
  modifierFrequency p
  = guarded_ratio (length (filter modified events)) (length events)
  ∧ capitalFrequency p
    = guarded_ratio (length (filter capital_key events)) characters
  ∧ punctuationFrequency p
    = guarded_ratio (length (filter punctuation_key events)) characters
  ∧ backspaceFrequency p
    = guarded_ratio (presses "Backspace" events) characters.
Proof.
  apply (ratio_fields_count_presses
           [shifted "A" 0; press "Backspace" 90; press "." 110]).
  simpl. lia.
Defined.

Lemma usage_step (s : scan) (event : KeyEvent) :
  usage (scan_event s event)
  = if decide (recorded_for (key event) event)
    then <[key event := timeSinceLast event]> (usage s) else usage s.
Proof.
  assert (usage (scan_event s event) = usage (scan_modifier event s)) as ->.
  { unfold scan_event, scan_backspace, scan_char.
    by repeat case_decide. }
  unfold scan_modifier.
  destruct (decide (recorded_for (key event) event)) as [Hr|Hr];
    unfold recorded_for, modified in Hr.
  - destruct Hr as (_ & -> & ->). done.
  - destruct (some_modifier (modifiers event)); cbn [usage]; [|done].
    destruct (num_gt (timeSinceLast event) (Num 0)); [|done].
    by destruct Hr.
Qed.

Lemma last_filter_snoc {A} (P : A → Prop) `{!∀ x, Decision (P x)}
    (l : list A) (x : A) :
  last (filter P (l ++ [x])) = if decide (P x) then Some x else last (filter P l).
Proof.
  rewrite filter_app, filter_cons, filter_nil. case_decide.
  - by rewrite last_snoc.
  - by rewrite app_nil_r.
Qed.

Lemma usage_lookup (events : list KeyEvent) (k : string) :
  usage (scan_events events) !! k
  = timeSinceLast <$> last (filter (recorded_for k) events).
Proof.
  induction events as [|event events IH] using rev_ind; [done|].
  rewrite scan_events_app, usage_step, last_filter_snoc.
  destruct (decide (key event = k)) as [<-|Hne].
  - case_decide; [by rewrite lookup_insert_eq|done].
  - rewrite (decide_False (P := recorded_for k event))
      by (by intros [? _]).
    case_decide; [by rewrite lookup_insert_ne|done].
Qed.



(** ** Words *)

Lemma string_length_append (s1 s2 : string) :
  String.length (s1 +:+ s2) = String.length s1 + String.length s2.
Proof. induction s1 as [|c s1 IH]; [done|]. simpl. by rewrite IH. Qed.

Lemma substring_length_le (s : string) (n : nat) :
  String.length (String.substring 0 n s) ≤ String.length s.
Proof.
  revert n. induction s as [|c s IH]; intros [|n]; simpl; try lia.
  specialize (IH n). lia.
Qed.

Lemma drop_last_length (s : string) :
  String.length (drop_last s) ≤ String.length s.
Proof. apply substring_length_le. Qed.

Lemma scan_modifier_words (s : scan) (event : KeyEvent) :
  wordBuffer (scan_modifier event s) = wordBuffer s
  ∧ wordLengths (scan_modifier event s) = wordLengths s
  ∧ totalChars (scan_modifier event s) = totalChars s.
Proof. unfold scan_modifier. by destruct (some_modifier _). Qed.

(** The word buffer and the list of word lengths after an event depend
    on the event's key and on the buffer and the list before it, and on
    nothing else. *)
Lemma scan_event_words (s s' : scan) (event event' : KeyEvent) :
  key event = key event' →
  wordBuffer s = wordBuffer s' → wordLengths s = wordLengths s' →
  wordBuffer (scan_event s event) = wordBuffer (scan_event s' event')
  ∧ wordLengths (scan_event s event) = wordLengths (scan_event s' event').
Proof.
  intros Hk Hb Hl. unfold scan_event.
  destruct (scan_modifier_words s event) as (Hb1 & Hl1 & _).
  destruct (scan_modifier_words s' event') as (Hb2 & Hl2 & _).
  revert Hb1 Hl1 Hb2 Hl2.
  generalize (scan_modifier event s) (scan_modifier event' s').
  intros t t' Hb1 Hl1 Hb2 Hl2.
  assert (wordBuffer t = wordBuffer t') as Hbt by congruence.
  assert (wordLengths t = wordLengths t') as Hlt by congruence.
  unfold scan_backspace, scan_char. rewrite <- Hk.
  destruct (decide (key event = "Backspace")),
    (decide (String.length (key event) = 1)); cbn; by rewrite ?Hbt, ?Hlt.
Qed.

Lemma scan_event_untyped (s : scan) (event : KeyEvent) :
  ¬ typed event →
  wordBuffer (scan_event s event) = wordBuffer s
  ∧ wordLengths (scan_event s event) = wordLengths s.
Proof.
  intros Hn. unfold scan_event, scan_backspace, scan_char.
  rewrite decide_False by (intros ?; apply Hn; by right).
  rewrite decide_False by (intros ?; apply Hn; by left).
  destruct (scan_modifier_words s event) as (? & ? & _). done.
Qed.

Lemma scan_events_typed (events : list KeyEvent) :
  wordBuffer (scan_events events)
  = wordBuffer (scan_events (filter typed events))
  ∧ wordLengths (scan_events events)
    = wordLengths (scan_events (filter typed events)).
Proof.
  induction events as [|event events [IHb IHl]] using rev_ind; [done|].
  rewrite filter_app, filter_cons, filter_nil, scan_events_app.
  case_decide as Ht.
  - rewrite scan_events_app. by apply scan_event_words.
  - rewrite app_nil_r. destruct (scan_event_untyped (scan_events events) event Ht)
      as [-> ->]. done.
Qed.

(** X6.  Only single characters and Backspace reach the word buffer:
    dropping every other event (Shift, Tab, the arrow keys, ...) leaves
    [averageWordLength] as it is.  Enter is among the dropped keys, since
    its name has five characters: the test for it sits inside the branch
    for keys of length one and never fires, so Enter does not end a
    word. *)
Theorem averageWordLength_ignores_named_keys (events : list KeyEvent) :
  2 ≤ length (filter typed events) →
  averageWordLength (calculateTypingPattern events)
  = averageWordLength (calculateTypingPattern (filter typed events))
  ∧ Forall (λ event, key event = "Enter" → ¬ typed event) events.
Proof.
  intros Hlen. split.
  - pose proof (length_filter typed events) as Hle.
    rewrite !calculateTypingPattern_unfold by lia.
    cbn [averageWordLength]. unfold final_wordLengths.
    by destruct (scan_events_typed events) as [<- <-].
  - apply Forall_forall. intros event _ Hk [Hone|Hb].
    + unfold single_character in Hone. by rewrite Hk in Hone.
    + by rewrite Hk in Hb.
Qed.

Lemma averageWordLength_ignores_named_keys_witness :
  let events :=
    [press "a" 0; press "b" 90; press "Enter" 110; press "c" 100] in
  averageWordLength (calculateTypingPattern events)
  = averageWordLength (calculateTypingPattern (filter typed events))
  ∧ Forall (λ event, key event = "Enter" → ¬ typed event) events.
Proof.
  apply (averageWordLength_ignores_named_keys
           [press "a" 0; press "b" 90; press "Enter" 110; press "c" 100]).
  vm_compute. lia.
Defined.

Section word_facts.
Local Open Scope R_scope.

(** The invariant of the loop on the words: the buffer holds at most as
    many characters as were counted, and every recorded length is the
    length of a non-empty buffer. *)
Lemma scan_event_word_bounds (s : scan) (event : KeyEvent) :
  (String.length (wordBuffer s) ≤ totalChars s)%nat →
  Forall (in_range 1 (INR (totalChars s))) (wordLengths s) →
  (String.length (wordBuffer (scan_event s event))
   ≤ totalChars (scan_event s event))%nat
  ∧ Forall (in_range 1 (INR (totalChars (scan_event s event))))
      (wordLengths (scan_event s event)).
Proof.
  intros Hb Hl.
  assert (∀ n m : nat, (n ≤ m)%nat →
            Forall (in_range 1 (INR n)) (wordLengths s) →
            Forall (in_range 1 (INR m)) (wordLengths s)) as Hmono.
  { intros n m Hnm Hf. eapply Forall_impl; [exact Hf|].
    intros [x| | |]; simpl; try done.
    intros [? ?]. split; [done|]. apply le_INR in Hnm. lra. }
  unfold scan_event.
  destruct (scan_modifier_words s event) as (Hb1 & Hl1 & Ht1).
  revert Hb1 Hl1 Ht1. generalize (scan_modifier event s).
  intros t Hb1 Hl1 Ht1. rewrite <- Hb1, <- Hl1, <- Ht1 in *. clear Hb1 Hl1 Ht1.
  unfold scan_backspace, scan_char.
  destruct (decide (key event = "Backspace")) as [Hk|Hk],
    (decide (String.length (key event) = 1%nat)) as [Hone|Hone]; cbn [wordBuffer wordLengths totalChars];
    try (by rewrite Hk in Hone).
  - split; [|done]. case_decide; [|done].
    pose proof (drop_last_length (wordBuffer t)). lia.
  - destruct (bool_decide (key event = " ") || bool_decide (key event = "Enter")).
    + cbn [wordBuffer wordLengths totalChars andb]. case_decide as Hpos.
      * rewrite bool_decide_eq_true_2 by done. split; [cbn [String.length]; lia|].
        apply Forall_app. split; [by apply (Hmono (totalChars t)); [lia|]|].
        apply Forall_singleton. unfold of_nat. cbn [in_range]. split.
        -- change 1 with (INR 1). by apply le_INR.
        -- apply le_INR. lia.
      * rewrite bool_decide_eq_false_2 by done. split; [lia|].
        by apply (Hmono (totalChars t)); [lia|].
    + cbn [wordBuffer wordLengths totalChars andb]. split.
      * rewrite string_length_append, Hone. lia.
      * by apply (Hmono (totalChars t)); [lia|].
  - done.
Qed.

Lemma scan_events_word_bounds (events : list KeyEvent) :
  (String.length (wordBuffer (scan_events events))
   ≤ totalChars (scan_events events))%nat
  ∧ Forall (in_range 1 (INR (totalChars (scan_events events))))
      (wordLengths (scan_events events)).
Proof.
  induction events as [|event events [IHb IHl]] using rev_ind.
  - split; [simpl; lia|constructor].
  - rewrite scan_events_app. by apply scan_event_word_bounds.
Qed.

Lemma final_wordLengths_bounds (events : list KeyEvent) :
  Forall (in_range 1 (INR (totalChars (scan_events events))))
    (final_wordLengths (scan_events events)).
Proof.
  destruct (scan_events_word_bounds events) as [Hb Hl].
  unfold final_wordLengths. case_decide as Hpos; [|done].
  apply Forall_app. split; [done|]. apply Forall_singleton.
  unfold of_nat. cbn [in_range]. split.
  - change 1 with (INR 1). by apply le_INR.
  - by apply le_INR.
Qed.

End word_facts.

Lemma trimmed_lengths_nonempty (l : list number) :
  l ≠ [] → trimmed_lengths l ≠ [].
Proof.
  intros Hne. unfold trimmed_lengths, floor_frac.
  rewrite Nat.mul_1_r, Array_sort_length.
  assert (0 < length l) as Hpos by (destruct l; [done|simpl; lia]).
  assert (length (Array_sort by_difference l) = length l) as Hlen
    by apply Array_sort_length.
  revert Hlen. generalize (Array_sort by_difference l). intros sorted Hlen.
  pose proof (Nat.Div0.mul_div_le (length l) 10) as Hdiv.
  case_decide as Hz.
  - rewrite Hz. rewrite slice_from, drop_0. intros ->. simpl in Hlen. lia.
  - rewrite slice_both_ends by lia. intros E.
    assert (length (take (length sorted - length l `div` 10 - length l `div` 10)
                      (drop (length l `div` 10) sorted)) = 0) as E'
      by by rewrite E.
    rewrite length_take, length_drop in E'. lia.
Qed.

Lemma trimmed_lengths_subset (P : number → Prop) (l : list number) :
  Forall P l → Forall P (trimmed_lengths l).
Proof.
  intros Hl. unfold trimmed_lengths, slice.
  apply Forall_take, Forall_drop. by rewrite Array_sort_perm.
Qed.


(** X7.  [averageWordLength] is never [NaN]: it is 0 when no word was
    typed, and otherwise a finite number between 1 and the number of
    single-character presses. *)
Theorem averageWordLength_range (events : list KeyEvent) :
  let p := calculateTypingPattern events in
  averageWordLength p = Num 0
  ∨ in_range 1 (INR (length (filter single_character events)))
      (averageWordLength p).
Proof.
  cbv zeta. destruct (decide (length events < 2)) as [Hshort|Hlong].
  - left. by rewrite calculateTypingPattern_short.
  - rewrite calculateTypingPattern_unfold by lia. cbn [averageWordLength].
    case_decide as Hpos; [right|by left].
    rewrite <- totalChars_count. apply array_mean_in_range.
    + apply trimmed_lengths_subset, final_wordLengths_bounds.
    + apply trimmed_lengths_nonempty. intros E. rewrite E in Hpos.
      simpl in Hpos. lia.
Qed.

(** ** Timing *)

Section steady_facts.
Local Open Scope R_scope.

Lemma in_range_point (t : R) (a : number) : in_range t t a → a = Num t.
Proof. destruct a as [x| | |]; simpl; try done. intros ?. f_equal. lra. Qed.

Lemma replicate_in_range (n : nat) (t : R) :
  Forall (in_range t t) (replicate n (Num t)).
Proof. apply Forall_replicate. simpl. lra. Qed.

Lemma array_mean_replicate (n : nat) (t : R) :
  (0 < n)%nat → array_mean (replicate n (Num t)) = Num t.
Proof.
  intros Hn. apply in_range_point, array_mean_in_range.
  - apply replicate_in_range.
  - destruct n; [lia|done].
Qed.

Lemma variance_replicate (n : nat) (t : R) :
  (0 < n)%nat → variance_of (replicate n (Num t)) (Num t) = Num 0.
Proof.
  intros Hn. unfold variance_of, of_nat.
  assert (∀ a, foldl (λ acc val, num_add acc (Math_pow_2 (num_sub val (Num t))))
                 (Num a) (replicate n (Num t)) = Num a) as ->.
  { clear Hn. induction n as [|n IH]; intros a; [done|].
    cbn [replicate foldl num_add num_sub num_neg Math_pow_2].
    replace (a + (t + - t) * (t + - t)) with a by lra. apply IH. }
  rewrite length_replicate, num_div_Num.
  - f_equal. lra.
  - apply not_0_INR. lia.
Qed.

Lemma array_get_replicate (n i : nat) (c : number) :
  (i < n)%nat → array_get (replicate n c) i = c.
Proof. intros Hi. unfold array_get. by rewrite lookup_replicate_2. Qed.

Lemma no_pause_in_replicate (n : nat) (t : R) :
  0 < t →
  List.filter (λ i, num_gt i (num_mul (Num t) (Num 2))) (replicate n (Num t))
  = [].
Proof.
  intros Ht. induction n as [|n IH]; [done|].
  cbn [replicate List.filter num_mul]. rewrite num_gt_Num.
  by rewrite bool_decide_eq_false_2 by lra.
Qed.

Lemma window_avg_in_range (lo hi : R) (l : list number) (w i : nat) :
  Forall (in_range lo hi) l → (0 < w)%nat → (i + w ≤ length l)%nat →
  in_range lo hi (window_avg l w i).
Proof.
  intros Hl Hw Hi. unfold window_avg.
  rewrite slice_window by lia.
  replace (i + w - i)%nat with w by lia.
  assert (length (take w (drop i l)) = w) as Hlen
    by (rewrite length_take, length_drop; lia).
  rewrite <- Hlen at 2. apply array_mean_in_range.
  - by apply Forall_take, Forall_drop.
  - intros E. rewrite E in Hlen. simpl in Hlen. lia.
Qed.

Lemma in_range_finite (lo hi : R) (a : number) : in_range lo hi a → finite a.
Proof. destruct a as [x| | |]; try done. by exists x. Qed.

Lemma min_burst_in_range (lo hi : R) (l : list number) :
  Forall (in_range lo hi) l → (5 ≤ length l)%nat →
  in_range lo hi (min_burst l).
Proof.
  intros Hl Hlen.
  destruct (min_burst_is_minimum l) as (r & -> & _ & i & Hi & Hr).
  - eapply Forall_impl; [exact Hl|]. apply in_range_finite.
  - by apply window_size_fits.
  - pose proof (window_size_fits (length l) Hlen) as Hfit.
    rewrite <- Hr. apply window_avg_in_range; [done|lia|lia].
Qed.

Lemma constant_intervals (events : list KeyEvent) (c : number) :
  Forall (λ event, timeSinceLast event = c) (drop 1 events) →
  intervals_of events = replicate (length events - 1) c.
Proof.
  intros Hc. rewrite intervals_of_eq, <- (length_drop events 1).
  induction Hc as [|event rest Hevent _ IH]; [done|].
  cbn [fmap list_fmap length replicate]. by rewrite Hevent, <- IH.
Qed.

Lemma quartile_index_fits (n p : nat) :
  (0 < n)%nat → (p < 4)%nat → (floor_frac n p 4 < n)%nat.
Proof.
  intros Hn Hp. unfold floor_frac.
  apply Nat.Div0.div_lt_upper_bound. nia.
Qed.

End steady_facts.



Section spread_facts.
Local Open Scope R_scope.

Lemma ascending_lookup (l : list number) (i j : nat) (x y : R) :
  ascending l → (i ≤ j)%nat →
  l !! i = Some (Num x) → l !! j = Some (Num y) → x <= y.
Proof.
  intros Hl. revert i j. induction Hl as [|a l Hl IH Ha]; intros i j Hij Hi Hj.
  - by rewrite lookup_nil in Hi.
  - destruct i as [|i], j as [|j]; try lia.
    + simpl in Hi, Hj. injection Hi as ->. injection Hj as Hxy. lra.
    + simpl in Hi, Hj. injection Hi as ->.
      rewrite Forall_forall in Ha.
      specialize (Ha _ (list_elem_of_lookup_2 _ _ _ Hj)).
      by rewrite num_le_Num, bool_decide_eq_true in Ha.
    + simpl in Hi, Hj. apply (IH i j); [lia|done..].
Qed.

Lemma positive_finite (a : number) : positive a → finite a.
Proof. intros (x & -> & _). by exists x. Qed.

Lemma speedVariability_value (events : list KeyEvent) :
  (11 ≤ length events)%nat → steadily_timed events →
  ∃ v, speedVariability (calculateTypingPattern events) = Num v ∧ 0 <= v.
Proof.
  intros Hlen Htimed. rewrite calculateTypingPattern_unfold by lia.
  cbn [speedVariability]. cbv zeta.
  pose proof (intervals_positive events Htimed) as Hpos.
  destruct (Array_sort_ascending (intervals_of events)) as [Hasc _].
  { eapply Forall_impl; [exact Hpos|]. apply positive_finite. }
  destruct (averageSpeed_positive events Hlen Htimed) as (m & -> & Hm).
  destruct (quartile_positive events Hlen Htimed 1) as (a & Ha & _); [lia|].
  destruct (quartile_positive events Hlen Htimed 3) as (b & Hb & _); [lia|].
  revert Hasc Ha Hb.
  generalize (Array_sort by_difference (intervals_of events)).
  intros sorted Hasc Ha Hb. rewrite Ha, Hb. unfold array_get in Ha, Hb.
  destruct (sorted !! floor_frac (length sorted) 1 4) as [q1|] eqn:E1; [|done].
  destruct (sorted !! floor_frac (length sorted) 3 4) as [q3|] eqn:E3; [|done].
  simpl in Ha, Hb. subst q1 q3.
  assert (a <= b) as Hab.
  { apply (ascending_lookup sorted (floor_frac (length sorted) 1 4)
             (floor_frac (length sorted) 3 4) a b Hasc); [|done..].
    unfold floor_frac. apply Nat.Div0.div_le_mono. lia. }
  rewrite num_sub_Num, num_div_Num by lra.
  eexists. split; [done|]. unfold Rdiv.
  apply Rmult_le_pos; [lra|]. left. by apply Rinv_0_lt_compat.
Qed.

End spread_facts.

(** X9.  Errors and spread.  From eleven events on, with finite positive
    intervals, [speedVariability] is finite and not negative (the third
    quartile is never below the first), and [errorRate] is 0 exactly
    when no Backspace was pressed and at least one character was typed. *)
Theorem errorRate_zero_iff_no_backspace (events : list KeyEvent) :
  11 ≤ length events → steadily_timed events →
  let p := calculateTypingPattern events in
  nonneg (speedVariability p)
  ∧ (errorRate p = Num 0
     ↔ presses "Backspace" events = 0 ∧ Exists single_character events).
Proof.
  intros Hlen Htimed. cbv zeta.
  destruct (speedVariability_value events Hlen Htimed) as (v & Hv & Hv0).
  split; [by exists v|].
  assert (errorRate (calculateTypingPattern events)
          = num_mul
              (num_div (of_nat (presses "Backspace" events))
                 (of_nat (length (filter single_character events)
                          + presses "Backspace" events)))
              (Num (1 + v))) as ->.
  { revert Hv. rewrite calculateTypingPattern_unfold by lia.
    cbn [errorRate speedVariability]. cbv zeta. intros ->.
    destruct (scan_events_counters events) as (_ & _ & _ & ->).
    by rewrite totalChars_count. }
  assert (Exists single_character events
          ↔ 0 < length (filter single_character events)) as ->.
  { rewrite Exists_exists. split.
    - intros (event & Hin & Hone).
      assert (event ∈ filter single_character events) as Hmem
        by by apply list_elem_of_filter.
      destruct (filter _ events); [by apply elem_of_nil in Hmem|simpl; lia].
    - intros Hpos. destruct (filter single_character events) as [|event rest]
        eqn:E; [simpl in Hpos; lia|].
      assert (event ∈ filter single_character events) as Hmem
        by (rewrite E; left).
      apply list_elem_of_filter in Hmem as [? ?]. by exists event. }
  generalize (presses "Backspace" events)
    (length (filter single_character events)).
  intros b c. unfold of_nat.
  destruct (decide (c + b = 0)) as [Hz|Hnz].
  - assert (b = 0) as -> by lia. assert (c = 0) as -> by lia.
    change (INR (0 + 0)) with 0%R. change (INR 0) with 0%R.
    rewrite num_div_0_0. split; [done|lia].
  - assert (INR (c + b) ≠ 0%R) as Hd by by apply not_0_INR.
    rewrite num_div_Num by done. cbn [num_mul].
    assert (0 < INR (c + b))%R as Hpos by (apply lt_0_INR; lia).
    split.
    + intros [= E].
      apply Rmult_integral in E as [E|E]; [|lra].
      assert (INR b = 0%R) as Hb.
      { apply (Rmult_eq_reg_r (/ INR (c + b))).
        - unfold Rdiv in E. lra.
        - by apply Rinv_neq_0_compat. }
      assert (b = 0) as ->.
      { destruct b; [done|]. pose proof (lt_0_INR (S b) ltac:(lia)). lra. }
      split; [done|lia].
    + intros [-> Hc]. f_equal. simpl. unfold Rdiv. lra.
Qed.

Lemma errorRate_zero_iff_no_backspace_witness :
  let p := calculateTypingPattern (keystrokes "hello world, hello" 100) in
  nonneg (speedVariability p)
  ∧ (errorRate p = Num 0
     ↔ presses "Backspace" (keystrokes "hello world, hello" 100) = 0
       ∧ Exists single_character (keystrokes "hello world, hello" 100)).
Proof.
  apply (errorRate_zero_iff_no_backspace (keystrokes "hello world, hello" 100)).
  - vm_compute. lia.
  - apply keystrokes_timed. lra.
Defined.

Lemma scan_event_same_press (s : scan) (e1 e2 : KeyEvent) :
  same_press e1 e2 → scan_event s e1 = scan_event s e2.
Proof.
  intros (Hk & Ht & Hm).
  unfold scan_event, scan_backspace, scan_char, scan_modifier.
  by rewrite Hk, Ht, Hm.
Qed.

Lemma scan_events_same_press (events1 events2 : list KeyEvent) :
  Forall2 same_press events1 events2 →
  scan_events events1 = scan_events events2.
Proof.
  unfold scan_events. generalize scan_init.
  intros s Hsame. revert s.
  induction Hsame as [|e1 e2 l1 l2 He _ IH]; intros s; [done|].
  cbn [foldl]. by rewrite (scan_event_same_press s e1 e2 He), IH.
Qed.

Lemma intervals_same_press (events1 events2 : list KeyEvent) :
  Forall2 same_press events1 events2 →
  intervals_of events1 = intervals_of events2.
Proof.
  intros Hsame. rewrite !intervals_of_eq.
  apply (Forall2_drop _ _ _ 1) in Hsame.
  induction Hsame as [|e1 e2 l1 l2 (_ & Ht & _) _ IH]; [done|].
  cbn [fmap list_fmap]. by rewrite Ht, IH.
Qed.

(** X10.  The profile depends on the keys, the intervals and the
    modifier flags only: two recordings that differ in the [code]s and
    the absolute [timestamp]s give the same profile. *)
Theorem calculateTypingPattern_ignores_timestamps
    (events1 events2 : list KeyEvent) :
  Forall2 same_press events1 events2 →
  calculateTypingPattern events1 = calculateTypingPattern events2.
Proof.
  intros Hsame. unfold calculateTypingPattern.
  rewrite (Forall2_length _ _ _ Hsame).
  rewrite (intervals_same_press _ _ Hsame).
  by rewrite (scan_events_same_press _ _ Hsame).
Qed.

Lemma calculateTypingPattern_ignores_timestamps_witness :
  calculateTypingPattern
    [ {| key := "a"; code := "KeyA"; timestamp := Num 1000;
         timeSinceLast := Num 0; modifiers := no_modifiers |};
      {| key := "b"; code := "KeyB"; timestamp := Num 1090;
         timeSinceLast := Num 90; modifiers := no_modifiers |} ]
  = calculateTypingPattern [press "a" 0; press "b" 90].
Proof.
  apply calculateTypingPattern_ignores_timestamps.
  repeat constructor.
Defined.

(** ** The scorer *)

Section weight_facts.
Local Open Scope R_scope.

(** X11.  "Weight varies between 50-100% of base weight": for two
    metrics that are finite and not negative, [getWeight] lies between
    half the base weight and the base weight, and it is the full base
    weight when the two metrics agree. *)
Theorem getWeight_between_half_and_full (a1 a2 : number) (b : R) :
  nonneg a1 → nonneg a2 → 0 <= b →
  in_range (b / 2) b (getWeight a1 a2 (Num b))
  ∧ (a1 = a2 → getWeight a1 a2 (Num b) = Num b).
Proof.
  intros (m1 & -> & H1) (m2 & -> & H2) Hb. split.
  - rewrite getWeight_Num. cbn [in_range].
    pose proof (stability_unit m1 m2 1 H1 H2). nra.
  - intros [= ->]. rewrite getWeight_Num. f_equal.
    replace (m2 - m2) with 0 by lra. rewrite Rabs_R0. lra.
Qed.

Lemma getWeight_between_half_and_full_witness :
  in_range ((3 / 10) / 2) (3 / 10) (getWeight (Num 100) (Num 150) (Num (3 / 10)))
  ∧ (Num 100 = Num 150 →
     getWeight (Num 100) (Num 150) (Num (3 / 10)) = Num (3 / 10)).
Proof.
  apply (getWeight_between_half_and_full (Num 100) (Num 150) (3 / 10)).
  - exists 100. split; [done|lra].
  - exists 150. split; [done|lra].
  - lra.
Defined.

Lemma confidenceMultiplier_cap (pattern1 pattern2 : TypingPattern) :
  error_rates_within_one pattern1 pattern2 →
  ∃ c, confidenceMultiplier pattern1 pattern2 = Num c
       ∧ 0 <= c <= 1
       ∧ c <= sqrt (INR (size (keyPressDistribution pattern1)) / 20)
              * sqrt (INR (size (keyPressDistribution pattern2)) / 20).
Proof.
  intros (e1 & e2 & He1 & He2 & Hclose).
  unfold confidenceMultiplier. rewrite !vocabulary_term, He1, He2.
  rewrite closeness_Num. cbn [num_mul]. rewrite Math_min_Num.
  eexists. split; [done|].
  pose proof (sqrt_pos (INR (size (keyPressDistribution pattern1)) / 20)) as H1.
  pose proof (sqrt_pos (INR (size (keyPressDistribution pattern2)) / 20)) as H2.
  pose proof (Rabs_pos (e1 - e2)).
  pose proof (Rmult_le_pos _ _ H1 H2) as H12.
  assert (0 <= sqrt (INR (size (keyPressDistribution pattern1)) / 20)
               * sqrt (INR (size (keyPressDistribution pattern2)) / 20)
               * (1 - Rabs (e1 - e2))) by (apply Rmult_le_pos; lra).
  unfold Rmin. destruct (Rle_dec _ _); repeat split; nra.
Qed.

Lemma sqrt_49_100 : sqrt (49 / 100) = 7 / 10.
Proof. apply sqrt_lem_1; lra. Qed.

End weight_facts.



Lemma comparePatterns_NaN_speed (pattern1 pattern2 : TypingPattern) :
  averageSpeed pattern1 = NaN ∨ averageSpeed pattern2 = NaN →
  comparePatterns pattern1 pattern2 = NaN.
Proof.
  intros Hnan. unfold comparePatterns, similarity.
  assert (speedSimilarity pattern1 pattern2 = NaN) as ->; [|done].
  unfold speedSimilarity, min_over_max.
  destruct Hnan as [-> | ->]; [done|].
  by destruct (averageSpeed pattern1).
Qed.

Lemma averageSpeed_short (events : list KeyEvent) :
  2 ≤ length events ≤ 10 →
  averageSpeed (calculateTypingPattern events) = NaN.
Proof.
  intros [Hlo Hhi]. rewrite calculateTypingPattern_unfold by done.
  cbn [averageSpeed]. cbv zeta. rewrite trimmed_short.
  - apply num_div_0_0.
  - rewrite Array_sort_length, intervals_of_length. lia.
Qed.

(** X13.  A sample of two to ten events cannot be compared: its
    [averageSpeed] is [NaN], and [NaN] spreads through the weighted sum,
    so the score against any profile whatsoever, on either side, is
    [NaN]. *)
Theorem short_sample_scores_NaN (events : list KeyEvent)
    (pattern : TypingPattern) :
  2 ≤ length events ≤ 10 →
  comparePatterns (calculateTypingPattern events) pattern = NaN
  ∧ comparePatterns pattern (calculateTypingPattern events) = NaN.
Proof.
  intros Hlen. pose proof (averageSpeed_short events Hlen) as Hnan.
  split.
  - apply comparePatterns_NaN_speed. by left.
  - apply comparePatterns_NaN_speed. by right.
Qed.

Lemma short_sample_scores_NaN_witness :
  comparePatterns (calculateTypingPattern [press "a" 0; press "b" 90])
    steady_pattern = NaN
  ∧ comparePatterns steady_pattern
      (calculateTypingPattern [press "a" 0; press "b" 90]) = NaN.
Proof.
  apply (short_sample_scores_NaN [press "a" 0; press "b" 90] steady_pattern).
  simpl. lia.
Defined.

(** ** The callers: best match and bookkeeping *)

Lemma num_lt_trans (a b c : number) :
  num_lt a b = true → num_lt b c = true → num_lt a c = true.
Proof.
  destruct a, b, c; simpl; try done.
  rewrite !bool_decide_eq_true. lra.
Qed.

Lemma num_lt_irrefl (a : number) : num_lt a a = false.
Proof. destruct a; simpl; try done. apply bool_decide_eq_false_2. lra. Qed.

Lemma num_gt_raise (s b b' : number) :
  num_gt s b = false → num_gt b' b = true → num_gt s b' = false.
Proof.
  unfold num_gt. intros Hs Hb. destruct (num_lt b' s) eqn:E; [|done].
  by rewrite (num_lt_trans b b' s Hb E) in Hs.
Qed.

Lemma num_gt_not_trans (x b r : number) :
  b ≠ NaN → num_gt x b = false → num_gt b r = false → num_gt x r = false.
Proof.
  unfold num_gt. destruct x, b, r; simpl; try done.
  rewrite !bool_decide_eq_false. lra.
Qed.

Lemma num_gt_not_NaN (a b : number) : num_gt a b = true → a ≠ NaN.
Proof. by destruct a, b. Qed.

Lemma bind_value {A B : Type} (m : traced A) (f : A → traced B) :
  (m ≫= f).1 = (f m.1).1.
Proof. done. Qed.

Lemma forEach_value {A S : Type} (body : S → A → traced S) (s : S)
    (l : list A) :
  (forEach body s l).1 = foldl (λ s x, (body s x).1) s l.
Proof.
  revert s. induction l as [|x l IH]; intros s; [done|].
  cbn [forEach foldl]. by rewrite bind_value, IH.
Qed.

Lemma mapM_value {A B : Type} (f : A → traced B) (l : list A) :
  (mapM f l).1 = (λ x, (f x).1) <$> l.
Proof.
  induction l as [|x l IH]; [done|].
  cbn [mapM fmap list_fmap]. rewrite !bind_value. cbn [fst mret traced_ret].
  by rewrite IH.
Qed.

Section best_match.
Context {A B : Type} (score : A → number) (tag : A → B).

Local Abbreviation keep_best :=
  (λ (best : B * number) (x : A),
     if num_gt (score x) best.2 then (tag x, score x) else best).

(** The loop that keeps the best score: it ends with a score that no
    entry exceeds, and that is the initial one or the score of an entry. *)
Lemma keep_best_fold (l : list A) (best : B * number) :
  best.2 ≠ NaN →
  let r := foldl keep_best best l in
  r.2 ≠ NaN
  ∧ Forall (λ x, num_gt (score x) r.2 = false) l
  ∧ num_gt best.2 r.2 = false
  ∧ (r = best ∨ ∃ x, x ∈ l ∧ r = (tag x, score x)).
Proof.
  revert best. induction l as [|x l IH]; intros best Hbest; cbv zeta.
  - repeat split; [done|constructor|apply num_lt_irrefl|by left].
  - cbn [foldl]. destruct (num_gt (score x) best.2) eqn:Hx.
    + destruct (IH (tag x, score x)) as (Hr & Hall & Hge & Hsrc).
      { by apply num_gt_not_NaN in Hx. }
      cbn [snd] in Hge. repeat split; [done|by constructor| |].
      * destruct (num_gt best.2 _) eqn:E; [|done].
        unfold num_gt in *.
        by rewrite (num_lt_trans _ _ _ E Hx) in Hge.
      * right. destruct Hsrc as [->|(y & Hy & ->)].
        -- exists x. split; [by left|done].
        -- exists y. split; [by right|done].
    + destruct (IH best Hbest) as (Hr & Hall & Hge & Hsrc).
      repeat split; [done| |done|].
      * constructor; [|done]. by apply (num_gt_not_trans _ best.2).
      * destruct Hsrc as [->|(y & Hy & ->)]; [by left|].
        right. exists y. split; [by right|done].
Qed.

End best_match.

(** X14.  What [/api/predict] answers past the gate.  The confidence is
    0 or the score of a stored profile, and no stored profile scores
    higher; a user id is reported exactly when the confidence exceeds
    0.7, and then it is the id of a profile with that score. *)
Theorem api_predict_reports_best (profiles : list (string * TypingPattern))
    (events : list KeyEvent) :
  75 ≤ length events →
  let score := comparePatterns (calculateTypingPattern events) in
  ∃ matched confidence,
    (api_predict profiles (EventArray events)).1
    = PredictJson matched confidence
    ∧ Forall (λ entry, num_gt (score entry.2) confidence = false) profiles
    ∧ (matched = None ↔ num_gt confidence (Num (7 / 10)) = false)
    ∧ (confidence = Num 0 ∧ matched = None
       ∨ ∃ entry, entry ∈ profiles ∧ confidence = score entry.2
                  ∧ (matched = None ∨ matched = Some entry.1)).
Proof.
  intros Hlen score. unfold api_predict. rewrite decide_False by lia.
  rewrite !bind_value. cbn [call_calculateTypingPattern fst mret traced_ret].
  rewrite forEach_value.
  change (foldl _ ("", Num 0) profiles)
    with (foldl (λ (best : string * number) (entry : string * TypingPattern),
                   if num_gt (score entry.2) best.2
                   then (entry.1, score entry.2) else best)
            ("", Num 0) profiles).
  destruct (keep_best_fold (λ entry : string * TypingPattern, score entry.2)
              fst profiles ("", Num 0)) as (_ & Hall & _ & Hsrc); [done|].
  revert Hall Hsrc. generalize (foldl
    (λ (best : string * number) (entry : string * TypingPattern),
       if num_gt (score entry.2) best.2 then (entry.1, score entry.2)
       else best) ("", Num 0) profiles).
  intros [userId confidence] Hall Hsrc. cbn [fst snd] in *.
  eexists _, confidence. split; [done|]. split; [done|]. split.
  - by destruct (num_gt confidence (Num (7 / 10))).
  - destruct Hsrc as [[= -> ->]|(entry & Hin & [= -> ->])].
    + left. split; [done|]. rewrite num_gt_Num.
      by rewrite bool_decide_eq_false_2 by lra.
    + right. exists entry. split; [done|]. split; [done|].
      destruct (num_gt _ _); [by right|by left].
Qed.

Lemma api_predict_reports_best_witness :
  let score := comparePatterns (calculateTypingPattern fox_events) in
  ∃ matched confidence,
    (api_predict [("ada", steady_pattern)] (EventArray fox_events)).1
    = PredictJson matched confidence
    ∧ Forall (λ entry, num_gt (score entry.2) confidence = false)
        [("ada", steady_pattern)]
    ∧ (matched = None ↔ num_gt confidence (Num (7 / 10)) = false)
    ∧ (confidence = Num 0 ∧ matched = None
       ∨ ∃ entry, entry ∈ [("ada", steady_pattern)]
                  ∧ confidence = score entry.2
                  ∧ (matched = None ∨ matched = Some entry.1)).
Proof.
  apply (api_predict_reports_best [("ada", steady_pattern)] fox_events).
  vm_compute. lia.
Defined.


(** ** [predictUser] *)

Local Abbreviation best_of score first rest :=
  (foldl (λ (best : UserProfile * number) (p : UserProfile),
            if num_gt (score p) best.2 then (p, score p) else best)
     (first, score first) rest).

Local Abbreviation full_name p := (firstName p +:+ " " +:+ lastName p).

Lemma keep_best_some {A : Type} (score : A → number) (l : list A)
    (b : A * number) :
  foldl (λ (bm : option (A * number)) x,
           match bm with
           | None => Some (x, score x)
           | Some best =>
               if num_gt (score x) best.2 then Some (x, score x) else bm
           end) (Some b) l
  = Some (foldl (λ (best : A * number) x,
                   if num_gt (score x) best.2 then (x, score x) else best)
            b l).
Proof.
  revert b. induction l as [|x l IH]; intros b; [done|].
  cbn [foldl]. destruct (num_gt (score x) b.2); apply IH.
Qed.

(** The state after a run of [predictUser] on a sufficient sample and a
    gallery that is not empty. *)
Lemma predictUser_long (now : number) (st : AppState)
    (first : UserProfile) (rest : list UserProfile) :
  MINIMUM_SAMPLE_SIZE ≤ length (keyEvents st) →
  userProfiles st = first :: rest →
  let currentPattern := calculateTypingPattern (keyEvents st) in
  let score := λ p, comparePatterns currentPattern (pattern p) in
  let best := (best_of score first rest).1 in
  let confidence := (best_of score first rest).2 in
  (predictUser now st).1
  = finish st
      ((λ p, (update_profile now (keyEvents st) currentPattern (id best)
                (num_ge confidence HIGH_CONFIDENCE_THRESHOLD) p).1)
         <$> userProfiles st)
      (Some (if num_ge confidence HIGH_CONFIDENCE_THRESHOLD
             then MatchFound (full_name best) confidence
             else if num_ge confidence POSSIBLE_MATCH_THRESHOLD
                     && num_lt confidence HIGH_CONFIDENCE_THRESHOLD
             then PossibleMatch (full_name best) confidence
             else NoMatchFound confidence))
      (predictionHistory st ++
         [{| history_timestamp := now;
             predictedUser := full_name best;
             confidence := confidence;
             correct := num_ge confidence HIGH_CONFIDENCE_THRESHOLD |}]).
Proof.
  intros Hlen Hprofiles currentPattern score best confidence.
  unfold predictUser. rewrite decide_False by lia.
  rewrite !bind_value. cbn [call_calculateTypingPattern fst].
  rewrite forEach_value. fold currentPattern.
  assert (foldl
            (λ (s : option (UserProfile * number)) (x : UserProfile),
               (call_comparePatterns currentPattern (pattern x)
                ≫= (λ similarity : number,
                      mret
                        match s with
                        | Some best0 =>
                            if num_gt similarity best0.2
                            then Some (x, similarity) else s
                        | None => Some (x, similarity)
                        end)).1) None (userProfiles st)
          = Some (best_of score first rest)) as ->.
  { rewrite Hprofiles. cbn [foldl].
    apply (keep_best_some score rest (first, score first)). }
  subst best confidence. destruct (best_of score first rest) as [best c].
  cbn [fst snd]. by rewrite bind_value, mapM_value.
Qed.

Lemma num_ge_lt (c t : number) :
  c ≠ NaN → t ≠ NaN → num_ge c t = false → num_lt c t = true.
Proof.
  unfold num_ge. destruct c, t; simpl; try done.
  rewrite bool_decide_eq_false, bool_decide_eq_true. lra.
Qed.

(** X16.  What [predictUser] reports on a sufficient sample, when the
    score of the first profile is a number: the best-scoring profile of
    the gallery, as "Match Found" from 0.85 on, as "Possible Match" from
    0.75 on, and as "No Match Found" below; the history grows by exactly
    this prediction, counted as correct in the first case only. *)
Theorem predictUser_reports_best (now : number) (st : AppState)
    (first : UserProfile) (rest : list UserProfile) :
  MINIMUM_SAMPLE_SIZE ≤ length (keyEvents st) →
  userProfiles st = first :: rest →
  let score :=
    λ p, comparePatterns (calculateTypingPattern (keyEvents st)) (pattern p) in
  score first ≠ NaN →
  ∃ best,
    best ∈ userProfiles st
    ∧ Forall (λ p, num_gt (score p) (score best) = false) (userProfiles st)
    ∧ predictionResult (predictUser now st).1
      = Some (if num_ge (score best) HIGH_CONFIDENCE_THRESHOLD
              then MatchFound (full_name best) (score best)
              else if num_ge (score best) POSSIBLE_MATCH_THRESHOLD
              then PossibleMatch (full_name best) (score best)
              else NoMatchFound (score best))
    ∧ predictionHistory (predictUser now st).1
      = predictionHistory st ++
          [{| history_timestamp := now;
              predictedUser := full_name best;
              confidence := score best;
              correct := num_ge (score best) HIGH_CONFIDENCE_THRESHOLD |}].
Proof.
  intros Hlen Hprofiles score Hfirst.
  rewrite (predictUser_long now st first rest Hlen Hprofiles).
  cbn [predictionResult predictionHistory finish].
  set (r := foldl _ (first, _) rest).
  assert (r.2 ≠ NaN
          ∧ Forall (λ p, num_gt (score p) r.2 = false) rest
          ∧ num_gt (score first) r.2 = false
          ∧ (r = (first, score first) ∨ ∃ p, p ∈ rest ∧ r = (p, score p)))
    as (Hr & Hall & Hge & Hsrc)
    by exact (keep_best_fold score (λ p : UserProfile, p) rest
                (first, score first) Hfirst).
  clearbody r. destruct r as [best c]. cbn [fst snd] in *.
  assert (c = score best ∧ best ∈ first :: rest) as [-> Hin].
  { destruct Hsrc as [[= -> ->]|(p & Hp & [= -> ->])].
    - split; [done|by left].
    - split; [done|by right]. }
  exists best. rewrite Hprofiles. split; [done|]. split; [by constructor|].
  split; [|done]. f_equal.
  destruct (num_ge (score best) HIGH_CONFIDENCE_THRESHOLD) eqn:Hhigh; [done|].
  by rewrite (num_ge_lt _ HIGH_CONFIDENCE_THRESHOLD Hr), andb_true_r.
Qed.

Lemma fox_self_score :
  comparePatterns (calculateTypingPattern fox_events)
    (pattern (sample_profile "1" "Ada" "Lovelace" fox_events)) ≠ NaN.
Proof.
  cbn [sample_profile new_profile pattern].
  rewrite extracted_self_match; [discriminate| | |].
  - vm_compute. lia.
  - apply keystrokes_timed. lra.
  - by left.
Qed.

Lemma predictUser_reports_best_witness :
  let st :=
    sample_state fox_events [sample_profile "1" "Ada" "Lovelace" fox_events] in
  let score :=
    λ p, comparePatterns (calculateTypingPattern (keyEvents st)) (pattern p) in
  ∃ best,
    best ∈ userProfiles st
    ∧ Forall (λ p, num_gt (score p) (score best) = false) (userProfiles st)
    ∧ predictionResult (predictUser (Num 2) st).1
      = Some (if num_ge (score best) HIGH_CONFIDENCE_THRESHOLD
              then MatchFound (full_name best) (score best)
              else if num_ge (score best) POSSIBLE_MATCH_THRESHOLD
              then PossibleMatch (full_name best) (score best)
              else NoMatchFound (score best))
    ∧ predictionHistory (predictUser (Num 2) st).1
      = predictionHistory st ++
          [{| history_timestamp := Num 2;
              predictedUser := full_name best;
              confidence := score best;
              correct := num_ge (score best) HIGH_CONFIDENCE_THRESHOLD |}].
Proof.
  apply (predictUser_reports_best (Num 2)
           (sample_state fox_events
              [sample_profile "1" "Ada" "Lovelace" fox_events])
           (sample_profile "1" "Ada" "Lovelace" fox_events) []).
  - vm_compute. lia.
  - done.
  - apply fox_self_score.
Defined.

Lemma keep_best_NaN {A : Type} (score : A → number) (l : list A) (t : A) :
  foldl (λ (best : A * number) x,
           if num_gt (score x) best.2 then (x, score x) else best)
    (t, NaN) l = (t, NaN).
Proof.
  induction l as [|x l IH]; [done|]. cbn [foldl snd].
  by destruct (score x).
Qed.

(** X17.  A first profile whose score is [NaN] masks the gallery: the
    loop takes the first profile unconditionally and replaces it only by
    a greater score, and nothing is greater than [NaN].  Whatever the
    other profiles are, the run ends in "No Match Found" with confidence
    [NaN], recorded under the first profile's name. *)
Theorem predictUser_first_NaN_masks_gallery (now : number) (st : AppState)
    (first : UserProfile) (rest : list UserProfile) :
  MINIMUM_SAMPLE_SIZE ≤ length (keyEvents st) →
  userProfiles st = first :: rest →
  comparePatterns (calculateTypingPattern (keyEvents st)) (pattern first)
  = NaN →
  predictionResult (predictUser now st).1 = Some (NoMatchFound NaN)
  ∧ predictionHistory (predictUser now st).1
    = predictionHistory st ++
        [{| history_timestamp := now;
            predictedUser := full_name first;
            confidence := NaN;
            correct := false |}].
Proof.
  intros Hlen Hprofiles Hnan.
  rewrite (predictUser_long now st first rest Hlen Hprofiles).
  cbn [predictionResult predictionHistory finish].
  rewrite Hnan.
  by rewrite (keep_best_NaN
    (λ p, comparePatterns (calculateTypingPattern (keyEvents st)) (pattern p))).
Qed.

Lemma predictUser_first_NaN_masks_gallery_witness :
  let hasty :=
    sample_profile "1" "Ann" "Lee" [press "a" 0; press "b" 90] in
  let st :=
    sample_state fox_events
      [hasty; sample_profile "2" "Ada" "Lovelace" fox_events] in
  predictionResult (predictUser (Num 2) st).1 = Some (NoMatchFound NaN)
  ∧ predictionHistory (predictUser (Num 2) st).1
    = predictionHistory st ++
        [{| history_timestamp := Num 2;
            predictedUser := full_name hasty;
            confidence := NaN;
            correct := false |}].
Proof.
  apply (predictUser_first_NaN_masks_gallery (Num 2)
           (sample_state fox_events
              [sample_profile "1" "Ann" "Lee" [press "a" 0; press "b" 90];
               sample_profile "2" "Ada" "Lovelace" fox_events])
           (sample_profile "1" "Ann" "Lee" [press "a" 0; press "b" 90])
           [sample_profile "2" "Ada" "Lovelace" fox_events]).
  - vm_compute. lia.
  - done.
  - apply comparePatterns_NaN_speed. right.
    cbn [sample_profile new_profile pattern].
    apply averageSpeed_short. simpl. lia.
Defined.

Lemma last_five_length {A : Type} (l : list A) :
  length (slice l (-5) None) = Nat.min 5 (length l).
Proof.
  unfold slice. change (-5)%Z with (- Z.of_nat 5)%Z.
  rewrite rel_index_neg by lia.
  rewrite length_take, length_drop. lia.
Qed.

Lemma update_profile_value (now : number) (events : list KeyEvent)
    (currentPattern : TypingPattern) (best_id : string) (high : bool)
    (p : UserProfile) :
  let p' := (update_profile now events currentPattern best_id high p).1 in
  id p' = id p ∧ firstName p' = firstName p ∧ lastName p' = lastName p
  ∧ createdAt p' = createdAt p
  ∧ length (samples p') ≤ Nat.max 5 (length (samples p))
  ∧ (pattern p' = pattern p ∨ pattern p' = calculateTypingPattern events)
  ∧ (id p ≠ best_id → p' = p).
Proof.
  cbv zeta. unfold update_profile.
  destruct (decide (id p = best_id)) as [Hid|Hid].
  - destruct high.
    + rewrite bind_value.
      cbn [fst snd mret traced_ret call_calculateTypingPattern id firstName
           lastName createdAt samples pattern].
      rewrite last_five_length, length_app. cbn [length].
      repeat split; [lia|by right|done].
    + cbn. repeat split; [lia|by left|done].
  - cbn. repeat split; [lia|by left].
Qed.


(** ** Enrolment and the dashboard *)

Local Abbreviation entered form :=
  (form_firstName form +:+ " " +:+ form_lastName form).

Section enrolment_facts.
Variable toString : number → string.

Lemma createNewProfile_value (now : number) (form : Form) (st : AppState) :
  form_firstName form ≠ "" → form_lastName form ≠ "" →
  MINIMUM_SAMPLE_SIZE ≤ length (keyEvents st) →
  let enrolled := (createNewProfile toString now form st).1.2 in
  keyEvents enrolled = []
  ∧ userProfiles enrolled
    = userProfiles st
      ++ [new_profile toString now (form_firstName form) (form_lastName form)
            (keyEvents st) (calculateTypingPattern (keyEvents st))].
Proof.
  intros Hfirst Hlast Hlen. cbv zeta. unfold createNewProfile.
  rewrite !bool_decide_eq_false_2 by (done || lia). done.
Qed.

Lemma threshold_high (n : nat) :
  num_ge (Num (Rmin 1 (INR n / 20))) HIGH_CONFIDENCE_THRESHOLD
  = bool_decide (17 ≤ n).
Proof.
  unfold num_ge, HIGH_CONFIDENCE_THRESHOLD. rewrite num_le_Num.
  apply bool_decide_ext. split.
  - intros Hc. destruct (decide (17 ≤ n)) as [|Hn]; [done|].
    assert (n ≤ 16) as Hle by lia. apply le_INR in Hle.
    pose proof (Rmin_r 1 (INR n / 20)). simpl in Hle. lra.
  - intros Hn. apply le_INR in Hn. simpl in Hn.
    apply Rmin_glb; lra.
Qed.

Lemma threshold_possible (n : nat) :
  num_ge (Num (Rmin 1 (INR n / 20))) POSSIBLE_MATCH_THRESHOLD
  = bool_decide (15 ≤ n).
Proof.
  unfold num_ge, POSSIBLE_MATCH_THRESHOLD. rewrite num_le_Num.
  apply bool_decide_ext. split.
  - intros Hc. destruct (decide (15 ≤ n)) as [|Hn]; [done|].
    assert (n ≤ 14) as Hle by lia. apply le_INR in Hle.
    pose proof (Rmin_r 1 (INR n / 20)). simpl in Hle. lra.
  - intros Hn. apply le_INR in Hn. simpl in Hn.
    apply Rmin_glb; lra.
Qed.


(** X20.  Enrol, then delete the new profile.  The identifier is the
    clock reading of the enrolment, so the deletion removes the new
    profile together with every older one that was enrolled at the same
    reading; when there is none, the gallery is what it was. *)
Theorem create_then_delete (now : number) (form : Form) (st : AppState) :
  form_firstName form ≠ "" → form_lastName form ≠ "" →
  MINIMUM_SAMPLE_SIZE ≤ length (keyEvents st) →
  let enrolled := (createNewProfile toString now form st).1.2 in
  userProfiles (deleteProfile (toString now) enrolled)
  = filter (λ p, id p ≠ toString now) (userProfiles st)
  ∧ (Forall (λ p, id p ≠ toString now) (userProfiles st) →
     userProfiles (deleteProfile (toString now) enrolled) = userProfiles st).
Proof.
  intros Hfirst Hlast Hlen enrolled.
  destruct (createNewProfile_value now form st Hfirst Hlast Hlen)
    as [_ Hprofiles]. fold enrolled in Hprofiles.
  assert (userProfiles (deleteProfile (toString now) enrolled)
          = filter (λ p, id p ≠ toString now) (userProfiles st)) as Hdel.
  { cbn [deleteProfile userProfiles]. rewrite Hprofiles, filter_app.
    rewrite filter_cons, filter_nil. cbn [new_profile id].
    rewrite decide_False by (intros H; by apply H). apply app_nil_r. }
  split; [done|]. rewrite Hdel. generalize (userProfiles st).
  intros gallery Hfresh. induction Hfresh as [|p l Hp _ IH]; [done|].
  rewrite filter_cons, decide_True by done. by rewrite IH.
Qed.

End enrolment_facts.


Lemma create_then_delete_witness :
  let st := sample_state fox_events [] in
  let form :=
    {| form_firstName := "Ada"; form_lastName := "Lovelace";
       form_mode := CreateMode |} in
  let enrolled := (createNewProfile (λ _, "1") (Num 1) form st).1.2 in
  userProfiles (deleteProfile "1" enrolled)
  = filter (λ p, id p ≠ "1") (userProfiles st)
  ∧ (Forall (λ p, id p ≠ "1") (userProfiles st) →
     userProfiles (deleteProfile "1" enrolled) = userProfiles st).
Proof.
  apply (create_then_delete (λ _, "1") (Num 1)
           {| form_firstName := "Ada"; form_lastName := "Lovelace";
              form_mode := CreateMode |}
           (sample_state fox_events [])).
  - done.
  - done.
  - vm_compute. lia.
Defined.

Section dashboard_facts.
Local Open Scope R_scope.

Lemma percentage_range (count total : nat) :
  (count ≤ total)%nat →
  ∃ x, percentage count total = Num x ∧ 0 <= x <= 100
       ∧ (total ≠ 0%nat → x = INR count / INR total * 100)
       ∧ (total = 0%nat → x = 0).
Proof.
  intros Hle. unfold percentage. case_decide as Hz.
  - exists 0. repeat split; [lra..|done].
  - unfold of_nat. assert (0 < INR total) as Hpos by (apply lt_0_INR; lia).
    rewrite num_div_Num by lra. cbn [num_mul].
    eexists. split; [done|]. split; [|done].
    pose proof (pos_INR count). apply le_INR in Hle.
    pose proof (ratio_unit (INR count) (INR total)). lra.
Qed.

Lemma filters_disjoint {A : Type} (f g : A → bool) (l : list A) :
  (∀ x, f x = true → g x = false) →
  (length (List.filter f l) + length (List.filter g l) ≤ length l)%nat.
Proof.
  intros Hfg. induction l as [|x l IH]; [done|].
  cbn [List.filter]. destruct (f x) eqn:Hf.
  - rewrite (Hfg x Hf). cbn [length]. lia.
  - destruct (g x); cbn [length]; lia.
Qed.

Lemma match_is_no_error (p : PredictionHistory) :
  is_match p = true → is_error p = false.
Proof.
  unfold is_match, is_error, num_ge, POSSIBLE_MATCH_THRESHOLD,
    NO_MATCH_THRESHOLD.
  destruct (confidence p) as [c| | |]; simpl; try done.
  rewrite bool_decide_eq_true, bool_decide_eq_false. lra.
Qed.

End dashboard_facts.


Lemma sum_NaN (history : list PredictionHistory) :
  foldl (λ acc curr, num_add acc (confidence curr)) NaN history = NaN.
Proof. induction history as [|p l IH]; [done|]. apply IH. Qed.

Lemma sum_with_NaN (history : list PredictionHistory) (a : number) :
  Exists (λ p, confidence p = NaN) history →
  foldl (λ acc curr, num_add acc (confidence curr)) a history = NaN.
Proof.
  intros Hnan. revert a. induction Hnan as [p l Hp|p l _ IH]; intros a.
  - cbn [foldl]. rewrite Hp.
    replace (num_add a NaN) with NaN by by destruct a. apply sum_NaN.
  - cbn [foldl]. apply IH.
Qed.

(** X22.  One prediction without a score spoils the average.  When the
    history holds a prediction whose confidence is [NaN] (the outcome of
    a masked gallery), the average confidence of the dashboard is [NaN],
    however many good predictions there are. *)
Theorem analytics_average_of_NaN (history : list PredictionHistory) :
  Exists (λ p, confidence p = NaN) history →
  an_averageConfidence (analytics history) = NaN.
Proof.
  intros Hnan. unfold analytics. cbn [an_averageConfidence].
  rewrite decide_False by (by destruct Hnan).
  by rewrite sum_with_NaN.
Qed.

Lemma analytics_average_of_NaN_witness :
  an_averageConfidence
    (analytics
       [{| history_timestamp := Num 1; predictedUser := "Ada Lovelace";
           confidence := Num (9 / 10); correct := true |};
        {| history_timestamp := Num 2; predictedUser := "Ann Lee";
           confidence := NaN; correct := false |}]) = NaN.
Proof.
  apply analytics_average_of_NaN. right. by left.
Defined.

(** ** Capturing keystrokes *)

Lemma created_length (last : option number)
    (presses : list (number * KeyboardEvent)) :
  length (created last presses) = length presses.
Proof.
  revert last. induction presses as [|p l IH]; intros last; [done|].
  cbn [created length]. by rewrite IH.
Qed.

Lemma concat_length_uniform {A : Type} (k : nat) (l : list (list A)) :
  Forall (λ x, length x = k) l → length (concat l) = k * length l.
Proof.
  induction 1 as [|x l Hx _ IH]; [simpl; lia|].
  cbn [concat length]. rewrite length_app, Hx, IH. lia.
Qed.

(** One key press in the content script: the events seen so far are the
    messages sent followed by the buffer, and the buffer stays below 75. *)
Lemma content_step_batches (st : capture) (msgs : list (list KeyEvent))
    (press : number * KeyboardEvent) :
  length (c_keyEvents st) < 75 →
  let r := content_step (st, msgs) press in
  length (c_keyEvents r.1) < 75
  ∧ c_lastKeyTime r.1 = Some press.1
  ∧ (∃ new, r.2 = msgs ++ new ∧ Forall (λ data, length data = 75) new
            ∧ concat new ++ c_keyEvents r.1
              = c_keyEvents st
                ++ [make_event press.1 (c_lastKeyTime st) press.2]).
Proof.
  intros Hbuf. cbv zeta. unfold content_step, content_handleKeyDown.
  cbn [fst snd]. case_decide as Hfull; cbn [fst snd c_keyEvents c_lastKeyTime].
  - split; [simpl; lia|]. split; [done|]. eexists. split; [done|].
    rewrite length_app in Hfull. cbn [length] in Hfull. split.
    + apply Forall_singleton. rewrite length_app. cbn [length]. lia.
    + cbn [concat]. by rewrite !app_nil_r.
  - split; [lia|]. split; [done|]. exists []. split; [by rewrite app_nil_r|].
    split; [constructor|done].
Qed.

Lemma content_fold_batches (presses : list (number * KeyboardEvent))
    (st : capture) (msgs : list (list KeyEvent)) :
  length (c_keyEvents st) < 75 →
  Forall (λ data, length data = 75) msgs →
  let r := foldl content_step (st, msgs) presses in
  Forall (λ data, length data = 75) r.2
  ∧ length (c_keyEvents r.1) < 75
  ∧ concat r.2 ++ c_keyEvents r.1
    = concat msgs ++ c_keyEvents st ++ created (c_lastKeyTime st) presses.
Proof.
  revert st msgs. induction presses as [|press presses IH];
    intros st msgs Hbuf Hmsgs; cbv zeta.
  - cbn [foldl created fst snd]. by rewrite app_nil_r.
  - cbn [foldl created].
    destruct (content_step_batches st msgs press Hbuf)
      as (Hbuf' & Hlast & new & Hnew & Hall & Hcat).
    revert Hbuf' Hlast Hnew Hcat.
    generalize (content_step (st, msgs) press). intros [st' msgs'].
    cbn [fst snd]. intros Hbuf' Hlast -> Hcat.
    destruct (IH st' (msgs ++ new) Hbuf') as (IH1 & IH2 & IH3).
    { by apply Forall_app. }
    split; [done|]. split; [done|].
    rewrite IH3, Hlast, concat_app, <- !app_assoc.
    f_equal. rewrite !app_assoc, Hcat. by rewrite <- !app_assoc.
Qed.

(** X23.  The content script sends the keystrokes in batches of exactly
    75.  After any sequence of key presses the messages sent, followed
    by the buffer, are the events created so far, in order and without
    loss or repetition; every message holds 75 events, the buffer fewer,
    and one message has been sent for every 75 presses. *)
Theorem content_script_batches (presses : list (number * KeyboardEvent)) :
  let r := content_run presses capture_init in
  Forall (λ data, length data = 75) r.2
  ∧ length (c_keyEvents r.1) < 75
  ∧ concat r.2 ++ c_keyEvents r.1 = created None presses
  ∧ length r.2 = length presses `div` 75.
Proof.
  cbv zeta. unfold content_run.
  destruct (content_fold_batches presses capture_init []) as (Hall & Hbuf & Hcat);
    [simpl; lia|constructor|].
  cbn [capture_init c_keyEvents c_lastKeyTime concat app] in Hcat.
  split; [done|]. split; [done|]. split; [done|].
  apply (f_equal length) in Hcat.
  rewrite length_app, created_length, (concat_length_uniform 75) in Hcat
    by done.
  apply (Nat.div_unique _ _ _ (length (c_keyEvents
    (foldl content_step (capture_init, []) presses).1))); lia.
Qed.

Section clock_facts.
Local Open Scope R_scope.

Lemma created_positive (l : R) (presses : list (number * KeyboardEvent)) :
  0 < l → ticking l presses →
  Forall (λ event, positive (timeSinceLast event))
    (created (Some (Num l)) presses).
Proof.
  revert l. induction presses as [|[now e] presses IH]; intros l Hl Htick;
    [constructor|].
  destruct Htick as (t & Ht & Hlt & Htick). cbn [fst snd] in *. subst now.
  cbn [created fst snd]. constructor.
  - cbn [make_event timeSinceLast since truthy].
    rewrite bool_decide_eq_false_2 by lra. cbn [negb].
    rewrite num_sub_Num. exists (t - l). split; [done|lra].
  - apply IH; [lra|done].
Qed.

Lemma created_timed (presses : list (number * KeyboardEvent)) :
  ticking 0 presses → steadily_timed (created None presses).
Proof.
  destruct presses as [|[now e] presses]; [constructor|].
  intros (t & Ht & Hlt & Htick). cbn [fst snd] in *. subst now.
  unfold steadily_timed. cbn [created drop fst snd].
  by apply created_positive.
Qed.

End clock_facts.

Lemma app_run_events (presses : list (number * KeyboardEvent))
    (st : AppState) :
  keyEvents (app_run presses st)
  = keyEvents st ++ created (lastKeyTime st) presses.
Proof.
  unfold app_run. revert st.
  induction presses as [|press presses IH]; intros st.
  - cbn [foldl created]. by rewrite app_nil_r.
  - cbn [foldl created]. rewrite IH.
    cbn [app_handleKeyDown keyEvents lastKeyTime].
    by rewrite <- app_assoc.
Qed.

Lemma created_keys (last : option number)
    (presses : list (number * KeyboardEvent)) :
  key <$> created last presses = (λ press, dom_key press.2) <$> presses.
Proof.
  revert last. induction presses as [|p l IH]; intros last; [done|].
  cbn [created fmap list_fmap]. by rewrite IH.
Qed.

(** X24.  From the keyboard to a usable profile.  Starting from a reset
    state, eleven or more key presses in the application, at clock
    readings that are positive and strictly increasing, with at least
    one single-character key among them, leave keystrokes whose profile
    is well scaled: the speeds are finite and positive, and every ratio
    is finite and within its range. *)
Theorem typed_sample_is_well_scaled (presses : list (number * KeyboardEvent))
    (st : AppState) :
  keyEvents st = [] → lastKeyTime st = None →
  ticking 0 presses → 11 ≤ length presses →
  Exists (λ press, String.length (dom_key press.2) = 1) presses →
  keyEvents (app_run presses st) = created None presses
  ∧ well_scaled (calculateTypingPattern (keyEvents (app_run presses st))).
Proof.
  intros Hempty Hlast Htick Hlen Hchar.
  assert (keyEvents (app_run presses st) = created None presses) as ->.
  { by rewrite app_run_events, Hempty, Hlast. }
  split; [done|]. apply extracted_well_scaled.
  - by rewrite created_length.
  - by apply created_timed.
  - apply Exists_exists in Hchar as (press & Hin & Hone).
    apply Exists_exists. apply list_elem_of_lookup in Hin as [i Hi].
    assert ((key <$> created None presses) !! i = Some (dom_key press.2))
      as Hk by by rewrite created_keys, list_lookup_fmap, Hi.
    rewrite list_lookup_fmap in Hk.
    destruct (created None presses !! i) as [event|] eqn:Hevent; [|done].
    injection Hk as Hk. exists event. split.
    + by apply list_elem_of_lookup_2 in Hevent.
    + unfold single_character. by rewrite Hk.
Qed.


Lemma ticking_sample :
  ticking 0
    [(Num 1, key_down "a"); (Num 2, key_down "b"); (Num 4, key_down "c");
     (Num 5, key_down "d"); (Num 7, key_down "e"); (Num 8, key_down "f");
     (Num 9, key_down "g"); (Num 11, key_down "h"); (Num 12, key_down "i");
     (Num 13, key_down "j"); (Num 15, key_down "k")].
Proof.
  cbn [ticking fst].
  repeat (eexists; split; [reflexivity|]; split; [lra|]). done.
Qed.

Lemma typed_sample_is_well_scaled_witness :
  let presses :=
    [(Num 1, key_down "a"); (Num 2, key_down "b"); (Num 4, key_down "c");
     (Num 5, key_down "d"); (Num 7, key_down "e"); (Num 8, key_down "f");
     (Num 9, key_down "g"); (Num 11, key_down "h"); (Num 12, key_down "i");
     (Num 13, key_down "j"); (Num 15, key_down "k")] in
  keyEvents (app_run presses (sample_state [] [])) = created None presses
  ∧ well_scaled
      (calculateTypingPattern (keyEvents (app_run presses (sample_state [] [])))).
Proof.
  apply (typed_sample_is_well_scaled
    [(Num 1, key_down "a"); (Num 2, key_down "b"); (Num 4, key_down "c");
     (Num 5, key_down "d"); (Num 7, key_down "e"); (Num 8, key_down "f");
     (Num 9, key_down "g"); (Num 11, key_down "h"); (Num 12, key_down "i");
     (Num 13, key_down "j"); (Num 15, key_down "k")] (sample_state [] [])).
  - done.
  - done.
  - apply ticking_sample.
  - simpl. lia.
  - by left.
Defined.


Lemma moving_window (intervals : list number) (i : nat) :
  i < length intervals →
  slice intervals (Z.max 0 (Z.of_nat i - 5)) (Some (Z.of_nat i + 1)%Z)
  = take (i + 1 - (i - 5)) (drop (i - 5) intervals).
Proof.
  intros Hi.
  replace (Z.max 0 (Z.of_nat i - 5)) with (Z.of_nat (i - 5)) by lia.
  replace (Z.of_nat i + 1)%Z with (Z.of_nat (i + 1)) by lia.
  apply slice_window; lia.
Qed.


